(** * NinjaOne MCP gateway: credential cache, upstream client, session registry

    A shallow embedding of the TypeScript sources

      - [src/ninja-api.ts]      (class [NinjaOneAPI]: token cache, region
                                 pinning, [makeRequest], [setDeviceMaintenance],
                                 [buildQuery], [pruneUndefined], [getDevices],
                                 [getDevice], [updateOrganization])
      - the tool router         ([ToolHandler.callAPIMethod], case
                                 ['set_device_maintenance']; the error handling
                                 around every tool; [getAllDevices],
                                 [searchDevicesByName], [findWindows11Devices])
      - the streamable HTTP transport ([tokenAuth]; [createHttpServer],
                                 route [/mcp])

    Conventions.
      - A JavaScript string is a [string].  [JS.trim], [JS.toLowerCase] and
        [JS.toUpperCase] are the platform's functions on ASCII strings, and
        are used where the code applies them to ASCII text or where a regular
        expression without the [u] flag does the folding.  Where the code
        applies [trim], [toLowerCase] or [toUpperCase] to text of any kind
        and a statement depends on it, the platform's function is a
        parameter ([String_trim], [String_toLowerCase],
        [String_toUpperCase]) or the text is assumed ASCII ([ascii_only]).
      - Epoch milliseconds, HTTP status codes and [expires_in] are [Z].
      - [string | null] is [option string]; JavaScript truthiness is written
        out ([truthy_string], [truthy_Z]).
      - Asynchronous methods are terms of the free monad [Prog]: one
        constructor per effect ([Date.now()], reading and assigning fields of
        [this], [fetch]).  [run] executes a program against a network oracle
        to completion; [advance] executes it up to the next [await fetch],
        which is where the JavaScript event loop may interleave other calls. *)

From Stdlib Require Import ZArith QArith Qround Qabs String Ascii List DecimalString.
From stdpp Require Import gmap strings list.

Local Open Scope string_scope.
Local Open Scope list_scope.
Local Open Scope Z_scope.

(** ** JavaScript string primitives *)

Module JS.

Definition code (c : ascii) : N := N_of_ascii c.

Definition in_range (lo hi : N) (c : ascii) : bool :=
  ((lo <=? code c) && (code c <=? hi))%N.

Definition is_upper : ascii -> bool := in_range 65 90.
Definition is_lower : ascii -> bool := in_range 97 122.
Definition is_digit : ascii -> bool := in_range 48 57.

(** [\w] of a regular expression without the [u] flag: [[A-Za-z0-9_]]. *)
Definition is_word (c : ascii) : bool :=
  is_upper c || is_lower c || is_digit c || Ascii.eqb c "_".

(** White space and line terminators stripped by [String.prototype.trim]
    (TAB, LF, VT, FF, CR, SP). *)
Definition is_space (c : ascii) : bool :=
  in_range 9 13 c || Ascii.eqb c " ".

Definition lower_char (c : ascii) : ascii :=
  if is_upper c then ascii_of_N (code c + 32) else c.

Definition upper_char (c : ascii) : ascii :=
  if is_lower c then ascii_of_N (code c - 32) else c.

Fixpoint map_chars (f : ascii -> ascii) (s : string) : string :=
  match s with
  | EmptyString => EmptyString
  | String c s' => String (f c) (map_chars f s')
  end.

Definition toLowerCase : string -> string := map_chars lower_char.
Definition toUpperCase : string -> string := map_chars upper_char.

Definition is_empty (s : string) : bool :=
  match s with EmptyString => true | String _ _ => false end.

(** A string is truthy when it is not empty. *)
Definition truthy_string (s : string) : bool := negb (is_empty s).

(** A number is truthy when it is not zero ([NaN] does not occur among the
    integers modelled by [Z]). *)
Definition truthy_Z (z : Z) : bool := negb (z =? 0).

Fixpoint trimStart (s : string) : string :=
  match s with
  | EmptyString => EmptyString
  | String c s' => if is_space c then trimStart s' else s
  end.

Fixpoint trimEnd (s : string) : string :=
  match s with
  | EmptyString => EmptyString
  | String c s' =>
      let t := trimEnd s' in
      if is_space c && is_empty t then EmptyString else String c t
  end.

Definition trim (s : string) : string := trimEnd (trimStart s).

(** [s.split(sep)] for a one-character separator: never the empty list. *)
Fixpoint split (sep : ascii) (s : string) : list string :=
  match s with
  | EmptyString => [EmptyString]
  | String c s' =>
      if Ascii.eqb c sep then EmptyString :: split sep s'
      else match split sep s' with
           | h :: t => String c h :: t
           | [] => [String c EmptyString]
           end
  end.

(** [xs.join(sep)] *)
Definition join (sep : string) (xs : list string) : string :=
  String.concat sep xs.

(** [xs.includes(x)] on an array of strings. *)
Definition includes (xs : list string) (x : string) : bool :=
  existsb (String.eqb x) xs.

Fixpoint take_while (f : ascii -> bool) (s : string) : string :=
  match s with
  | EmptyString => EmptyString
  | String c s' => if f c then String c (take_while f s') else EmptyString
  end.

Fixpoint drop_while (f : ascii -> bool) (s : string) : string :=
  match s with
  | EmptyString => EmptyString
  | String c s' => if f c then drop_while f s' else s
  end.

Fixpoint strip_prefix (p s : string) : option string :=
  match p, s with
  | EmptyString, _ => Some s
  | String a p', String b s' =>
      if Ascii.eqb a b then strip_prefix p' s' else None
  | String _ _, EmptyString => None
  end.

Fixpoint all_chars (f : ascii -> bool) (s : string) : bool :=
  match s with
  | EmptyString => true
  | String c s' => f c && all_chars f s'
  end.

(** Template-literal rendering of an integral number. *)
Definition of_Z (z : Z) : string := NilZero.string_of_int (Z.to_int z).

End JS.

(** ** Values, errors, HTTP messages *)

(** A JavaScript [number].  A finite one is written as a rational; where the
    code computes with numbers, the rational stands for the double nearest
    to it and the result is rounded as IEEE 754 prescribes ([to_double]). *)
Inductive number : Type :=
| NaN
| Infinity (negative : bool)
| Finite (q : Q).

(** A JavaScript value as it comes out of [JSON.parse] or of a missing
    property ([VUndefined]). *)
#[warnings="-register-all"]
Inductive JsVal : Type :=
| VUndefined
| VNull
| VBool (b : bool)
| VNum (n : number)
| VStr (s : string)
| VArr (items : list JsVal)
| VObj (props : list (string * JsVal)).

(** [o.key] on an own-property list; a missing property is [undefined]. *)
Fixpoint prop (key : string) (props : list (string * JsVal)) : JsVal :=
  match props with
  | [] => VUndefined
  | (k, v) :: rest => if String.eqb k key then v else prop key rest
  end.

(** [v.key] for any value [v] that the code dereferences after having
    checked that it is an object. *)
Definition member (key : string) (v : JsVal) : JsVal :=
  match v with
  | VObj props => prop key props
  | _ => VUndefined
  end.

(** [ErrorCode] of the MCP SDK, as far as the router uses it. *)
Inductive ErrorCode : Type := InvalidParams | InternalError | MethodNotFound.

(** What a [throw] carries: a plain [Error] or the SDK's [McpError]. *)
Inductive Exn : Type :=
| Error (message : string)
| McpError (code : ErrorCode) (message : string).

Inductive Result (A : Type) : Type :=
| Returned (a : A)
| Thrown (e : Exn).
Arguments Returned {A} a.
Arguments Thrown {A} e.

Inductive Payload : Type :=
| NoBody
| FormBody (fields : list (string * string))   (* URLSearchParams *)
| JsonBody (v : JsVal).                        (* JSON.stringify(body) *)

Record HttpRequest : Type := mkRequest {
  req_url : string;
  req_method : string;
  req_headers : list (string * string);
  req_body : Payload
}.

Record Response : Type := mkResponse {
  status : Z;
  statusText : string;
  text : string
}.

(** [response.ok] *)
Definition ok (r : Response) : bool := (200 <=? status r) && (status r <=? 299).

(** The promise returned by [fetch]: rejected (network failure, or the abort
    fired by the 30 s timer) or resolved with a response. *)
Inductive FetchResult : Type :=
| Rejected (e : Exn)
| Resolved (r : Response).

(** The declared shape of the token endpoint's JSON body. *)
Record TokenResponse : Type := mkToken {
  access_token : string;
  expires_in : Z
}.

(** ** The object state of [NinjaOneAPI] *)

Record NinjaOneAPI : Type := mkAPI {
  baseUrl : option string;
  clientId : string;
  clientSecret : string;
  accessToken : option string;
  tokenExpiry : option Z;
  isConfigured : bool;
  baseUrlExplicit : bool
}.

Definition set_baseUrl (v : option string) (o : NinjaOneAPI) : NinjaOneAPI :=
  mkAPI v (clientId o) (clientSecret o) (accessToken o) (tokenExpiry o)
        (isConfigured o) (baseUrlExplicit o).

Definition set_baseUrlExplicit (v : bool) (o : NinjaOneAPI) : NinjaOneAPI :=
  mkAPI (baseUrl o) (clientId o) (clientSecret o) (accessToken o)
        (tokenExpiry o) (isConfigured o) v.

Definition set_accessToken (v : option string) (o : NinjaOneAPI) : NinjaOneAPI :=
  mkAPI (baseUrl o) (clientId o) (clientSecret o) v (tokenExpiry o)
        (isConfigured o) (baseUrlExplicit o).

Definition set_tokenExpiry (v : option Z) (o : NinjaOneAPI) : NinjaOneAPI :=
  mkAPI (baseUrl o) (clientId o) (clientSecret o) (accessToken o) v
        (isConfigured o) (baseUrlExplicit o).

(** [process.env], read-only for the life of the process. *)
Record ProcessEnv : Type := mkEnv {
  NINJA_BASE_URL : option string;
  NINJA_REGION : option string;
  NINJA_BASE_URLS : option string;
  NINJA_CLIENT_ID : option string;
  NINJA_CLIENT_SECRET : option string
}.

(** [process.env.X || ''] *)
Definition or_empty (v : option string) : string :=
  match v with Some s => s | None => "" end.

(** ** Programs *)

(** The effects of the asynchronous methods of [NinjaOneAPI].  [Fetch] is the
    only suspension point: the request leaves when [fetch] is called, the
    continuation runs when its promise settles. *)
Inductive Prog (A : Type) : Type :=
| Ret (a : A)
| Throw (e : Exn)
| Now (k : Z -> Prog A)                                  (* Date.now() *)
| This (k : NinjaOneAPI -> Prog A)                       (* read this.* *)
| Assign (f : NinjaOneAPI -> NinjaOneAPI) (k : Prog A)   (* this.x = v *)
| Fetch (req : HttpRequest) (k : FetchResult -> Prog A). (* await fetch(..) *)
Arguments Ret {A} a.
Arguments Throw {A} e.
Arguments Now {A} k.
Arguments This {A} k.
Arguments Assign {A} f k.
Arguments Fetch {A} req k.

Fixpoint bind {A B : Type} (p : Prog A) (f : A -> Prog B) : Prog B :=
  match p with
  | Ret a => f a
  | Throw e => Throw e
  | Now k => Now (fun t => bind (k t) f)
  | This k => This (fun o => bind (k o) f)
  | Assign g k => Assign g (bind k f)
  | Fetch req k => Fetch req (fun r => bind (k r) f)
  end.

(** [try { p } catch (e) { h e }] *)
Fixpoint try_catch {A : Type} (p : Prog A) (h : Exn -> Prog A) : Prog A :=
  match p with
  | Ret a => Ret a
  | Throw e => h e
  | Now k => Now (fun t => try_catch (k t) h)
  | This k => This (fun o => try_catch (k o) h)
  | Assign g k => Assign g (try_catch k h)
  | Fetch req k => Fetch req (fun r => try_catch (k r) h)
  end.

Declare Scope prog_scope.
Delimit Scope prog_scope with prog.
Bind Scope prog_scope with Prog.
Notation "'let*' x ':=' p 'in' q" := (bind p (fun x => q))
  (at level 10, x name, p at level 100, q at level 200) : prog_scope.
Notation "p ';;' q" := (bind p (fun _ => q))
  (at level 100, q at level 200, right associativity) : prog_scope.

Definition date_now : Prog Z := Now Ret.
Definition this : Prog NinjaOneAPI := This Ret.
Definition assign (f : NinjaOneAPI -> NinjaOneAPI) : Prog unit := Assign f (Ret tt).
Definition fetch (req : HttpRequest) : Prog FetchResult := Fetch req Ret.

(** ** Worlds and the two ways of running a program *)

Record World : Type := mkWorld {
  self : NinjaOneAPI;          (* the one shared NinjaOneAPI instance *)
  clock : Z;                   (* what Date.now() returns *)
  sent : list HttpRequest      (* every request handed to fetch, oldest first *)
}.

(** The network: the [n]-th request ever sent is answered by [net n req]
    with the settled promise and the milliseconds that went by. *)
Definition Network : Type := nat -> HttpRequest -> FetchResult * Z.

(** Run to completion, one call at a time. *)
Fixpoint run {A : Type} (net : Network) (p : Prog A) (w : World) : Result A * World :=
  match p with
  | Ret a => (Returned a, w)
  | Throw e => (Thrown e, w)
  | Now k => run net (k (clock w)) w
  | This k => run net (k (self w)) w
  | Assign f k => run net k (mkWorld (f (self w)) (clock w) (sent w))
  | Fetch req k =>
      let '(r, dt) := net (length (sent w)) req in
      run net (k r) (mkWorld (self w) (clock w + dt) (sent w ++ [req]))
  end.

(** A call as the event loop sees it: settled, or parked on a [fetch]. *)
Inductive Task (A : Type) : Type :=
| Settled (r : Result A)
| Awaiting (req : HttpRequest) (k : FetchResult -> Prog A).
Arguments Settled {A} r.
Arguments Awaiting {A} req k.

(** Run the synchronous stretch up to the next [await fetch]. *)
Fixpoint advance {A : Type} (p : Prog A) (w : World) : Task A * World :=
  match p with
  | Ret a => (Settled (Returned a), w)
  | Throw e => (Settled (Thrown e), w)
  | Now k => advance (k (clock w)) w
  | This k => advance (k (self w)) w
  | Assign f k => advance k (mkWorld (f (self w)) (clock w) (sent w))
  | Fetch req k => (Awaiting req k, mkWorld (self w) (clock w) (sent w ++ [req]))
  end.

(** The event loop: the calls in flight and the shared world. *)
Definition Loop (A : Type) : Type := list (Task A) * World.

(** A caller invokes [p]: it runs at once up to its first suspension. *)
Definition spawn {A : Type} (p : Prog A) (l : Loop A) : Loop A :=
  let '(t, w') := advance p (snd l) in (fst l ++ [t], w').

(** [n] callers invoke [p] back to back, before any promise settles. *)
Fixpoint spawn_n {A : Type} (n : nat) (p : Prog A) (l : Loop A) : Loop A :=
  match n with
  | O => l
  | S n' => spawn_n n' p (spawn p l)
  end.

(** The promise awaited by task [i] settles with [r] at time [t]. *)
Definition settle {A : Type} (i : nat) (r : FetchResult) (t : Z) (l : Loop A) : Loop A :=
  match fst l !! i with
  | Some (Awaiting _ k) =>
      let w := snd l in
      let '(task, w') := advance (k r) (mkWorld (self w) t (sent w)) in
      (<[i := task]> (fst l), w')
  | _ => l
  end.

(** ** [class NinjaOneAPI] *)

Definition REGION_MAP : list (string * string) :=
  [ ("us", "https://app.ninjarmm.com");
    ("us2", "https://us2.ninjarmm.com");
    ("eu", "https://eu.ninjarmm.com");
    ("ca", "https://ca.ninjarmm.com");
    ("oc", "https://oc.ninjarmm.com") ].

(** [Object.values(REGION_MAP)] *)
Definition REGION_MAP_values : list string := map snd REGION_MAP.

Fixpoint own_property (key : string) (m : list (string * string)) : option string :=
  match m with
  | [] => None
  | (k, v) :: rest => if String.eqb k key then Some v else own_property key rest
  end.

(** [REGION_MAP[key]] as [setRegion] consumes it.  [REGION_MAP] is a plain
    object literal, so besides its own keys the lookup finds what
    [Object.prototype] offers; of those names only ["constructor"] and
    ["__proto__"] survive [toLowerCase()].  Both values are truthy and the
    class only ever uses them through string conversion (a regular
    expression test, a template literal), so each is represented by the
    string it converts to.  [None] is [undefined]. *)
Definition REGION_MAP_get (key : string) : option string :=
  match own_property key REGION_MAP with
  | Some url => Some url
  | None =>
      if String.eqb key "constructor" then Some "function Object() { [native code] }"
      else if String.eqb key "__proto__" then Some "[object Object]"
      else None
  end.

(** [/^https:\/\/[\w-]+\.ninjarmm\.com$/.test(s)].  No flag is set, so [$]
    is the end of the input.  The class [[\w-]] excludes ["."], hence the
    only possible match of [[\w-]+] is the longest run of class characters
    after the scheme. *)
Definition domain_char (c : ascii) : bool := JS.is_word c || Ascii.eqb c "-".

Definition ALLOWED_DOMAIN_PATTERN_test (s : string) : bool :=
  match JS.strip_prefix "https://" s with
  | None => false
  | Some rest =>
      negb (JS.is_empty (JS.take_while domain_char rest))
      && String.eqb (JS.drop_while domain_char rest) ".ninjarmm.com"
  end.

Definition DEFAULT_CANDIDATES : list string :=
  [ "https://app.ninjarmm.com";
    "https://us2.ninjarmm.com";
    "https://eu.ninjarmm.com";
    "https://ca.ninjarmm.com";
    "https://oc.ninjarmm.com" ].

(** [/^https?:\/\//i.test(url)] *)
Definition has_http_scheme (url : string) : bool :=
  let l := JS.toLowerCase url in
  String.prefix "http://" l || String.prefix "https://" l.

Definition normalizeBaseUrl (url : string) : string :=
  if negb (has_http_scheme url) then "https://" +:+ url else url.

(** The constructor, as a function of the environment it reads. *)
Definition new_NinjaOneAPI (env : ProcessEnv) : NinjaOneAPI :=
  let envBase := or_empty (NINJA_BASE_URL env) in
  let envRegion := JS.toLowerCase (or_empty (NINJA_REGION env)) in
  let id := or_empty (NINJA_CLIENT_ID env) in
  let secret := or_empty (NINJA_CLIENT_SECRET env) in
  let configured := JS.truthy_string id && JS.truthy_string secret in
  if JS.truthy_string envBase then
    mkAPI (Some (normalizeBaseUrl envBase)) id secret None None configured true
  else
    match (if JS.truthy_string envRegion then REGION_MAP_get envRegion else None) with
    | Some url => mkAPI (Some url) id secret None None configured true
    | None => mkAPI None id secret None None configured false
    end.

Definition getCandidateBaseUrls (env : ProcessEnv) : list string :=
  let fromEnv :=
    map normalizeBaseUrl
      (List.filter JS.truthy_string
         (map JS.trim (JS.split "," (or_empty (NINJA_BASE_URLS env))))) in
  if (0 <? length fromEnv)%nat then fromEnv else DEFAULT_CANDIDATES.

Definition token_request (o : NinjaOneAPI) (base : string) : HttpRequest :=
  mkRequest (base +:+ "/ws/oauth/token") "POST"
    [("Content-Type", "application/x-www-form-urlencoded")]
    (FormBody [ ("grant_type", "client_credentials");
                ("client_id", clientId o);
                ("client_secret", clientSecret o);
                ("scope", "monitoring management control") ]).

Definition tried_message (tried : list string) : string :=
  "Failed to acquire OAuth token: no candidate base URL succeeded. Tried: "
  +:+ JS.join ", " tried.

Definition not_configured_message : string :=
  "NinjaONE API not configured - NINJA_CLIENT_ID and NINJA_CLIENT_SECRET required".

(** The refresh skew of the cache test, in milliseconds. *)
Definition REFRESH_SKEW_MS : Z := 300000.

Section Methods.

(** The environment of the process and the platform's JSON decoding:
    [response_json] is [response.json()] at the declared type of the token
    endpoint ([None]: the body is not JSON), [JSON_parse] is [JSON.parse]
    ([None]: it throws a [SyntaxError]), [number_toString] renders a number
    inside a template literal.  The token endpoint is taken to answer as
    declared, see [typed_token_endpoint]; the text of the [SyntaxError] is
    the platform's and no statement depends on it. *)
Variable env : ProcessEnv.
Variable response_json : string -> option TokenResponse.
Variable JSON_parse : string -> option JsVal.
Variable number_toString : number -> string.

Definition requestToken (base : string) : Prog TokenResponse :=
  (let* o := this in
   let* settled := fetch (token_request o base) in
   match settled with
   | Rejected e => Throw e
   | Resolved response =>
       if negb (ok response) then
         Throw (Error ("OAuth token request failed: "
                       +:+ JS.of_Z (status response) +:+ " " +:+ statusText response))
       else
         match response_json (text response) with
         | Some token => Ret token
         | None => Throw (Error "Unexpected token in JSON")
         end
   end)%prog.

(** [this.accessToken = token.access_token;
     this.tokenExpiry = Date.now() + (token.expires_in * 1000);] *)
Definition store_token (token : TokenResponse) : Prog unit :=
  (assign (set_accessToken (Some (access_token token))) ;;
   let* now := date_now in
   assign (set_tokenExpiry (Some (now + expires_in token * 1000))))%prog.

(** [return this.accessToken!;] *)
Definition return_accessToken : Prog string :=
  (let* o := this in Ret (or_empty (accessToken o)))%prog.

(** The [for (const candidate of candidates)] loop and the [throw] behind
    it; [tried] is the array of the same name. *)
Fixpoint sweep (tried candidates : list string) : Prog string :=
  match candidates with
  | [] => Throw (Error (tried_message tried))
  | candidate :: rest =>
      let tried := tried ++ [candidate] in
      try_catch
        (let* token := requestToken candidate in
         assign (set_baseUrl (Some candidate)) ;;
         assign (set_baseUrlExplicit true) ;;
         store_token token ;;
         return_accessToken)%prog
        (fun _ => sweep tried rest)
  end.

(** [this.accessToken && this.tokenExpiry
     && Date.now() < (this.tokenExpiry - 300000)], yielding the token. *)
Definition cached_token : Prog (option string) :=
  (let* o := this in
   match accessToken o, tokenExpiry o with
   | Some tok, Some expiry =>
       if JS.truthy_string tok && JS.truthy_Z expiry then
         let* now := date_now in
         Ret (if now <? expiry - REFRESH_SKEW_MS then Some tok else None)
       else Ret None
   | _, _ => Ret None
   end)%prog.

(** [!this.baseUrl || !this.baseUrlExplicit] *)
Definition unresolved (o : NinjaOneAPI) : bool :=
  negb (JS.truthy_string (or_empty (baseUrl o))) || negb (baseUrlExplicit o).

Definition getAccessToken : Prog string :=
  (let* o := this in
   if negb (isConfigured o) then Throw (Error not_configured_message)
   else
     let* hit := cached_token in
     match hit with
     | Some tok => Ret tok
     | None =>
         let* o := this in
         if unresolved o then sweep [] (getCandidateBaseUrls env)
         else
           let* token := requestToken (or_empty (baseUrl o)) in
           store_token token ;;
           return_accessToken
     end)%prog.

(** [{ success: true }] *)
Definition success_marker : JsVal := VObj [("success", VBool true)].

(** Truthiness of a value. *)
Definition truthy (v : JsVal) : bool :=
  match v with
  | VUndefined | VNull => false
  | VBool b => b
  | VNum NaN => false
  | VNum (Infinity _) => true
  | VNum (Finite q) => negb (Qeq_bool q 0)
  | VStr s => JS.truthy_string s
  | VArr _ | VObj _ => true
  end.

Definition api_request (base endpoint method token : string) (body : JsVal) : HttpRequest :=
  let headers := [("Authorization", "Bearer " +:+ token); ("Accept", "*/*")] in
  if truthy body && JS.includes ["POST"; "PUT"; "PATCH"] method then
    mkRequest (base +:+ endpoint) method
      (headers ++ [("Content-Type", "application/json")]) (JsonBody body)
  else
    mkRequest (base +:+ endpoint) method headers NoBody.

Definition request_failed_message (response : Response) : string :=
  "API request failed: " +:+ JS.of_Z (status response) +:+ " "
  +:+ statusText response +:+ " - " +:+ text response.

(** [body] is [VUndefined] when the optional parameter is left out. *)
Definition makeRequest (endpoint method : string) (body : JsVal) : Prog JsVal :=
  (let* token := getAccessToken in
   let* o := this in
   let base := if JS.truthy_string (or_empty (baseUrl o))
               then or_empty (baseUrl o)
               else nth 0 DEFAULT_CANDIDATES "" in
   let* settled := fetch (api_request base endpoint method token body) in
   match settled with
   | Rejected e => Throw e
   | Resolved response =>
       if negb (ok response) then
         Throw (Error (request_failed_message response))
       else if String.eqb method "DELETE" && (status response =? 204) then
         Ret success_marker
       else
         let text := text response in
         if negb (JS.truthy_string text)
            || (String.length (JS.trim text) =? 0)%nat then
           Ret success_marker
         else
           match JSON_parse text with
           | Some v => Ret v
           | None => Ret success_marker
           end
   end)%prog.

Definition invalid_base_url_message (normalized : string) : string :=
  "Invalid base URL: " +:+ normalized
  +:+ ". URL must be a known NinjaRMM region or match https://<subdomain>.ninjarmm.com".

Definition setBaseUrl (url : string) : Prog unit :=
  (let normalized := normalizeBaseUrl url in
   let knownUrls := REGION_MAP_values in
   if negb (JS.includes knownUrls normalized)
      && negb (ALLOWED_DOMAIN_PATTERN_test normalized) then
     Throw (Error (invalid_base_url_message normalized))
   else
     assign (set_baseUrl (Some normalized)) ;;
     assign (set_baseUrlExplicit true) ;;
     assign (set_accessToken None) ;;
     assign (set_tokenExpiry None))%prog.

Definition setRegion (region : string) : Prog unit :=
  let key := JS.toLowerCase region in
  match REGION_MAP_get key with
  | None => Throw (Error ("Unknown region: " +:+ region))
  | Some mapped => setBaseUrl mapped
  end.

End Methods.

(** ** Maintenance windows: [setDeviceMaintenance] and its router case *)

Inductive MaintenanceUnit : Type := MINUTES | HOURS | DAYS | WEEKS.

Inductive MaintenanceWindowSelection : Type :=
| Permanent
| Window (value : number) (unit : MaintenanceUnit) (seconds : number).

Definition unit_name (u : MaintenanceUnit) : string :=
  match u with
  | MINUTES => "MINUTES" | HOURS => "HOURS" | DAYS => "DAYS" | WEEKS => "WEEKS"
  end.

Definition MAINTENANCE_UNIT_SECONDS (u : MaintenanceUnit) : Z :=
  match u with
  | MINUTES => 60
  | HOURS => 60 * 60
  | DAYS => 24 * 60 * 60
  | WEEKS => 7 * 24 * 60 * 60
  end.

(** The own keys of [MAINTENANCE_UNIT_SECONDS]: [Some u] exactly when
    [hasOwnProperty.call(MAINTENANCE_UNIT_SECONDS, s)]. *)
Definition own_unit (s : string) : option MaintenanceUnit :=
  if String.eqb s "MINUTES" then Some MINUTES
  else if String.eqb s "HOURS" then Some HOURS
  else if String.eqb s "DAYS" then Some DAYS
  else if String.eqb s "WEEKS" then Some WEEKS
  else None.

(** [Math.round] on a finite number: the nearest integer, ties upwards. *)
Definition Math_round (q : Q) : Z := Qfloor (q + (1 # 2)).

(** *** Doubles *)

Definition pow2 (e : Z) : Q :=
  if 0 <=? e then inject_Z (2 ^ e) else 1 # Z.to_pos (2 ^ (- e)).

(** The nearest integer, ties to the even one. *)
Definition round_half_even (q : Q) : Z :=
  let f := Qfloor q in
  match (q - inject_Z f ?= 1 # 2)%Q with
  | Lt => f
  | Gt => f + 1
  | Eq => if Z.even f then f else f + 1
  end.

(** The exponent [e] with [2^e <= a < 2^(e+1)], for a positive [a]. *)
Definition binade (a : Q) : Z :=
  let e := Z.log2 (Qnum a) - Z.log2 (Zpos (Qden a)) in
  if Qle_bool (pow2 e) a then e else e - 1.

(** The binary64 value nearest to a rational, ties to even: 53 bits of
    significand, exponents from -1022 (gradual underflow below) to 1023,
    infinity from [2^1024 - 2^970] on.  The sign of a zero is not kept. *)
Definition to_double (q : Q) : number :=
  if Qeq_bool q 0 then Finite 0
  else
    let a := Qabs q in
    let ulp := pow2 (Z.max (binade a) (-1022) - 52) in
    let r := Qred (inject_Z (round_half_even (a / ulp)) * ulp) in
    if Qle_bool (pow2 1024) r then Infinity (negb (Qle_bool 0 q))
    else Finite (if Qle_bool 0 q then r else - r).

(** The double that a number of a JSON text is. *)
Definition as_double (n : number) : number :=
  match n with
  | Finite q => to_double q
  | _ => n
  end.

(** [x * k] for a double [x] and a positive whole [k]. *)
Definition double_times (x : Q) (k : Z) : number := to_double (x * inject_Z k).

(** [Math.round(x)] for a number that is not negative. *)
Definition Math_round_number (x : number) : number :=
  match x with
  | Finite q => Finite (inject_Z (Math_round q))
  | _ => x
  end.

(** [x < k] for a whole [k]. *)
Definition less_than (x : number) (k : Z) : bool :=
  match x with
  | NaN => false
  | Infinity negative => negative
  | Finite q => negb (Qle_bool (inject_Z k) q)
  end.

(** [k + x] for a whole [k]. *)
Definition double_plus (k : Z) (x : number) : number :=
  match x with
  | Finite q => to_double (inject_Z k + q)
  | _ => x
  end.

Definition typeof (v : JsVal) : string :=
  match v with
  | VUndefined => "undefined"
  | VNull | VArr _ | VObj _ => "object"
  | VBool _ => "boolean"
  | VNum _ => "number"
  | VStr _ => "string"
  end.

(** [v === 'lit'] *)
Definition is_string (lit : string) (v : JsVal) : bool :=
  match v with VStr s => String.eqb s lit | _ => false end.

Definition num_Z (z : Z) : JsVal := VNum (Finite (inject_Z z)).

Section Maintenance.

Variable env : ProcessEnv.
Variable response_json : string -> option TokenResponse.
Variable JSON_parse : string -> option JsVal.
Variable number_toString : number -> string.

Definition maintenance_path (id : number) : string :=
  "/v2/device/" +:+ number_toString id +:+ "/maintenance".

Definition setDeviceMaintenance (id : number) (mode : string)
    (duration : option MaintenanceWindowSelection) : Prog JsVal :=
  if String.eqb mode "OFF" then
    makeRequest env response_json JSON_parse (maintenance_path id) "DELETE" VUndefined
  else
    match duration with
    | None =>
        Throw (Error "Maintenance duration selection is required when enabling maintenance mode")
    | Some d =>
        (let* now := date_now in
         let start := (now + 5000) / 1000 in
         let reasonMessage :=
           match d with
           | Permanent => "Maintenance mode enabled via API (permanent)"
           | Window value unit _ =>
               "Maintenance mode enabled via API for " +:+ number_toString value
               +:+ " " +:+ JS.toLowerCase (unit_name unit)
           end in
         let body :=
           [ ("disabledFeatures",
               VArr [VStr "ALERTS"; VStr "PATCHING"; VStr "AVSCANS"; VStr "TASKS"]);
             ("start", num_Z start);
             ("reasonMessage", VStr reasonMessage) ]
           ++ match d with
              | Permanent => []
              | Window _ _ seconds => [("end", VNum (double_plus start seconds))]
              end in
         makeRequest env response_json JSON_parse
           (maintenance_path id) "PUT" (VObj body))%prog
    end.

(** [String.prototype.toUpperCase] of the platform, with all of Unicode's
    case mappings. *)
Variable String_toUpperCase : string -> string.

(** The [if (args.mode === 'ON') { ... }] block that computes
    [durationSelection]. *)
Definition select_duration (duration : JsVal) : Prog (option MaintenanceWindowSelection) :=
  match duration with
  | VNull | VUndefined =>
      Throw (McpError InvalidParams "Duration details are required when enabling maintenance mode")
  | _ =>
      if negb (String.eqb (typeof duration) "object") then
        Throw (McpError InvalidParams "Duration details are required when enabling maintenance mode")
      else
        let permanent :=
          match member "permanent" duration with VBool true => true | _ => false end in
        if permanent then Ret (Some Permanent)
        else
          let value := member "value" duration in
          let unitRaw := member "unit" duration in
          match value with
          | VNum n =>
              match as_double n with
              | Finite x =>
                  if negb (Qle_bool x 0) then
                    let unit :=
                      match unitRaw with VStr s => String_toUpperCase s | _ => "" end in
                    match own_unit unit with
                    | None =>
                        Throw (McpError InvalidParams
                                 "Duration unit must be one of MINUTES, HOURS, DAYS, or WEEKS")
                    | Some u =>
                        let seconds :=
                          Math_round_number (double_times x (MAINTENANCE_UNIT_SECONDS u)) in
                        if less_than seconds (15 * 60) then
                          Throw (McpError InvalidParams
                                   "Maintenance windows must be at least 15 minutes long")
                        else Ret (Some (Window (Finite x) u seconds))
                    end
                  else Throw (McpError InvalidParams "Duration value must be a positive number")
              | _ => Throw (McpError InvalidParams "Duration value must be a positive number")
              end
          | _ => Throw (McpError InvalidParams "Duration value must be a positive number")
          end
  end.

(** [case 'set_device_maintenance'] of [ToolHandler.callAPIMethod]. *)
Definition set_device_maintenance (args : JsVal) : Prog JsVal :=
  match member "id" args with
  | VNum id =>
      let mode := member "mode" args in
      match mode with
      | VStr m =>
          if negb (String.eqb m "ON") && negb (String.eqb m "OFF") then
            Throw (McpError InvalidParams "Maintenance mode must be ON or OFF")
          else
            (let* durationSelection :=
               if String.eqb m "ON" then select_duration (member "duration" args)
               else Ret None in
             setDeviceMaintenance id m durationSelection)%prog
      | _ => Throw (McpError InvalidParams "Maintenance mode must be ON or OFF")
      end
  | _ => Throw (McpError InvalidParams "Device ID must be a number")
  end.

(** The numeric value of an SDK error code. *)
Definition code_number (c : ErrorCode) : Z :=
  match c with
  | InvalidParams => -32602
  | InternalError => -32603
  | MethodNotFound => -32601
  end.

(** [error.message]: the SDK's [McpError] prefixes its code. *)
Definition message_of (e : Exn) : string :=
  match e with
  | Error m => m
  | McpError c m => "MCP error " +:+ JS.of_Z (code_number c) +:+ ": " +:+ m
  end.

(** [routeToolCall] followed by the [CallToolRequestSchema] handler, for
    the tool name ['set_device_maintenance'] (the [default:] branch of the
    first [switch]); the value returned is the data before it is wrapped in
    a text content item. *)
Definition call_tool_set_device_maintenance (args : JsVal) : Prog JsVal :=
  try_catch
    (try_catch (set_device_maintenance args)
       (fun error => Throw (McpError InternalError ("API call failed: " +:+ message_of error))))
    (fun error =>
       match error with
       | McpError _ _ => Throw error
       | Error m => Throw (McpError InternalError ("Tool execution failed: " +:+ m))
       end).

End Maintenance.

(** ** The streamable HTTP transport: route [/mcp] of [createHttpServer] *)

Module Http.

(** The route runs behind the [tokenAuth] middleware, which answers 401 by
    itself when a token is configured and the query does not carry it; what
    follows is the route proper. *)

(** An inbound request after the body-parsing middleware: [req.method],
    [req.headers['mcp-session-id']] and [req.body]. *)
Record Request : Type := mkReq {
  method : string;
  session_header : option string;
  body : JsVal
}.

(** The state captured by the route's closure.  A transport object is
    named by its rank of construction; [serverFactory()] is called once per
    transport object, so [constructed] counts the server instances too. *)
Record Gateway : Type := mkGateway {
  transports : gmap string nat;   (* Map<string, StreamableHTTPServerTransport> *)
  constructed : nat;              (* transport objects built so far *)
  minted : nat                    (* calls of randomUUID() so far *)
}.

Definition initial : Gateway := mkGateway ∅ 0 0.

(** What the client gets: a JSON error written by the route itself, or
    whatever the named transport's [handleRequest] writes. *)
Inductive Reply : Type :=
| Respond (status : Z) (error : string) (message : option string)
| Handled (transport : nat).

Definition invalid_session : Reply :=
  Respond 400 "Bad Request" (Some "Invalid or missing session ID").

Definition empty_body : Reply :=
  Respond 400 "Bad Request" (Some "Request body is empty or not valid JSON").

Definition method_not_allowed : Reply :=
  Respond 405 "Method Not Allowed" None.

(** [typeof body === 'object' && Object.keys(body).length === 0
     && !Array.isArray(body)], for a truthy [body]. *)
Definition keyless_object (v : JsVal) : bool :=
  match v with
  | VObj [] => true
  | _ => false
  end.

Section Route.

(** [JSON.parse]; the SDK's [isInitializeRequest]; the [n]-th result of
    [randomUUID()]; and whether a fresh transport, handed this
    initialize request, gets as far as calling its [sessionIdGenerator]
    (it answers 406 or 415 without doing so when the Accept or
    Content-Type header is not what the protocol requires). *)
Variable JSON_parse : string -> option JsVal.
Variable isInitializeRequest : JsVal -> bool.
Variable randomUUID : nat -> string.
Variable transport_initializes : Request -> bool.

(** [if (typeof body === 'string') { try { body = JSON.parse(body) } catch {} }] *)
Definition parsed_body (b : JsVal) : JsVal :=
  match b with
  | VStr s => match JSON_parse s with Some v => v | None => b end
  | _ => b
  end.

(** [sessionId && transports.has(sessionId)], yielding the transport. *)
Definition known_session (sessionId : option string) (g : Gateway) : option nat :=
  match sessionId with
  | Some sid => if JS.truthy_string sid then transports g !! sid else None
  | None => None
  end.

(** The initialize branch: a new transport and a new server are built,
    the transport handles the request (minting its session id if it
    accepts it), and is then registered under that id, if it has one. *)
Definition initialize (req : Request) (g : Gateway) : Reply * Gateway :=
  let transport := constructed g in
  if transport_initializes req then
    let sid := randomUUID (minted g) in
    let registry :=
      if JS.truthy_string sid then <[sid := transport]> (transports g)
      else transports g in
    (Handled transport, mkGateway registry (S transport) (S (minted g)))
  else
    (Handled transport, mkGateway (transports g) (S transport) (minted g)).

(** [app.all('/mcp', async (req, res) => { ... })] *)
Definition mcp (req : Request) (g : Gateway) : Reply * Gateway :=
  let sessionId := session_header req in
  if String.eqb (method req) "POST" then
    let body := parsed_body (body req) in
    if negb (truthy body) || keyless_object body then (empty_body, g)
    else if isInitializeRequest body then initialize req g
    else
      match known_session sessionId g with
      | None => (invalid_session, g)
      | Some transport => (Handled transport, g)
      end
  else if String.eqb (method req) "GET" then
    match known_session sessionId g with
    | None => (invalid_session, g)
    | Some transport => (Handled transport, g)
    end
  else if String.eqb (method req) "DELETE" then
    match known_session sessionId g with
    | None => (invalid_session, g)
    | Some transport =>
        (Handled transport,
         mkGateway (delete (or_empty sessionId) (transports g))
                   (constructed g) (minted g))
    end
  else (method_not_allowed, g).

(** [transport.onclose]: the SDK reports that the transport registered
    under [sid] has closed. *)
Definition onclose (sid : string) (g : Gateway) : Gateway :=
  if JS.truthy_string sid then
    mkGateway (delete sid (transports g)) (constructed g) (minted g)
  else g.

(** What happens to the gateway, one event at a time: a handler is followed
    to its end before the next event is taken. *)
Inductive Event : Type :=
| Arrives (req : Request)
| Closes (sid : string).

Definition step (g : Gateway) (ev : Event) : Gateway :=
  match ev with
  | Arrives req => snd (mcp req g)
  | Closes sid => onclose sid g
  end.

Definition serve (evs : list Event) (g : Gateway) : Gateway :=
  fold_left step evs g.

(** A request that the route resolves through its session header: a
    GET, a DELETE, or a POST whose body passes the emptiness check and is
    not an initialize request. *)
Definition session_bound (req : Request) : bool :=
  if String.eqb (method req) "POST" then
    let body := parsed_body (body req) in
    negb (negb (truthy body) || keyless_object body)
    && negb (isInitializeRequest body)
  else String.eqb (method req) "GET" || String.eqb (method req) "DELETE".

End Route.

End Http.

(** ** Vocabulary of the statements *)

(** The token the cache test lets through at time [now], if any. *)
Definition fresh_token (o : NinjaOneAPI) (now : Z) : option string :=
  match accessToken o, tokenExpiry o with
  | Some tok, Some expiry =>
      if JS.truthy_string tok && JS.truthy_Z expiry && (now <? expiry - REFRESH_SKEW_MS)
      then Some tok else None
  | _, _ => None
  end.

(** What [requestToken] makes of a settled [fetch]: the decoded token of an
    ok response, nothing otherwise. *)
Definition token_of (response_json : string -> option TokenResponse)
    (settled : FetchResult) : option TokenResponse :=
  match settled with
  | Rejected _ => None
  | Resolved response => if ok response then response_json (text response) else None
  end.

(** The answer to the [i]-th token request of a sweep over [candidates] that
    starts in world [w]. *)
Definition attempt (response_json : string -> option TokenResponse) (net : Network)
    (w : World) (candidates : list string) (i : nat) : option TokenResponse :=
  token_of response_json
    (fst (net (length (sent w) + i)%nat
              (token_request (self w) (nth i candidates "")))).

(** A state in which a token is only ever cached by a configured object with
    a pinned endpoint; every state the class can reach is of this kind. *)
Definition consistent (o : NinjaOneAPI) : Prop :=
  accessToken o <> None -> isConfigured o = true /\ unresolved o = false.

(** Time goes by. *)
Definition tick (dt : Z) (w : World) : World :=
  mkWorld (self w) (clock w + dt) (sent w).


(** The allow-list in the words of the specification: a known region base
    URL, or [https://<subdomain>.ninjarmm.com] with a non-empty subdomain
    made of letters, digits, underscores and hyphens. *)
Definition spec_allowed (u : string) : Prop :=
  In u REGION_MAP_values
  \/ exists sub : string,
       sub <> ""
       /\ JS.all_chars domain_char sub = true
       /\ u = "https://" +:+ sub +:+ ".ninjarmm.com".

(** The first endpoint a call asks for a token. *)
Definition first_endpoint (env : ProcessEnv) (o : NinjaOneAPI) : string :=
  if unresolved o then hd "" (getCandidateBaseUrls env) else or_empty (baseUrl o).

(** The window a non-permanent duration object must describe to be accepted:
    its value is a number, the finite positive double [x]; its unit is a
    string that the platform's [toUpperCase] turns into one of the four
    names; and the product of [x] and the seconds of the unit, rounded to
    the nearest whole number, is not less than 900. *)
Definition valid_window (String_toUpperCase : string -> string)
    (duration : JsVal) (x : Q) (u : MaintenanceUnit) : Prop :=
  (exists n, member "value" duration = VNum n /\ as_double n = Finite x)
  /\ (0 < x)%Q
  /\ (exists s, member "unit" duration = VStr s /\ String_toUpperCase s = unit_name u)
  /\ less_than (Math_round_number (double_times x (MAINTENANCE_UNIT_SECONDS u))) 900 = false.

(** [this.baseUrl || NinjaOneAPI.DEFAULT_CANDIDATES[0]] *)
Definition request_base (o : NinjaOneAPI) : string :=
  if JS.truthy_string (or_empty (baseUrl o)) then or_empty (baseUrl o)
  else nth 0 DEFAULT_CANDIDATES "".

(** A string of [n] letters. *)
Fixpoint filler (n : nat) : string :=
  match n with
  | O => ""
  | S n' => String "x" (filler n')
  end.

(** The registry only holds what the route put there: every registered id is
    a non-empty id minted earlier, and names a transport built earlier. *)
Definition registry_sound (randomUUID : nat -> string) (g : Http.Gateway) : Prop :=
  forall sid t,
    Http.transports g !! sid = Some t ->
    (t < Http.constructed g)%nat
    /\ JS.truthy_string sid = true
    /\ exists i, (i < Http.minted g)%nat /\ sid = randomUUID i.

(** ** Sample inputs *)

Definition sample_env : ProcessEnv := mkEnv None None None (Some "id") (Some "s3cret").

Definition sample_api : NinjaOneAPI := new_NinjaOneAPI sample_env.

Definition sample_world : World := mkWorld sample_api 1700000000000 [].

Definition sample_token : TokenResponse := mkToken "tok-1" 3600.

(** Any ok body decodes to [sample_token]. *)
Definition sample_json (_ : string) : option TokenResponse := Some sample_token.

(** A network on which every request is refused. *)
Definition net_down : Network := fun _ _ => (Rejected (Error "fetch failed"), 10).

(** A network that answers 200 with an empty body to everything. *)
Definition net_up : Network := fun _ _ => (Resolved (mkResponse 200 "OK" ""), 10).

(** A network on which the first two requests fail and the others succeed. *)
Definition net_third : Network :=
  fun n _ => if (n <? 2)%nat then (Rejected (Error "fetch failed"), 10)
             else (Resolved (mkResponse 200 "OK" "{}"), 10).

(** A network that answers every token request and fails everything else
    with status 500 and the given body. *)
Definition net_500 (body : string) : Network :=
  fun n _ => if (n <? 1)%nat then (Resolved (mkResponse 200 "OK" "{}"), 10)
             else (Resolved (mkResponse 500 "Internal Server Error" body), 10).

Definition no_json (_ : string) : option JsVal := None.

Definition no_number (_ : number) : string := "7".

(** Session ids made of [n] letters: pairwise distinct. *)
Fixpoint unary_uuid (n : nat) : string :=
  match n with
  | O => "u"
  | S n' => String "u" (unary_uuid n')
  end.

(** An initialize request is recognised by its [method] member. *)
Definition sample_isInitialize (v : JsVal) : bool :=
  is_string "initialize" (member "method" v).

Definition initialize_body : JsVal :=
  VObj [("jsonrpc", VStr "2.0"); ("id", num_Z 1); ("method", VStr "initialize")].

Definition ping_body : JsVal :=
  VObj [("jsonrpc", VStr "2.0"); ("id", num_Z 2); ("method", VStr "ping")].

(** An object with a pinned endpoint and a token that expires one hour after
    [sample_world]'s clock. *)
Definition cached_api : NinjaOneAPI :=
  mkAPI (Some "https://eu.ninjarmm.com") "id" "s3cret"
        (Some "tok-0") (Some 1700003600000) true true.

Definition cached_world : World := mkWorld cached_api 1700000000000 [].

(** An object pinned to the first region, with no token yet. *)
Definition pinned_api : NinjaOneAPI :=
  mkAPI (Some "https://app.ninjarmm.com") "id" "s3cret" None None true true.

Definition pinned_world : World := mkWorld pinned_api 1700000000000 [].

(** A transport that accepts every initialize request, and one that accepts
    none. *)
Definition accepts_all (_ : Http.Request) : bool := true.
Definition accepts_none (_ : Http.Request) : bool := false.

Definition initialize_request (header : option string) : Http.Request :=
  Http.mkReq "POST" header initialize_body.

Definition delete_request (sid : string) : Http.Request :=
  Http.mkReq "DELETE" (Some sid) VUndefined.

(** ** The rest of the class, and what its statements need *)

(** [listRegions()]: the entries of [REGION_MAP], in order. *)
Definition listRegions : list (string * string) :=
  map (fun entry => (fst entry, snd entry)) REGION_MAP.

(** The endpoints a call of [getAccessToken] may ask for a token: the
    candidates while nothing is pinned, the pinned endpoint afterwards. *)
Definition token_targets (env : ProcessEnv) (o : NinjaOneAPI) : list string :=
  if unresolved o then getCandidateBaseUrls env else [or_empty (baseUrl o)].

(** What a user of the class can do to it, and time going by. *)
Inductive Operation : Type :=
| CallApi (endpoint method : string) (body : JsVal)   (* any public API method *)
| CallSetBaseUrl (url : string)
| CallSetRegion (region : string)
| Wait (dt : Z).

Definition perform (env : ProcessEnv) (response_json : string -> option TokenResponse)
    (JSON_parse : string -> option JsVal) (net : Network)
    (w : World) (op : Operation) : World :=
  match op with
  | CallApi endpoint method body =>
      snd (run net (makeRequest env response_json JSON_parse endpoint method body) w)
  | CallSetBaseUrl url => snd (run net (setBaseUrl url) w)
  | CallSetRegion region => snd (run net (setRegion region) w)
  | Wait dt => tick dt w
  end.

(** The life of one instance: built from the environment at time [t0], then
    used. *)
Definition lifetime (env : ProcessEnv) (response_json : string -> option TokenResponse)
    (JSON_parse : string -> option JsVal) (net : Network)
    (t0 : Z) (ops : list Operation) : World :=
  fold_left (perform env response_json JSON_parse net) ops
            (mkWorld (new_NinjaOneAPI env) t0 []).

(** A request that carries the form body of the token grant. *)
Definition carries_credentials (r : HttpRequest) : bool :=
  match req_body r with
  | FormBody _ => true
  | _ => false
  end.

(** A JSON value that is a token object: [access_token] is a string and
    [expires_in] a whole number. *)
Definition token_object (token : TokenResponse) (v : JsVal) : Prop :=
  member "access_token" v = VStr (access_token token)
  /\ exists q, member "expires_in" v = VNum (Finite q) /\ (q == inject_Z (expires_in token))%Q.

(** The token endpoint answers as declared: the body of an ok answer to a
    token request is either not JSON, and then [response.json()] fails, or a
    token object, and then [response.json()] is that token.  ([requestToken]
    does not look at what [response.json()] returns; on a network that
    answers a token request with JSON of another shape the class stores
    [undefined] and [NaN], which the fields of [NinjaOneAPI] as typed here
    do not hold.) *)
Definition typed_token_endpoint (response_json : string -> option TokenResponse)
    (JSON_parse : string -> option JsVal) (net : Network) : Prop :=
  forall n req response dt,
    net n req = (Resolved response, dt) ->
    carries_credentials req = true ->
    ok response = true ->
    match JSON_parse (text response) with
    | None => response_json (text response) = None
    | Some v => exists token, token_object token v /\ response_json (text response) = Some token
    end.

(** A string of ASCII characters: on these [JS.trim], [JS.toLowerCase] and
    [JS.toUpperCase] are the platform's functions. *)
Definition ascii_only (s : string) : bool :=
  JS.all_chars (fun c => (JS.code c <? 128)%N) s.

(** ** Query strings: [buildQuery] *)

(** [s.includes(needle)] on strings. *)
Fixpoint js_contains (needle s : string) : bool :=
  String.prefix needle s
  || match s with
     | EmptyString => false
     | String _ s' => js_contains needle s'
     end.

(** A [TypeError] is an [Error]; only its being thrown matters here. *)
Definition TypeError (message : string) : Exn := Error ("TypeError: " +:+ message).

Fixpoint has_key (key : string) (props : list (string * JsVal)) : bool :=
  match props with
  | [] => false
  | (k, _) :: rest => String.eqb k key || has_key key rest
  end.

(** The bytes that [URLSearchParams] leaves as they are. *)
Definition urlencoded_safe (c : ascii) : bool :=
  JS.is_upper c || JS.is_lower c || JS.is_digit c
  || Ascii.eqb c "*" || Ascii.eqb c "-" || Ascii.eqb c "." || Ascii.eqb c "_".

Definition hex_digit (n : N) : ascii :=
  if (n <? 10)%N then ascii_of_N (48 + n) else ascii_of_N (55 + n).

(** One byte in [application/x-www-form-urlencoded]: itself, [+] for a
    space, [%XX] otherwise. *)
Definition urlencode_char (c : ascii) : string :=
  if urlencoded_safe c then String c EmptyString
  else if Ascii.eqb c " " then "+"
  else String "%" (String (hex_digit (JS.code c / 16))
                     (String (hex_digit (JS.code c mod 16)) EmptyString)).

Fixpoint urlencode (s : string) : string :=
  match s with
  | EmptyString => EmptyString
  | String c s' => urlencode_char c +:+ urlencode s'
  end.

(** [new URLSearchParams()] after its [append]s, then [toString()]. *)
Definition URLSearchParams_toString (pairs : list (string * string)) : string :=
  JS.join "&" (map (fun pair => urlencode (fst pair) +:+ "=" +:+ urlencode (snd pair)) pairs).

(** [xs.slice(0, limit)] for an integral [limit]: a negative limit counts
    from the end. *)
Definition slice_to {A : Type} (limit : Z) (xs : list A) : list A :=
  if 0 <=? limit then firstn (Z.to_nat limit) xs
  else firstn (length xs - Z.to_nat (- limit)) xs.

(** [ToIntegerOrInfinity] of a finite number: the fraction is dropped. *)
Definition truncate (q : Q) : Z := Z.quot (Qnum q) (Zpos (Qden q)).

(** [xs.slice(0, limit)] for any number [limit]: [NaN] counts as 0, the
    fraction of a finite limit is dropped, a negative limit counts from the
    end. *)
Definition slice_number {A : Type} (limit : number) (xs : list A) : list A :=
  match limit with
  | NaN => []
  | Infinity negative => if negative then [] else xs
  | Finite q => slice_to (truncate q) xs
  end.

(** [length >= limit] *)
Definition reached (length : nat) (limit : number) : bool :=
  match limit with
  | NaN => false
  | Infinity negative => negative
  | Finite q => Qle_bool q (inject_Z (Z.of_nat length))
  end.

(** [o.key] when [o] may be anything: reading a property of [null] or
    [undefined] throws. *)
Definition read_member (key : string) (v : JsVal) : Result JsVal :=
  match v with
  | VNull | VUndefined => Thrown (TypeError "Cannot read properties of null or undefined")
  | _ => Returned (member key v)
  end.

(** [payload] without its [undefined] members, in the same order:
    [pruneUndefined]. *)
Definition pruneUndefined (payload : list (string * JsVal)) : list (string * JsVal) :=
  List.filter (fun entry => match snd entry with VUndefined => false | _ => true end) payload.

(** [body.key = value] guarded by [if (value !== undefined)], on an object
    under construction that has no such key yet. *)
Definition set_if_defined (key : string) (value : JsVal)
    (body : list (string * JsVal)) : list (string * JsVal) :=
  match value with
  | VUndefined => body
  | _ => body ++ [(key, value)]
  end.

Section Queries.

Variable env : ProcessEnv.
Variable response_json : string -> option TokenResponse.
Variable JSON_parse : string -> option JsVal.
Variable number_toString : number -> string.

(** [v.toString()] for a value that came out of [JSON.parse] (so no member
    is a function): a string is itself, an array is its elements joined by
    commas with [null] and [undefined] left blank, an object is
    ["[object Object]"] unless a member of its own hides [toString];
    [null] and [undefined] have no method to call. *)
Fixpoint js_toString (v : JsVal) : Result string :=
  match v with
  | VUndefined | VNull => Thrown (TypeError "Cannot read properties of null or undefined")
  | VBool b => Returned (if b then "true" else "false")
  | VNum n => Returned (number_toString n)
  | VStr s => Returned s
  | VArr items =>
      (fix join_items (l : list JsVal) : Result string :=
         match l with
         | [] => Returned ""
         | x :: rest =>
             match (match x with
                    | VUndefined | VNull => Returned ""
                    | _ => js_toString x
                    end) with
             | Thrown e => Thrown e
             | Returned s =>
                 match rest with
                 | [] => Returned s
                 | _ :: _ =>
                     match join_items rest with
                     | Thrown e => Thrown e
                     | Returned t => Returned (s +:+ "," +:+ t)
                     end
                 end
             end
         end) items
  | VObj props =>
      if has_key "toString" props then Thrown (TypeError "v.toString is not a function")
      else Returned "[object Object]"
  end.

(** The [forEach] of [buildQuery]: the pairs appended, in the order of the
    entries; an [undefined] value appends nothing. *)
Fixpoint query_pairs (params : list (string * JsVal)) : Result (list (string * string)) :=
  match params with
  | [] => Returned []
  | (k, v) :: rest =>
      match v with
      | VUndefined => query_pairs rest
      | _ =>
          match js_toString v with
          | Thrown e => Thrown e
          | Returned s =>
              match query_pairs rest with
              | Thrown e => Thrown e
              | Returned pairs => Returned ((k, s) :: pairs)
              end
          end
      end
  end.

Definition buildQuery (params : list (string * JsVal)) : Result string :=
  match query_pairs params with
  | Thrown e => Thrown e
  | Returned pairs =>
      let query := URLSearchParams_toString pairs in
      Returned (if JS.truthy_string query then "?" +:+ query else "")
  end.

(** A method whose path is a template around [buildQuery]: the template is
    evaluated before [makeRequest] is called. *)
Definition get_with_query (path : string) (params : list (string * JsVal)) : Prog JsVal :=
  match buildQuery params with
  | Thrown e => Throw e
  | Returned query =>
      makeRequest env response_json JSON_parse (path +:+ query) "GET" VUndefined
  end.

Definition getDevices (df pageSize after : JsVal) : Prog JsVal :=
  get_with_query "/v2/devices" [("df", df); ("pageSize", pageSize); ("after", after)].

(** [updateOrganization]: [nodeApprovalMode] is accepted and left out. *)
Definition updateOrganization (id : number) (name description nodeApprovalMode tags : JsVal)
    : Prog JsVal :=
  let body :=
    VObj (set_if_defined "tags" tags
            (set_if_defined "description" description
               (set_if_defined "name" name []))) in
  try_catch
    (makeRequest env response_json JSON_parse
       ("/v2/organizations/" +:+ number_toString id) "PATCH" body)
    (fun error =>
       if js_contains "404" (message_of error) then
         makeRequest env response_json JSON_parse
           ("/v2/organization/" +:+ number_toString id) "PATCH" body
       else Throw error).

(** ** Paging through all devices: [ToolHandler.getAllDevices] *)

Definition PAGE_SIZE : Z := 1000.
Definition MAX_PAGES : nat := 50.

(** [batch[batch.length - 1].id] for a non-empty [batch]. *)
Definition last_id (batch : list JsVal) : Result JsVal :=
  read_member "id" (List.last batch VUndefined).

(** The [for] loop with [pages] iterations to go. *)
Fixpoint getAllDevices_from (pages : nat) (df after : JsVal) (allDevices : list JsVal)
    : Prog (list JsVal) :=
  match pages with
  | O => Ret allDevices
  | S pages' =>
      (let* batch := getDevices df (num_Z PAGE_SIZE) after in
       match batch with
       | VArr items =>
           if (length items =? 0)%nat then Ret allDevices
           else
             let allDevices := allDevices ++ items in
             if Z.of_nat (length items) <? PAGE_SIZE then Ret allDevices
             else
               match last_id items with
               | Thrown e => Throw e
               | Returned after' => getAllDevices_from pages' df after' allDevices
               end
       | _ => Ret allDevices
       end)%prog
  end.

Definition getAllDevices (df : JsVal) : Prog (list JsVal) :=
  getAllDevices_from MAX_PAGES df VUndefined [].

(** ** Searching devices by name: [ToolHandler.searchDevicesByName] *)

(** [String.prototype.toLowerCase] of the platform, with all of Unicode's
    case mappings. *)
Variable String_toLowerCase : string -> string.

(** [field?.toLowerCase().includes(needle)]: [undefined] (falsy) when the
    field is missing or [null]. *)
Definition field_includes (field : JsVal) (needle : string) : Result bool :=
  match field with
  | VUndefined | VNull => Returned false
  | VStr s => Returned (js_contains needle (String_toLowerCase s))
  | _ => Thrown (TypeError "toLowerCase is not a function")
  end.

(** The callback of [devices.filter]. *)
Definition name_matches (searchName : string) (device : JsVal) : Result bool :=
  match read_member "systemName" device with
  | Thrown e => Thrown e
  | Returned systemName =>
      match field_includes systemName (String_toLowerCase searchName) with
      | Thrown e => Thrown e
      | Returned true => Returned true
      | Returned false =>
          field_includes (member "displayName" device) (String_toLowerCase searchName)
      end
  end.

(** [xs.filter(f)] for a callback that may throw. *)
Fixpoint filter_throwing (f : JsVal -> Result bool) (xs : list JsVal) : Result (list JsVal) :=
  match xs with
  | [] => Returned []
  | x :: rest =>
      match f x with
      | Thrown e => Thrown e
      | Returned keep =>
          match filter_throwing f rest with
          | Thrown e => Thrown e
          | Returned kept => Returned (if keep then x :: kept else kept)
          end
      end
  end.

Definition search_report (searchName : string) (devices filtered : list JsVal) : JsVal :=
  VObj [ ("searchTerm", VStr searchName);
         ("totalDevices", num_Z (Z.of_nat (length devices)));
         ("totalFound", num_Z (Z.of_nat (length filtered)));
         ("devices", VArr filtered) ].

Definition searchDevicesByName (searchName : string) (limit : number) : Prog JsVal :=
  (let* devices := getAllDevices VUndefined in
   match filter_throwing (name_matches searchName) devices with
   | Thrown e => Throw e
   | Returned matching =>
       Ret (search_report searchName devices (slice_number limit matching))
   end)%prog.

End Queries.

(** ** The token check in front of the routes: [tokenAuth] *)

(** [true] is [next()], [false] is the request not passed on.
    [String_trim] is the platform's [String.prototype.trim],
    [MCP_AUTH_TOKEN] is the environment variable, [path] is [req.path],
    [token] is [req.query.token] ([undefined], a string, or an array or
    object when the parameter is repeated or bracketed).  The request is
    passed on when the two strings have the same [length] and
    [timingSafeEqual] finds their buffers equal, which is when the strings
    are equal; otherwise it is answered 401, or [timingSafeEqual] throws
    (strings of the same [length] whose buffers differ in length). *)
Definition tokenAuth (String_trim : string -> string)
    (MCP_AUTH_TOKEN : option string) (path : string) (token : JsVal) : bool :=
  let expected := match MCP_AUTH_TOKEN with Some s => String_trim s | None => "" end in
  if negb (JS.truthy_string expected) then true
  else if String.eqb path "/health" then true
  else
    let provided := match token with VStr s => s | _ => "" end in
    (String.length provided =? String.length expected)%nat
    && String.eqb provided expected.

(** ** Counting, for the statements about queries and paging *)

Fixpoint count_char (c : ascii) (s : string) : nat :=
  match s with
  | EmptyString => 0
  | String a s' => (if Ascii.eqb a c then 1 else 0) + count_char c s'
  end.

(** The characters a query string built by [buildQuery] is made of. *)
Definition query_char (c : ascii) : bool :=
  urlencoded_safe c
  || Ascii.eqb c "%" || Ascii.eqb c "+" || Ascii.eqb c "=" || Ascii.eqb c "&"
  || Ascii.eqb c "?".

(** The parameters that are not [undefined]. *)
Definition defined_params (params : list (string * JsVal)) : list (string * JsVal) :=
  pruneUndefined params.

(** The requests with a given method. *)
Definition with_method (m : string) (rs : list HttpRequest) : list HttpRequest :=
  List.filter (fun r => String.eqb (req_method r) m) rs.

(** No two session ids share a transport, and every registered transport was
    built earlier. *)
Definition sessions_isolated (g : Http.Gateway) : Prop :=
  (forall sid t, Http.transports g !! sid = Some t -> (t < Http.constructed g)%nat)
  /\ (forall sid1 sid2 t,
        Http.transports g !! sid1 = Some t -> Http.transports g !! sid2 = Some t ->
        sid1 = sid2).

(** [JSON.parse] in step with [sample_json]: any body is the token object
    of [sample_token]. *)
Definition token_json (_ : string) : option JsVal :=
  Some (VObj [("access_token", VStr "tok-1"); ("expires_in", num_Z 3600)]).

(** ** Sample inputs for paging and searching *)

(** [n.toString()] on the integral numbers; the other cases do not occur in
    the samples. *)
Definition integral_toString (n : number) : string :=
  match n with
  | Finite q => JS.of_Z (Qfloor q)
  | Infinity negative => if negative then "-Infinity" else "Infinity"
  | NaN => "NaN"
  end.

Definition sample_devices : list JsVal :=
  [ VObj [("id", num_Z 1); ("systemName", VStr "WS-Alpha")];
    VObj [("id", num_Z 2); ("systemName", VStr "srv-7"); ("displayName", VStr "Alpha backup")];
    VObj [("id", num_Z 3); ("systemName", VNull); ("displayName", VStr "printer")];
    VObj [("id", num_Z 4); ("displayName", VStr "ALPHA-lab")] ].

(** Any body decodes to the array of [sample_devices]. *)
Definition devices_json (_ : string) : option JsVal := Some (VArr sample_devices).

(** A network that answers 200 with a JSON text to everything. *)
Definition net_devices : Network :=
  fun _ _ => (Resolved (mkResponse 200 "OK" "[{},{},{},{}]"), 10).

(** The callback of [filter] as a test: the devices that are kept. *)
Definition kept_by (String_toLowerCase : string -> string)
    (searchName : string) (device : JsVal) : bool :=
  match name_matches String_toLowerCase searchName device with
  | Returned keep => keep
  | Thrown _ => false
  end.

(** ** Looking for Windows 11: [ToolHandler.findWindows11Devices] *)

Section Windows11.

Variable env : ProcessEnv.
Variable response_json : string -> option TokenResponse.
Variable JSON_parse : string -> option JsVal.
Variable number_toString : number -> string.

(** [`${v}`]: [null] and [undefined] are spelled out, everything else is
    converted as [toString] does. *)
Definition template_of (v : JsVal) : Result string :=
  match v with
  | VUndefined => Returned "undefined"
  | VNull => Returned "null"
  | _ => js_toString number_toString v
  end.

(** [getDevice(id)]; the router passes [device.id] as it came from the
    upstream. *)
Definition getDevice (id : JsVal) : Prog JsVal :=
  match template_of id with
  | Thrown e => Throw e
  | Returned s =>
      makeRequest env response_json JSON_parse ("/v2/device/" +:+ s) "GET" VUndefined
  end.

(** The callback of the first [filter]. *)
Definition is_windows (device : JsVal) : Result bool :=
  match read_member "nodeClass" device with
  | Thrown e => Thrown e
  | Returned nodeClass =>
      Returned (is_string "WINDOWS_WORKSTATION" nodeClass
                || is_string "WINDOWS_SERVER" nodeClass)
  end.

(** [details.os?.name?.includes('Windows 11')], as a condition: strings and
    arrays have an [includes], other values have none to call. *)
Definition os_name_includes (details : JsVal) : Result bool :=
  match read_member "os" details with
  | Thrown e => Thrown e
  | Returned (VUndefined | VNull) => Returned false
  | Returned os =>
      match member "name" os with
      | VUndefined | VNull => Returned false
      | VStr s => Returned (js_contains "Windows 11" s)
      | VArr items => Returned (existsb (is_string "Windows 11") items)
      | _ => Thrown (TypeError "includes is not a function")
      end
  end.

(** [o?.key] *)
Definition optional_member (key : string) (v : JsVal) : JsVal :=
  match v with
  | VUndefined | VNull => VUndefined
  | _ => member key v
  end.

(** The object pushed for a device whose details name Windows 11. *)
Definition windows11_entry (device details : JsVal) : JsVal :=
  VObj [ ("id", member "id" device);
         ("systemName", member "systemName" device);
         ("displayName", member "displayName" device);
         ("offline", member "offline" device);
         ("osName", member "name" (member "os" details));
         ("buildNumber", member "buildNumber" (member "os" details));
         ("releaseId", member "releaseId" (member "os" details));
         ("manufacturer", optional_member "manufacturer" (member "system" details));
         ("model", optional_member "model" (member "system" details)) ].

(** The body of the [try]: the entry to push, if any. *)
Definition inspect_device (device : JsVal) : Prog (option JsVal) :=
  (let* details := getDevice (member "id" device) in
   match os_name_includes details with
   | Thrown e => Throw e
   | Returned true => Ret (Some (windows11_entry device details))
   | Returned false => Ret None
   end)%prog.

(** The [for ... of] loop over the devices still to inspect; [catch]
    swallows whatever the body throws and goes on. *)
Fixpoint scan_windows11 (limit : number) (todo windows11Devices : list JsVal)
    : Prog (list JsVal) :=
  match todo with
  | [] => Ret windows11Devices
  | device :: rest =>
      (let* hit := try_catch (inspect_device device) (fun _ => Ret None) in
       match hit with
       | Some entry =>
           let windows11Devices := windows11Devices ++ [entry] in
           if reached (length windows11Devices) limit then Ret windows11Devices
           else scan_windows11 limit rest windows11Devices
       | None => scan_windows11 limit rest windows11Devices
       end)%prog
  end.

Definition windows11_report (devices windows11Devices : list JsVal) : JsVal :=
  VObj [ ("totalDevices", num_Z (Z.of_nat (length devices)));
         ("totalFound", num_Z (Z.of_nat (length windows11Devices)));
         ("devices", VArr windows11Devices) ].

Definition findWindows11Devices (limit : number) : Prog JsVal :=
  (let* devices := getAllDevices env response_json JSON_parse number_toString VUndefined in
   match filter_throwing is_windows devices with
   | Thrown e => Throw e
   | Returned windowsDevices =>
       let* windows11Devices := scan_windows11 limit (slice_to 50 windowsDevices) [] in
       Ret (windows11_report devices windows11Devices)
   end)%prog.

End Windows11.

(** A value that has properties to read: neither [null] nor [undefined]. *)
Definition has_properties (v : JsVal) : bool :=
  match v with
  | VUndefined | VNull => false
  | _ => true
  end.

(** ** Sample inputs for the Windows 11 search *)

Definition windows_devices : list JsVal :=
  [ VObj [("id", num_Z 1); ("nodeClass", VStr "WINDOWS_WORKSTATION"); ("systemName", VStr "pc-1")];
    VObj [("id", num_Z 2); ("nodeClass", VStr "LINUX_SERVER"); ("systemName", VStr "db-1")];
    VObj [("id", num_Z 3); ("nodeClass", VStr "WINDOWS_SERVER"); ("systemName", VStr "dc-1")];
    VObj [("id", num_Z 4); ("nodeClass", VStr "WINDOWS_WORKSTATION"); ("systemName", VStr "pc-2")] ].

Definition windows_details : JsVal :=
  VObj [("os", VObj [("name", VStr "Microsoft Windows 11 Pro"); ("buildNumber", VStr "22631")])].

(** A body that mentions [os] decodes to [windows_details], any other body
    to the array of [windows_devices]. *)
Definition windows_json (text : string) : option JsVal :=
  if js_contains "os" text then Some windows_details else Some (VArr windows_devices).

(** A network on which the details of device 3 cannot be fetched: the other
    detail requests are answered with details, everything else with a
    list. *)
Definition net_windows : Network :=
  fun _ req =>
    if js_contains "/v2/device/3" (req_url req) then (Rejected (Error "fetch failed"), 10)
    else if js_contains "/v2/device/" (req_url req)
         then (Resolved (mkResponse 200 "OK" "{os}"), 10)
         else (Resolved (mkResponse 200 "OK" "[list]"), 10).

(** ** Around every tool: [routeToolCall] and the [CallToolRequestSchema] handler *)

Section ToolCalls.

(** [JSON.stringify(data, null, 2)]: a string, or [undefined] when [data]
    is [undefined]. *)
Variable JSON_stringify : JsVal -> JsVal.

(** [{ content: [{ type: 'text', text: JSON.stringify(data, null, 2) }] }] *)
Definition tool_result (data : JsVal) : JsVal :=
  VObj [("content", VArr [VObj [("type", VStr "text"); ("text", JSON_stringify data)]])].

(** [routeToolCall] around the call that its [switch] selects for the tool
    name and the arguments: [call] is the body of the [case] taken, up to and
    including its [await]. *)
Definition routeToolCall (call : Prog JsVal) : Prog JsVal :=
  try_catch
    (let* data := call in Ret (tool_result data))%prog
    (fun error => Throw (McpError InternalError ("API call failed: " +:+ message_of error))).

(** The handler registered for [CallToolRequestSchema]. *)
Definition CallToolRequest_handler (call : Prog JsVal) : Prog JsVal :=
  try_catch (routeToolCall call)
    (fun error =>
       match error with
       | McpError _ _ => Throw error
       | Error m => Throw (McpError InternalError ("Tool execution failed: " +:+ m))
       end).

End ToolCalls.

(** * The embedding on concrete inputs *)

Example split_keeps_empty_fields :
  JS.split "," "a,,b," = ["a"; ""; "b"; ""].
Proof. reflexivity. Qed.

Example candidates_from_environment :
  getCandidateBaseUrls (mkEnv None None (Some " eu.ninjarmm.com ,, HTTP://b ") None None)
  = ["https://eu.ninjarmm.com"; "HTTP://b"].
Proof. reflexivity. Qed.

Example candidates_default_when_blank :
  getCandidateBaseUrls (mkEnv None None (Some " , ") None None) = DEFAULT_CANDIDATES.
Proof. reflexivity. Qed.

Example pattern_needs_one_label :
  ALLOWED_DOMAIN_PATTERN_test "https://my-sub_1.ninjarmm.com" = true
  /\ ALLOWED_DOMAIN_PATTERN_test "https://a.b.ninjarmm.com" = false
  /\ ALLOWED_DOMAIN_PATTERN_test "https://.ninjarmm.com" = false
  /\ ALLOWED_DOMAIN_PATTERN_test "https://eu.ninjarmm.com.example.com" = false
  /\ ALLOWED_DOMAIN_PATTERN_test "http://eu.ninjarmm.com" = false.
Proof. repeat split; reflexivity. Qed.

Example round_half_up :
  Math_round (5 # 2) = 3 /\ Math_round (-5 # 2) = -2 /\ Math_round (1799 # 2) = 900.
Proof. repeat split; reflexivity. Qed.

Example region_is_case_insensitive :
  fst (run net_down (setRegion "EU") sample_world) = Returned tt
  /\ baseUrl (self (snd (run net_down (setRegion "EU") sample_world)))
     = Some "https://eu.ninjarmm.com".
Proof. split; reflexivity. Qed.

Example inherited_region_key_is_refused :
  exists e, run net_down (setRegion "constructor") sample_world = (Thrown e, sample_world).
Proof. eexists. reflexivity. Qed.

Example session_round_trip :
  let route := Http.mcp no_json sample_isInitialize unary_uuid accepts_all in
  let g1 := snd (route (initialize_request None) Http.initial) in
  fst (route (Http.mkReq "POST" (Some "u") ping_body) g1) = Http.Handled 0
  /\ fst (route (Http.mkReq "GET" (Some "u") VUndefined) g1) = Http.Handled 0
  /\ fst (route (Http.mkReq "GET" None VUndefined) g1) = Http.invalid_session
  /\ fst (route (Http.mkReq "PUT" (Some "u") ping_body) g1) = Http.method_not_allowed.
Proof. repeat split; reflexivity. Qed.

(** * Running programs: general facts *)

Section RunFacts.

Variable net : Network.

Lemma run_bind {A B : Type} (p : Prog A) (f : A -> Prog B) (w : World) :
  run net (bind p f) w =
  match run net p w with
  | (Returned a, w') => run net (f a) w'
  | (Thrown e, w') => (Thrown e, w')
  end.
Proof.
  revert w; induction p as [a|e|k IH|k IH|g k IH|req k IH]; intros w; cbn [bind run].
  - reflexivity.
  - reflexivity.
  - apply IH.
  - apply IH.
  - apply IH.
  - destruct (net (length (sent w)) req) as [r dt]. apply IH.
Qed.

Lemma run_try_catch {A : Type} (p : Prog A) (h : Exn -> Prog A) (w : World) :
  run net (try_catch p h) w =
  match run net p w with
  | (Returned a, w') => (Returned a, w')
  | (Thrown e, w') => run net (h e) w'
  end.
Proof.
  revert w; induction p as [a|e|k IH|k IH|g k IH|req k IH]; intros w; cbn [try_catch run].
  - reflexivity.
  - reflexivity.
  - apply IH.
  - apply IH.
  - apply IH.
  - destruct (net (length (sent w)) req) as [r dt]. apply IH.
Qed.

(** Requests are only ever added to the log. *)
Lemma run_sent_grows {A : Type} (p : Prog A) (w : World) :
  exists more, sent (snd (run net p w)) = sent w ++ more.
Proof.
  revert w; induction p as [a|e|k IH|k IH|g k IH|req k IH]; intros w; cbn [run].
  - exists []. cbn. now rewrite app_nil_r.
  - exists []. cbn. now rewrite app_nil_r.
  - apply IH.
  - apply IH.
  - destruct (IH (mkWorld (g (self w)) (clock w) (sent w))) as [more Hm].
    exists more. exact Hm.
  - destruct (net (length (sent w)) req) as [r dt].
    destruct (IH r (mkWorld (self w) (clock w + dt) (sent w ++ [req]))) as [more Hm].
    exists (req :: more). rewrite Hm. cbn. now rewrite <- app_assoc.
Qed.

(** Running to completion is advancing from [await] to [await], each
    [fetch] being settled by the network. *)
Lemma run_advance {A : Type} (p : Prog A) (w : World) :
  run net p w =
  match advance p w with
  | (Settled r, w') => (r, w')
  | (Awaiting req k, w') =>
      let '(r, dt) := net (length (sent w)) req in
      run net (k r) (mkWorld (self w') (clock w' + dt) (sent w'))
  end.
Proof.
  revert w; induction p as [a|e|k IH|k IH|g k IH|req k IH]; intros w; cbn [run advance].
  - reflexivity.
  - reflexivity.
  - apply IH.
  - apply IH.
  - rewrite IH. reflexivity.
  - reflexivity.
Qed.

End RunFacts.

(** The synchronous stretch of a program neither reads the log nor removes
    from it. *)
Lemma advance_sent {A : Type} (p : Prog A) (o : NinjaOneAPI) (c : Z) (s : list HttpRequest) :
  advance p (mkWorld o c s) =
  let '(t, w') := advance p (mkWorld o c []) in
  (t, mkWorld (self w') (clock w') (s ++ sent w')).
Proof.
  revert o c s; induction p as [a|e|k IH|k IH|g k IH|req k IH]; intros o c s; cbn [advance].
  - cbn. now rewrite app_nil_r.
  - cbn. now rewrite app_nil_r.
  - cbn. apply IH.
  - cbn. apply IH.
  - cbn. apply IH.
  - cbn. reflexivity.
Qed.

(** * The token cache *)

Section TokenFacts.

Variable env : ProcessEnv.
Variable response_json : string -> option TokenResponse.
Variable net : Network.

Local Abbreviation request := (requestToken response_json).
Local Abbreviation sweep_ := (sweep response_json).
Local Abbreviation attempt_ := (attempt response_json net).

(** One token request: it is logged, time passes, and it yields a token
    exactly when [token_of] says so; the object is left alone. *)
Lemma run_requestToken (base : string) (w : World) :
  let req := token_request (self w) base in
  let w' := mkWorld (self w) (clock w + snd (net (length (sent w)) req))
                    (sent w ++ [req]) in
  match token_of response_json (fst (net (length (sent w)) req)) with
  | Some token => run net (request base) w = (Returned token, w')
  | None => exists e, run net (request base) w = (Thrown e, w')
  end.
Proof.
  cbn zeta. unfold requestToken, this, fetch. cbn [bind run].
  destruct (net (length (sent w)) (token_request (self w) base)) as [[e|response] dt];
    cbn [fst snd token_of].
  - eexists. reflexivity.
  - destruct (ok response); cbn [negb].
    + destruct (response_json (text response)) as [token|].
      * reflexivity.
      * eexists. reflexivity.
    + eexists. reflexivity.
Qed.

(** Storing a token and handing it back. *)
Lemma run_store_return (token : TokenResponse) (w : World) :
  run net (bind (store_token token) (fun _ => return_accessToken)) w =
  (Returned (access_token token),
   mkWorld (set_tokenExpiry (Some (clock w + expires_in token * 1000))
              (set_accessToken (Some (access_token token)) (self w)))
           (clock w) (sent w)).
Proof. reflexivity. Qed.

Lemma attempt_shift (w : World) (c : string) (rest : list string) (i : nat) (dt : Z) :
  attempt_
    (mkWorld (self w) (clock w + dt) (sent w ++ [token_request (self w) c])) rest i
  = attempt_ w (c :: rest) (S i).
Proof.
  unfold attempt. cbn [self sent nth].
  rewrite length_app. cbn [length].
  replace (length (sent w) + 1 + i)%nat with (length (sent w) + S i)%nat by lia.
  reflexivity.
Qed.

Lemma attempt_head (w : World) (c : string) (rest : list string) :
  attempt_ w (c :: rest) 0
  = token_of response_json (fst (net (length (sent w)) (token_request (self w) c))).
Proof.
  unfold attempt. cbn [nth]. now rewrite Nat.add_0_r.
Qed.

(** The sweep when every candidate fails: each one is asked once, in
    order, the object is untouched, and the error lists them all. *)
Lemma sweep_all_fail (candidates tried : list string) (w : World) :
  (forall i, (i < length candidates)%nat -> attempt_ w candidates i = None) ->
  fst (run net (sweep_ tried candidates) w)
    = Thrown (Error (tried_message (tried ++ candidates)))
  /\ self (snd (run net (sweep_ tried candidates) w)) = self w
  /\ sent (snd (run net (sweep_ tried candidates) w))
     = sent w ++ map (token_request (self w)) candidates.
Proof.
  revert tried w.
  induction candidates as [|c rest IH]; intros tried w Hfail.
  - cbn. rewrite !app_nil_r. auto.
  - cbn [sweep]. rewrite run_try_catch, run_bind.
    pose proof (run_requestToken c w) as Hreq. cbn zeta in Hreq.
    rewrite <- attempt_head with (rest := rest) in Hreq.
    rewrite (Hfail 0%nat) in Hreq by (cbn; lia).
    destruct Hreq as [e ->].
    set (w1 := mkWorld _ _ _).
    destruct (IH (tried ++ [c]) w1) as (Hr & Hs & Hl).
    { intros i Hi. unfold w1. rewrite attempt_shift. apply Hfail. cbn. lia. }
    rewrite Hr, Hs, Hl. unfold w1. cbn [self sent map].
    rewrite <- !app_assoc. cbn. auto.
Qed.

(** The sweep when the candidate after [pre] is the first to succeed. *)
Lemma sweep_first_success (pre : list string) (c : string) (post tried : list string)
    (token : TokenResponse) (w : World) :
  (forall i, (i < length pre)%nat -> attempt_ w (pre ++ c :: post) i = None) ->
  attempt_ w (pre ++ c :: post) (length pre) = Some token ->
  let w' := snd (run net (sweep_ tried (pre ++ c :: post)) w) in
  fst (run net (sweep_ tried (pre ++ c :: post)) w) = Returned (access_token token)
  /\ sent w' = sent w ++ map (token_request (self w)) (pre ++ [c])
  /\ self w' =
     set_tokenExpiry (Some (clock w' + expires_in token * 1000))
       (set_accessToken (Some (access_token token))
          (set_baseUrlExplicit true (set_baseUrl (Some c) (self w)))).
Proof.
  revert tried w.
  induction pre as [|p pre IH]; intros tried w Hfail Hok; cbn zeta.
  - cbn [app length] in *. cbn [sweep].
    rewrite run_try_catch, run_bind.
    pose proof (run_requestToken c w) as Hreq. cbn zeta in Hreq.
    rewrite <- attempt_head with (rest := post) in Hreq.
    rewrite Hok in Hreq. rewrite Hreq.
    cbn. auto.
  - cbn [app length] in *. cbn [sweep].
    rewrite run_try_catch, run_bind.
    pose proof (run_requestToken p w) as Hreq. cbn zeta in Hreq.
    rewrite <- attempt_head with (rest := pre ++ c :: post) in Hreq.
    rewrite (Hfail 0%nat) in Hreq by lia.
    destruct Hreq as [e ->].
    set (w1 := mkWorld _ _ _).
    destruct (IH (tried ++ [p]) w1) as (Hr & Hl & Hs).
    { intros i Hi. unfold w1. rewrite attempt_shift. apply Hfail. lia. }
    { unfold w1. rewrite attempt_shift. exact Hok. }
    rewrite Hr, Hl. split; [reflexivity|]. split.
    + unfold w1. cbn [self sent map]. rewrite <- !app_assoc. reflexivity.
    + rewrite Hs. reflexivity.
Qed.

End TokenFacts.

Section CacheFacts.

Variable env : ProcessEnv.
Variable response_json : string -> option TokenResponse.
Variable net : Network.

Local Abbreviation getToken := (getAccessToken env response_json).

Lemma run_cached_token (w : World) :
  run net cached_token w = (Returned (fresh_token (self w) (clock w)), w).
Proof.
  unfold cached_token, fresh_token, this, date_now. cbn [bind run].
  destruct (accessToken (self w)) as [tok|]; [|reflexivity].
  destruct (tokenExpiry (self w)) as [expiry|]; [|reflexivity].
  destruct (JS.truthy_string tok && JS.truthy_Z expiry); cbn; reflexivity.
Qed.

Lemma getAccessToken_unconfigured (w : World) :
  isConfigured (self w) = false ->
  run net getToken w = (Thrown (Error not_configured_message), w).
Proof.
  intros H. unfold getAccessToken, this. cbn [bind run]. rewrite H. reflexivity.
Qed.

Lemma getAccessToken_hit (w : World) (tok : string) :
  isConfigured (self w) = true ->
  fresh_token (self w) (clock w) = Some tok ->
  run net getToken w = (Returned tok, w).
Proof.
  intros Hc Hf. unfold getAccessToken, this. cbn [bind run]. rewrite Hc. cbn [negb].
  rewrite run_bind, run_cached_token, Hf. reflexivity.
Qed.

Lemma getAccessToken_miss (w : World) :
  isConfigured (self w) = true ->
  fresh_token (self w) (clock w) = None ->
  run net getToken w =
  if unresolved (self w) then run net (sweep response_json [] (getCandidateBaseUrls env)) w
  else run net (bind (requestToken response_json (or_empty (baseUrl (self w))))
                     (fun token => bind (store_token token) (fun _ => return_accessToken))) w.
Proof.
  intros Hc Hf. unfold getAccessToken, this. cbn [bind run]. rewrite Hc. cbn [negb].
  rewrite run_bind, run_cached_token, Hf. cbn [bind run].
  destruct (unresolved (self w)); reflexivity.
Qed.

(** A miss on a pinned endpoint: one request, to that endpoint; on
    success the token is stored, on failure nothing changes. *)
Lemma getAccessToken_pinned (w : World) :
  isConfigured (self w) = true ->
  fresh_token (self w) (clock w) = None ->
  unresolved (self w) = false ->
  let base := or_empty (baseUrl (self w)) in
  let req := token_request (self w) base in
  let w' := snd (run net getToken w) in
  sent w' = sent w ++ [req]
  /\ match token_of response_json (fst (net (length (sent w)) req)) with
     | Some token =>
         fst (run net getToken w) = Returned (access_token token)
         /\ self w' = set_tokenExpiry (Some (clock w' + expires_in token * 1000))
                        (set_accessToken (Some (access_token token)) (self w))
     | None =>
         (exists e, fst (run net getToken w) = Thrown e) /\ self w' = self w
     end.
Proof.
  intros Hc Hf Hu. cbn zeta. rewrite (getAccessToken_miss w Hc Hf), Hu, run_bind.
  pose proof (run_requestToken response_json net (or_empty (baseUrl (self w))) w) as Hreq.
  cbn zeta in Hreq.
  destruct (token_of response_json _) as [token|].
  - rewrite Hreq, run_store_return. cbn. auto.
  - destruct Hreq as [e ->]. cbn. eauto.
Qed.

End CacheFacts.

(** Every candidate is a non-empty string, and there is at least one. *)
Lemma normalizeBaseUrl_truthy (u : string) :
  JS.truthy_string u = true -> JS.truthy_string (normalizeBaseUrl u) = true.
Proof.
  unfold normalizeBaseUrl. destruct (negb (has_http_scheme u)); [reflexivity | auto].
Qed.

Lemma candidates_truthy (env : ProcessEnv) :
  Forall (fun c => JS.truthy_string c = true) (getCandidateBaseUrls env).
Proof.
  unfold getCandidateBaseUrls.
  destruct (0 <? length _)%nat.
  - apply List.Forall_forall. intros c Hc. apply in_map_iff in Hc as (u & <- & Hu).
    apply filter_In in Hu as [_ Hu]. now apply normalizeBaseUrl_truthy.
  - repeat constructor.
Qed.

Lemma candidates_nonempty (env : ProcessEnv) : getCandidateBaseUrls env <> [].
Proof.
  unfold getCandidateBaseUrls.
  destruct (0 <? length _)%nat eqn:E.
  - intros H. rewrite H in E. discriminate.
  - discriminate.
Qed.


Lemma fresh_token_cases (o : NinjaOneAPI) (now : Z) :
  (exists tok, fresh_token o now = Some tok /\ accessToken o = Some tok)
  \/ fresh_token o now = None.
Proof.
  unfold fresh_token.
  destruct (accessToken o) as [tok|]; [|now right].
  destruct (tokenExpiry o) as [expiry|]; [|now right].
  destruct (_ && _); [left; eauto | now right].
Qed.

Section PinFacts.

Variable env : ProcessEnv.
Variable response_json : string -> option TokenResponse.

Local Abbreviation getToken := (getAccessToken env response_json).

(** Once an endpoint is pinned, a call of [getAccessToken] asks that
    endpoint or nobody, and the pin stays, whatever the answer. *)
Lemma getAccessToken_keeps_pin (net : Network) (w : World) :
  unresolved (self w) = false ->
  let w' := snd (run net getToken w) in
  baseUrl (self w') = baseUrl (self w)
  /\ baseUrlExplicit (self w') = baseUrlExplicit (self w)
  /\ clientId (self w') = clientId (self w)
  /\ clientSecret (self w') = clientSecret (self w)
  /\ isConfigured (self w') = isConfigured (self w)
  /\ (sent w' = sent w
      \/ sent w' = sent w ++ [token_request (self w) (or_empty (baseUrl (self w)))]).
Proof.
  intros Hu. cbn zeta.
  destruct (isConfigured (self w)) eqn:Hc.
  - destruct (fresh_token_cases (self w) (clock w)) as [(tok & Hf & _)|Hf].
    + rewrite (getAccessToken_hit env response_json net w tok Hc Hf). cbn. auto 10.
    + destruct (getAccessToken_pinned env response_json net w Hc Hf Hu) as [Hs Hm].
      rewrite Hs.
      destruct (token_of response_json _) as [token|].
      * destruct Hm as [_ ->]. cbn. auto 10.
      * destruct Hm as [_ ->]. auto 10.
  - rewrite (getAccessToken_unconfigured env response_json net w Hc). cbn. auto 10.
Qed.



(** [consistent] is an invariant of the class. *)
Lemma new_NinjaOneAPI_consistent : consistent (new_NinjaOneAPI env).
Proof.
  unfold consistent, new_NinjaOneAPI. intros H. exfalso. apply H.
  destruct (JS.truthy_string _); [reflexivity|].
  destruct (if JS.truthy_string _ then _ else _); reflexivity.
Qed.

Lemma getAccessToken_consistent (net : Network) (w : World) :
  consistent (self w) -> consistent (self (snd (run net getToken w))).
Proof.
  intros Hinv.
  destruct (isConfigured (self w)) eqn:Hc.
  2:{ now rewrite (getAccessToken_unconfigured env response_json net w Hc). }
  destruct (fresh_token_cases (self w) (clock w)) as [(tok & Hf & _)|Hf].
  { now rewrite (getAccessToken_hit env response_json net w tok Hc Hf). }
  destruct (unresolved (self w)) eqn:Hu.
  - rewrite (getAccessToken_miss env response_json net w Hc Hf), Hu.
    set (cands := getCandidateBaseUrls env).
    assert (Hcases :
      (forall i, (i < length cands)%nat -> attempt response_json net w cands i = None)
      \/ exists pre c post token,
           cands = pre ++ c :: post
           /\ (forall i, (i < length pre)%nat -> attempt response_json net w cands i = None)
           /\ attempt response_json net w cands (length pre) = Some token).
    { clear. generalize (attempt response_json net w cands). intros f.
      induction cands as [|c rest IH] using rev_ind.
      - left. cbn. lia.
      - destruct IH as [IH|(pre & c' & post & token & -> & Hp & Hk)].
        + destruct (f (length rest)) as [token|] eqn:E.
          * right. exists rest, c, [], token. auto.
          * left. intros i Hi. rewrite length_app in Hi. cbn in Hi.
            destruct (Nat.eq_dec i (length rest)) as [->|]; [exact E|apply IH; lia].
        + right. exists pre, c', (post ++ [c]), token.
          rewrite <- app_assoc. auto. }
    destruct Hcases as [Hall|(pre & c & post & token & Hsplit & Hpre & Hk)].
    + destruct (sweep_all_fail response_json net cands [] w Hall) as (_ & -> & _).
      exact Hinv.
    + rewrite Hsplit in *.
      destruct (sweep_first_success response_json net pre c post [] token w Hpre Hk)
        as (_ & _ & ->).
      intros _. cbn. split; [exact Hc|].
      unfold unresolved. cbn.
      pose proof (candidates_truthy env) as Ht. fold cands in Ht. rewrite Hsplit in Ht.
      apply Forall_app in Ht as [_ Ht]. apply Forall_cons in Ht as [Ht _].
      now rewrite Ht.
  - destruct (getAccessToken_pinned env response_json net w Hc Hf Hu) as [_ Hm].
    destruct (token_of response_json _) as [token|].
    + destruct Hm as [_ ->]. intros _. cbn. split; [exact Hc|exact Hu].
    + destruct Hm as [_ ->]. exact Hinv.
Qed.

End PinFacts.

(** * Claims about the credential cache *)

(** C2 (token reuse).  With a cached, non-empty token whose expiry lies more
    than 300000 ms ahead, [getAccessToken] returns that token and changes
    nothing: no request is sent.  At or past that threshold a token is only
    returned after a token request has been sent, and it is the token of the
    response to that request. *)
Theorem C2_cached_token_reused
    (env : ProcessEnv) (response_json : string -> option TokenResponse)
    (net : Network) (w : World) (tok : string) (expiry : Z) :
  consistent (self w) ->
  accessToken (self w) = Some tok ->
  tok <> "" ->
  tokenExpiry (self w) = Some expiry ->
  0 <= clock w ->
  let outcome := run net (getAccessToken env response_json) w in
  (clock w < expiry - 300000 -> outcome = (Returned tok, w))
  /\ (expiry - 300000 <= clock w ->
      forall t, fst outcome = Returned t ->
        exists req response dt token,
          sent (snd outcome) = sent w ++ [req]
          /\ net (length (sent w)) req = (Resolved response, dt)
          /\ ok response = true
          /\ response_json (text response) = Some token
          /\ t = access_token token).
Proof.
  intros Hinv Htok Hne Hexp Hclock outcome.
  destruct Hinv as [Hc Hu]; [rewrite Htok; discriminate|].
  split.
  - intros Hlt. unfold outcome. apply getAccessToken_hit; [exact Hc|].
    unfold fresh_token, REFRESH_SKEW_MS. rewrite Htok, Hexp.
    assert (JS.truthy_string tok = true) as -> by (destruct tok; [congruence|reflexivity]).
    assert (JS.truthy_Z expiry = true) as ->
      by (unfold JS.truthy_Z; destruct (Z.eqb_spec expiry 0); [lia|reflexivity]).
    destruct (Z.ltb_spec (clock w) (expiry - 300000)); [reflexivity|lia].
  - intros Hge t Hret.
    assert (Hf : fresh_token (self w) (clock w) = None).
    { unfold fresh_token, REFRESH_SKEW_MS. rewrite Htok, Hexp.
      destruct (Z.ltb_spec (clock w) (expiry - 300000)); [lia|].
      now rewrite andb_false_r. }
    destruct (getAccessToken_pinned env response_json net w Hc Hf Hu) as [Hs Hm].
    fold outcome in Hs, Hm.
    set (req := token_request (self w) (or_empty (baseUrl (self w)))) in *.
    unfold token_of in Hm.
    destruct (net (length (sent w)) req) as [[e|response] dt] eqn:Hnet; cbn [fst] in Hm.
    + destruct Hm as [[e' He'] _]. congruence.
    + destruct (ok response) eqn:Hok.
      * destruct (response_json (text response)) as [token|] eqn:Hj.
        -- destruct Hm as [Hr _]. exists req, response, dt, token.
           repeat split; try assumption. congruence.
        -- destruct Hm as [[e' He'] _]. congruence.
      * destruct Hm as [[e' He'] _]. congruence.
Qed.

Lemma C2_cached_token_reused_witness :
  run net_down (getAccessToken sample_env sample_json) cached_world
  = (Returned "tok-0", cached_world).
Proof.
  assert (Hinv : consistent (self cached_world))
    by (intros _; split; reflexivity).
  assert (Hne : "tok-0" <> "") by discriminate.
  destruct (C2_cached_token_reused sample_env sample_json net_down cached_world
              "tok-0" 1700003600000 Hinv eq_refl Hne eq_refl) as [Hhit _].
  - cbn. lia.
  - apply Hhit. cbn. lia.
Defined.

(** * Concurrent callers *)

Lemma advance_bind {A B : Type} (p : Prog A) (f : A -> Prog B) (w : World) :
  advance (bind p f) w =
  match advance p w with
  | (Settled (Returned a), w') => advance (f a) w'
  | (Settled (Thrown e), w') => (Settled (Thrown e), w')
  | (Awaiting req k, w') => (Awaiting req (fun r => bind (k r) f), w')
  end.
Proof.
  revert w; induction p as [a|e|k IH|k IH|g k IH|req k IH]; intros w; cbn [bind advance];
    try reflexivity; apply IH.
Qed.

Lemma advance_try_catch {A : Type} (p : Prog A) (h : Exn -> Prog A) (w : World) :
  advance (try_catch p h) w =
  match advance p w with
  | (Settled (Returned a), w') => (Settled (Returned a), w')
  | (Settled (Thrown e), w') => advance (h e) w'
  | (Awaiting req k, w') => (Awaiting req (fun r => try_catch (k r) h), w')
  end.
Proof.
  revert w; induction p as [a|e|k IH|k IH|g k IH|req k IH]; intros w;
    cbn [try_catch advance]; try reflexivity; apply IH.
Qed.

Lemma advance_cached_token (w : World) :
  advance cached_token w = (Settled (Returned (fresh_token (self w) (clock w))), w).
Proof.
  unfold cached_token, fresh_token, this, date_now. cbn [bind advance].
  destruct (accessToken (self w)) as [tok|]; [|reflexivity].
  destruct (tokenExpiry (self w)) as [expiry|]; [|reflexivity].
  destruct (JS.truthy_string tok && JS.truthy_Z expiry); cbn; reflexivity.
Qed.

Section Callers.

Variable env : ProcessEnv.
Variable response_json : string -> option TokenResponse.

(** A call that misses the cache parks on a token request to the first
    endpoint, having changed nothing but the log; when that request is
    answered with a token, the call returns this very token. *)
Lemma getAccessToken_parks (w : World) :
  isConfigured (self w) = true ->
  fresh_token (self w) (clock w) = None ->
  let req := token_request (self w) (first_endpoint env (self w)) in
  exists k,
    advance (getAccessToken env response_json) w
      = (Awaiting req k, mkWorld (self w) (clock w) (sent w ++ [req]))
    /\ forall response token w',
         ok response = true ->
         response_json (text response) = Some token ->
         fst (advance (k (Resolved response)) w') = Settled (Returned (access_token token)).
Proof.
  intros Hc Hf. cbn zeta. unfold getAccessToken, this, first_endpoint.
  cbn [bind advance]. rewrite Hc. cbn [negb].
  rewrite advance_bind, advance_cached_token, Hf. cbn [bind advance].
  destruct (unresolved (self w)) eqn:Hu.
  - pose proof (candidates_nonempty env) as Hne.
    destruct (getCandidateBaseUrls env) as [|c rest]; [congruence|]. clear Hne.
    cbn [sweep hd]. rewrite advance_try_catch, advance_bind.
    unfold requestToken, this, fetch. cbn [bind advance].
    eexists. split; [reflexivity|].
    intros response token w' Hok Hj. cbv beta iota.
    rewrite Hok, Hj. reflexivity.
  - rewrite advance_bind.
    unfold requestToken, this, fetch. cbn [bind advance].
    eexists. split; [reflexivity|].
    intros response token w' Hok Hj. cbv beta iota.
    rewrite Hok, Hj. reflexivity.
Qed.

End Callers.

(** Callers that park without touching the object or the clock pile up: one
    task and one request each. *)
Lemma spawn_n_parked {A : Type} (p : Prog A) (o : NinjaOneAPI) (c : Z)
    (req : HttpRequest) (k : FetchResult -> Prog A) :
  advance p (mkWorld o c []) = (Awaiting req k, mkWorld o c [req]) ->
  forall (n : nat) (tasks : list (Task A)) (s : list HttpRequest),
    spawn_n n p (tasks, mkWorld o c s)
    = (tasks ++ replicate n (Awaiting req k), mkWorld o c (s ++ replicate n req)).
Proof.
  intros Hp n. induction n as [|n IH]; intros tasks s.
  - cbn. now rewrite !app_nil_r.
  - cbn [spawn_n replicate]. unfold spawn at 1. cbn [fst snd].
    rewrite advance_sent, Hp. cbn [self clock sent].
    rewrite IH. rewrite <- !app_assoc. reflexivity.
Qed.

(** C3, as the code has it (no collapse of concurrent refreshes).  When [n]
    callers invoke [getAccessToken] while the cache holds no usable token and
    before any response has arrived, every caller starts an acquisition of
    its own: [n] token requests leave for the first endpoint (the first
    candidate, or the pinned endpoint), one per caller, each caller is parked
    on its own request, and when the request of caller [i] is answered with a
    token, caller [i] returns that token. *)
Theorem C3_each_caller_acquires
    (env : ProcessEnv) (response_json : string -> option TokenResponse)
    (n : nat) (w : World) :
  isConfigured (self w) = true ->
  fresh_token (self w) (clock w) = None ->
  let req := token_request (self w) (first_endpoint env (self w)) in
  let l := spawn_n n (getAccessToken env response_json) ([], w) in
  sent (snd l) = sent w ++ replicate n req
  /\ self (snd l) = self w
  /\ length (fst l) = n
  /\ forall i, (i < n)%nat ->
       (exists k, fst l !! i = Some (Awaiting req k))
       /\ forall response token t,
            ok response = true ->
            response_json (text response) = Some token ->
            fst (settle i (Resolved response) t l) !! i
            = Some (Settled (Returned (access_token token))).
Proof.
  intros Hc Hf req l.
  destruct (getAccessToken_parks env response_json
              (mkWorld (self w) (clock w) []) Hc Hf) as (k & Hk & Hans).
  cbn [self clock sent app] in Hk. fold req in Hk.
  assert (Hl : l = (replicate n (Awaiting req k),
                    mkWorld (self w) (clock w) (sent w ++ replicate n req))).
  { unfold l. destruct w as [o c s]. cbn [self clock sent] in *.
    now rewrite (spawn_n_parked _ o c req k Hk n [] s). }
  rewrite Hl. cbn [fst snd self sent].
  split; [reflexivity|]. split; [reflexivity|].
  split; [apply length_replicate|].
  intros i Hi.
  assert (Hi' : replicate n (Awaiting req k) !! i = Some (Awaiting req k))
    by now apply lookup_replicate_2.
  split; [eauto|].
  intros response token t Hok Hj.
  unfold settle. cbn [fst snd]. rewrite Hi'.
  specialize (Hans response token
                (mkWorld (self w) t (sent w ++ replicate n req)) Hok Hj).
  cbn [self sent].
  destruct (advance (k (Resolved response)) _) as [task w'].
  cbn [fst] in *. subst task.
  apply list_lookup_insert_eq. now rewrite length_replicate.
Qed.

Lemma C3_each_caller_acquires_witness :
  map req_url
    (sent (snd (spawn_n 3 (getAccessToken sample_env sample_json) ([], sample_world))))
  = [ "https://app.ninjarmm.com/ws/oauth/token";
      "https://app.ninjarmm.com/ws/oauth/token";
      "https://app.ninjarmm.com/ws/oauth/token" ].
Proof.
  destruct (C3_each_caller_acquires sample_env sample_json 3 sample_world
              eq_refl eq_refl) as (Hs & _).
  rewrite Hs. reflexivity.
Defined.

(** C3 as stated fails: two callers that find the cache empty send two token
    requests to the first candidate, where a shared acquisition would send
    one; and when both requests have failed, so that the first candidate is
    exhausted, each caller goes on to the second candidate by itself: two
    attempts per candidate, one per caller. *)
Lemma C3_two_callers_two_requests :
  let l := spawn_n 2 (getAccessToken sample_env sample_json) ([], sample_world) in
  let l' := settle 1 (Rejected (Error "fetch failed")) 1700000000020
              (settle 0 (Rejected (Error "fetch failed")) 1700000000010 l) in
  map req_url (sent (snd l))
  = [ "https://app.ninjarmm.com/ws/oauth/token";
      "https://app.ninjarmm.com/ws/oauth/token" ]
  /\ ~ NoDup (sent (snd l))
  /\ map req_url (sent (snd l'))
     = [ "https://app.ninjarmm.com/ws/oauth/token";
         "https://app.ninjarmm.com/ws/oauth/token";
         "https://us2.ninjarmm.com/ws/oauth/token";
         "https://us2.ninjarmm.com/ws/oauth/token" ].
Proof.
  split; [reflexivity|]. split; [|reflexivity].
  intros H. apply NoDup_cons in H as [Hin _]. apply Hin. left.
Qed.

(** * The allow-list *)

Lemma append_nil (s : string) : "" +:+ s = s.
Proof. reflexivity. Qed.

Lemma append_cons (c : ascii) (s t : string) : String c s +:+ t = String c (s +:+ t).
Proof. reflexivity. Qed.

Lemma strip_prefix_spec (p s rest : string) :
  JS.strip_prefix p s = Some rest <-> s = p +:+ rest.
Proof.
  revert s. induction p as [|a p IH]; intros s; cbn.
  - split; [intros [= ->]; reflexivity | intros ->; reflexivity].
  - destruct s as [|b s].
    + split; discriminate.
    + destruct (Ascii.eqb_spec a b) as [->|Hne].
      * rewrite IH. split; [intros ->; reflexivity | intros [= ->]; reflexivity].
      * split; [discriminate|]. intros [= Hab _]. congruence.
Qed.

Lemma take_drop_while (f : ascii -> bool) (s : string) :
  s = JS.take_while f s +:+ JS.drop_while f s.
Proof.
  induction s as [|c s IH]; cbn; [reflexivity|].
  destruct (f c); [exact (f_equal (String c) IH) | reflexivity].
Qed.

Lemma take_while_all (f : ascii -> bool) (s : string) :
  JS.all_chars f (JS.take_while f s) = true.
Proof.
  induction s as [|c s IH]; cbn; [reflexivity|].
  destruct (f c) eqn:E; cbn; [now rewrite E | reflexivity].
Qed.

(** A run of class characters followed by a character outside the class is
    split exactly there. *)
Lemma while_split (f : ascii -> bool) (sub : string) (c : ascii) (rest : string) :
  JS.all_chars f sub = true -> f c = false ->
  JS.take_while f (sub +:+ String c rest) = sub
  /\ JS.drop_while f (sub +:+ String c rest) = String c rest.
Proof.
  intros Hall Hc. induction sub as [|a sub IH].
  - rewrite append_nil. cbn. now rewrite Hc.
  - cbn in Hall. apply andb_true_iff in Hall as [Ha Hall].
    rewrite append_cons. cbn [JS.take_while JS.drop_while]. rewrite Ha.
    destruct (IH Hall) as [-> ->]. auto.
Qed.

Lemma is_empty_spec (s : string) : JS.is_empty s = true <-> s = "".
Proof. destruct s; cbn; split; congruence. Qed.

(** The executable test is the pattern. *)
Lemma ALLOWED_DOMAIN_PATTERN_spec (u : string) :
  ALLOWED_DOMAIN_PATTERN_test u = true <->
  exists sub : string,
    sub <> "" /\ JS.all_chars domain_char sub = true
    /\ u = "https://" +:+ sub +:+ ".ninjarmm.com".
Proof.
  unfold ALLOWED_DOMAIN_PATTERN_test. split.
  - destruct (JS.strip_prefix "https://" u) as [rest|] eqn:E; [|discriminate].
    apply strip_prefix_spec in E. intros H.
    apply andb_true_iff in H as [Hne Htail].
    apply String.eqb_eq in Htail.
    exists (JS.take_while domain_char rest). split; [|split].
    + intros Hemp. apply is_empty_spec in Hemp. rewrite Hemp in Hne. discriminate.
    + apply take_while_all.
    + rewrite <- Htail, <- take_drop_while. exact E.
  - intros (sub & Hne & Hall & ->).
    assert (E : JS.strip_prefix "https://" ("https://" +:+ sub +:+ ".ninjarmm.com")
                = Some (sub +:+ ".ninjarmm.com")) by now apply strip_prefix_spec.
    rewrite E.
    destruct (while_split domain_char sub "." "ninjarmm.com" Hall eq_refl) as [Ht Hd].
    change (String "." "ninjarmm.com") with ".ninjarmm.com" in *.
    rewrite Ht, Hd. apply andb_true_iff. split.
    + destruct sub; [congruence|reflexivity].
    + reflexivity.
Qed.

Lemma includes_spec (xs : list string) (x : string) :
  JS.includes xs x = true <-> In x xs.
Proof.
  unfold JS.includes. rewrite existsb_exists. split.
  - intros (y & Hin & Heq). apply String.eqb_eq in Heq. now subst.
  - intros Hin. exists x. split; [exact Hin | apply String.eqb_refl].
Qed.

Lemma spec_allowed_test (u : string) :
  spec_allowed u <->
  JS.includes REGION_MAP_values u || ALLOWED_DOMAIN_PATTERN_test u = true.
Proof.
  unfold spec_allowed.
  rewrite orb_true_iff, includes_spec, ALLOWED_DOMAIN_PATTERN_spec. reflexivity.
Qed.

Lemma run_setBaseUrl (net : Network) (url : string) (w : World) :
  run net (setBaseUrl url) w =
  if JS.includes REGION_MAP_values (normalizeBaseUrl url)
     || ALLOWED_DOMAIN_PATTERN_test (normalizeBaseUrl url)
  then (Returned tt,
        mkWorld (mkAPI (Some (normalizeBaseUrl url)) (clientId (self w))
                       (clientSecret (self w)) None None (isConfigured (self w)) true)
                (clock w) (sent w))
  else (Thrown (Error (invalid_base_url_message (normalizeBaseUrl url))), w).
Proof.
  unfold setBaseUrl.
  destruct (JS.includes _ _); destruct (ALLOWED_DOMAIN_PATTERN_test _); reflexivity.
Qed.

(** C4 (allow-list).  [setBaseUrl] succeeds exactly when the normalized URL
    is a known region base URL or matches [https://<subdomain>.ninjarmm.com];
    it then sends nothing.  For any other URL it throws and leaves the whole
    world as it was: no request is sent, and endpoint, token and expiry are
    untouched.  [setRegion] either throws in the same way or pins an allowed
    endpoint.  In particular [https://evil.example.com] is refused and
    [https://eu.ninjarmm.com] is accepted. *)
Theorem C4_allow_list_enforced (net : Network) (url : string) (w : World) :
  (spec_allowed (normalizeBaseUrl url) <->
   exists w', run net (setBaseUrl url) w = (Returned tt, w'))
  /\ (forall w', run net (setBaseUrl url) w = (Returned tt, w') -> sent w' = sent w)
  /\ (~ spec_allowed (normalizeBaseUrl url) ->
      run net (setBaseUrl url) w
      = (Thrown (Error (invalid_base_url_message (normalizeBaseUrl url))), w))
  /\ (forall region,
        (exists e, run net (setRegion region) w = (Thrown e, w))
        \/ (exists w', run net (setRegion region) w = (Returned tt, w')
                       /\ sent w' = sent w
                       /\ spec_allowed (or_empty (baseUrl (self w')))))
  /\ (exists e, run net (setBaseUrl "https://evil.example.com") w = (Thrown e, w))
  /\ (exists w', run net (setBaseUrl "https://eu.ninjarmm.com") w = (Returned tt, w')).
Proof.
  repeat split.
  - intros H. apply spec_allowed_test in H. rewrite run_setBaseUrl, H. eauto.
  - intros [w' H]. apply spec_allowed_test. rewrite run_setBaseUrl in H.
    destruct (_ || _); [reflexivity|discriminate].
  - intros w' H. rewrite run_setBaseUrl in H.
    destruct (_ || _); [|discriminate]. injection H as <-. reflexivity.
  - intros Hno. rewrite run_setBaseUrl.
    destruct (_ || _) eqn:E; [|reflexivity].
    exfalso. apply Hno. now apply spec_allowed_test.
  - intros region. unfold setRegion, REGION_MAP_get.
    set (key := JS.toLowerCase region). cbn [own_property REGION_MAP].
    repeat (match goal with
            | |- context [String.eqb ?a key] => destruct (String.eqb a key)
            | |- context [String.eqb key ?a] => destruct (String.eqb key a)
            end;
            [ first [ right; eexists; split; [reflexivity|];
                      split; [reflexivity|]; left; cbn; tauto
                    | left; eexists; reflexivity ] | ]).
    left. eexists. reflexivity.
  - eexists. reflexivity.
  - eexists. reflexivity.
Qed.

Lemma normalizeBaseUrl_nonempty (url : string) :
  JS.truthy_string (normalizeBaseUrl url) = true.
Proof.
  unfold normalizeBaseUrl.
  destruct (has_http_scheme url) eqn:E; cbn [negb].
  - destruct url; [discriminate E | reflexivity].
  - reflexivity.
Qed.

(** C5 (pinning invalidates the token).  A successful [setBaseUrl] leaves no
    cached token and no expiry, and the normalized URL [X] as the explicit
    endpoint.  When the object is still as [setBaseUrl] left it, that is,
    when no token was on its way while [setBaseUrl] ran, the next
    [getAccessToken], whenever it happens and whatever the network answers,
    sends exactly one request, the token request to [X], if credentials are
    configured, and none otherwise; [X] is still the explicit endpoint
    afterwards. *)
Theorem C5_pin_clears_token_and_targets_endpoint
    (env : ProcessEnv) (response_json : string -> option TokenResponse)
    (net : Network) (url : string) (w w1 : World) :
  run net (setBaseUrl url) w = (Returned tt, w1) ->
  let X := normalizeBaseUrl url in
  accessToken (self w1) = None
  /\ tokenExpiry (self w1) = None
  /\ baseUrl (self w1) = Some X
  /\ baseUrlExplicit (self w1) = true
  /\ forall (net' : Network) (gap : Z),
       let next := run net' (getAccessToken env response_json) (tick gap w1) in
       sent (snd next)
       = sent w1 ++ (if isConfigured (self w1) then [token_request (self w1) X] else [])
       /\ baseUrl (self (snd next)) = Some X
       /\ baseUrlExplicit (self (snd next)) = true.
Proof.
  intros Hset X. rewrite run_setBaseUrl in Hset.
  destruct (_ || _); [|discriminate]. injection Hset as <-.
  cbn [self accessToken tokenExpiry baseUrl baseUrlExplicit isConfigured].
  do 4 (split; [reflexivity|]).
  intros net' gap.
  set (w1 := mkWorld _ (clock w) (sent w)) in *.
  set (next := run net' (getAccessToken env response_json) (tick gap w1)).
  assert (Hu : unresolved (self (tick gap w1)) = false).
  { unfold unresolved. cbn [tick self w1 baseUrl baseUrlExplicit or_empty].
    unfold w1. cbn [self baseUrl baseUrlExplicit or_empty].
    now rewrite (normalizeBaseUrl_nonempty url). }
  destruct (getAccessToken_keeps_pin env response_json net' (tick gap w1) Hu)
    as (Hb & He & _).
  cbn zeta in Hb, He. fold next in Hb, He.
  split; [|split; [rewrite Hb; reflexivity | rewrite He; reflexivity]].
  destruct (isConfigured (self w)) eqn:Hc.
  - assert (Hf : fresh_token (self (tick gap w1)) (clock (tick gap w1)) = None)
      by reflexivity.
    destruct (getAccessToken_pinned env response_json net' (tick gap w1) eq_refl Hf Hu)
      as [Hs _].
    exact Hs.
  - unfold next.
    rewrite (getAccessToken_unconfigured env response_json net' (tick gap w1) eq_refl).
    cbn. now rewrite app_nil_r.
Qed.

Lemma C5_pin_clears_token_and_targets_endpoint_witness :
  let w1 := snd (run net_down (setBaseUrl "eu.ninjarmm.com") cached_world) in
  accessToken (self w1) = None
  /\ map req_url (sent (snd (run net_up (getAccessToken sample_env sample_json)
                               (tick 1000 w1))))
     = ["https://eu.ninjarmm.com/ws/oauth/token"].
Proof.
  cbn zeta.
  destruct (C5_pin_clears_token_and_targets_endpoint sample_env sample_json net_down
              "eu.ninjarmm.com" cached_world
              (snd (run net_down (setBaseUrl "eu.ninjarmm.com") cached_world)) eq_refl)
    as (Ht & _ & _ & _ & Hnext).
  split; [exact Ht|].
  destruct (Hnext net_up 1000) as (Hs & _).
  rewrite Hs. reflexivity.
Defined.

(** * Upstream calls *)

Section UpstreamFacts.

Variable env : ProcessEnv.
Variable response_json : string -> option TokenResponse.
Variable JSON_parse : string -> option JsVal.
Variable net : Network.

(** [makeRequest] once the token is there and [fetch] has resolved. *)
Lemma run_makeRequest_resolved (endpoint method : string) (body : JsVal)
    (w w1 : World) (token : string) (response : Response) (dt : Z) :
  run net (getAccessToken env response_json) w = (Returned token, w1) ->
  net (length (sent w1)) (api_request (request_base (self w1)) endpoint method token body)
    = (Resolved response, dt) ->
  fst (run net (makeRequest env response_json JSON_parse endpoint method body) w) =
  if negb (ok response) then Thrown (Error (request_failed_message response))
  else if String.eqb method "DELETE" && (status response =? 204) then Returned success_marker
  else if negb (JS.truthy_string (text response))
          || (String.length (JS.trim (text response)) =? 0)%nat
       then Returned success_marker
       else match JSON_parse (text response) with
            | Some v => Returned v
            | None => Returned success_marker
            end.
Proof.
  intros Htok Hnet. unfold makeRequest, this, fetch.
  rewrite run_bind, Htok. cbn [bind run]. fold (request_base (self w1)).
  rewrite Hnet.
  destruct (negb (ok response)); [reflexivity|].
  destruct (String.eqb method "DELETE" && (status response =? 204)); [reflexivity|].
  destruct (negb (JS.truthy_string (text response)) || _); [reflexivity|].
  destruct (JSON_parse (text response)); reflexivity.
Qed.

End UpstreamFacts.



(** C9, as the code has it.  When the token is there and the upstream
    answers with a status outside 200..299, [makeRequest] throws an [Error]
    whose message is ["API request failed: "], the status code, the status
    text, [" - "] and the response body, whole. *)
Theorem C9_failure_carries_status_and_whole_body
    (env : ProcessEnv) (response_json : string -> option TokenResponse)
    (JSON_parse : string -> option JsVal) (net : Network)
    (endpoint method : string) (body : JsVal)
    (w w1 : World) (token : string) (response : Response) (dt : Z) :
  run net (getAccessToken env response_json) w = (Returned token, w1) ->
  net (length (sent w1)) (api_request (request_base (self w1)) endpoint method token body)
    = (Resolved response, dt) ->
  ok response = false ->
  fst (run net (makeRequest env response_json JSON_parse endpoint method body) w)
  = Thrown (Error ("API request failed: " +:+ JS.of_Z (status response) +:+ " "
                   +:+ statusText response +:+ " - " +:+ text response)).
Proof.
  intros Htok Hnet Hok.
  rewrite (run_makeRequest_resolved env response_json JSON_parse net endpoint method body
             w w1 token response dt Htok Hnet).
  rewrite Hok. reflexivity.
Qed.

Lemma C9_failure_carries_status_and_whole_body_witness :
  fst (run (net_500 "device not found")
         (makeRequest sample_env sample_json no_json "/v2/device/7" "GET" VUndefined)
         sample_world)
  = Thrown (Error "API request failed: 500 Internal Server Error - device not found").
Proof.
  exact (C9_failure_carries_status_and_whole_body sample_env sample_json no_json
           (net_500 "device not found") "/v2/device/7" "GET" VUndefined sample_world
           (snd (run (net_500 "device not found")
                   (getAccessToken sample_env sample_json) sample_world))
           "tok-1" (mkResponse 500 "Internal Server Error" "device not found") 10
           eq_refl eq_refl eq_refl).
Defined.

Lemma length_append (s t : string) :
  String.length (s +:+ t) = (String.length s + String.length t)%nat.
Proof.
  induction s as [|c s IH]; [reflexivity|].
  rewrite append_cons. cbn [String.length]. now rewrite IH.
Qed.

Lemma length_filler (n : nat) : String.length (filler n) = n.
Proof. induction n as [|n IH]; cbn; [reflexivity | now rewrite IH]. Qed.

(** C9 as stated fails: nothing is cut off the body.  If the error carried a
    truncated form of the body, the length of its message would be bounded
    whatever the upstream sends; a status 500 with a body of [limit + 1]
    letters yields a message longer than [limit]. *)
Lemma C9_body_not_truncated :
  ~ exists limit : nat, forall (body : string) (e : Exn),
      fst (run (net_500 body)
             (makeRequest sample_env sample_json no_json "/v2/devices" "GET" VUndefined)
             sample_world) = Thrown e ->
      (String.length (message_of e) <= limit)%nat.
Proof.
  intros [limit H].
  specialize (H (filler (S limit))
                (Error (request_failed_message
                          (mkResponse 500 "Internal Server Error" (filler (S limit)))))).
  assert (Hlen : (String.length
                    (message_of
                       (Error (request_failed_message
                                 (mkResponse 500 "Internal Server Error" (filler (S limit))))))
                  <= limit)%nat).
  { apply H.
    apply (run_makeRequest_resolved sample_env sample_json no_json
             (net_500 (filler (S limit))) "/v2/devices" "GET" VUndefined sample_world
             (snd (run (net_500 (filler (S limit)))
                     (getAccessToken sample_env sample_json) sample_world))
             "tok-1" (mkResponse 500 "Internal Server Error" (filler (S limit))) 10);
      reflexivity. }
  unfold message_of, request_failed_message in Hlen. cbn [status statusText text] in Hlen.
  rewrite !length_append, length_filler in Hlen. lia.
Qed.

(** * Maintenance windows *)

Lemma own_unit_spec (s : string) (u : MaintenanceUnit) :
  own_unit s = Some u <-> s = unit_name u.
Proof.
  unfold own_unit.
  destruct (String.eqb_spec s "MINUTES") as [->|H1].
  { destruct u; cbn; split; congruence. }
  destruct (String.eqb_spec s "HOURS") as [->|H2].
  { destruct u; cbn; split; congruence. }
  destruct (String.eqb_spec s "DAYS") as [->|H3].
  { destruct u; cbn; split; congruence. }
  destruct (String.eqb_spec s "WEEKS") as [->|H4].
  { destruct u; cbn; split; congruence. }
  split; [discriminate|]. intros ->. destruct u; cbn in *; congruence.
Qed.

Lemma positive_spec (q : Q) : negb (Qle_bool q 0) = true <-> (0 < q)%Q.
Proof.
  rewrite negb_true_iff. split.
  - intros H. apply Qnot_le_lt. intros Hle. apply Qle_bool_iff in Hle. congruence.
  - intros H. destruct (Qle_bool q 0) eqn:E; [|reflexivity].
    apply Qle_bool_iff in E. apply Qlt_not_le in H. contradiction.
Qed.

Section MaintenanceFacts.

Variable env : ProcessEnv.
Variable response_json : string -> option TokenResponse.
Variable JSON_parse : string -> option JsVal.
Variable number_toString : number -> string.

Variable String_toUpperCase : string -> string.

(** What the validation block makes of a duration that is not permanent. *)
Lemma select_duration_window (duration : JsVal) :
  member "permanent" duration <> VBool true ->
  (forall x u, valid_window String_toUpperCase duration x u ->
     select_duration String_toUpperCase duration
     = Ret (Some (Window (Finite x) u
                    (Math_round_number (double_times x (MAINTENANCE_UNIT_SECONDS u))))))
  /\ ((~ exists x u, valid_window String_toUpperCase duration x u) ->
      exists msg,
        select_duration String_toUpperCase duration = Throw (McpError InvalidParams msg)).
Proof.
  intros Hperm.
  assert (Hp : match member "permanent" duration with VBool true => true | _ => false end
               = false).
  { destruct (member "permanent" duration) as [| |[|]| | | |]; try reflexivity.
    congruence. }
  split.
  - intros x u ((n & Hv & Hn) & Hpos & (s & Hs & Hu) & Hlen).
    destruct duration as [| |b|n0|s0|items|props]; try discriminate Hv.
    unfold select_duration. cbn [typeof String.eqb negb].
    change (String.eqb "object" "object") with true. cbn [negb].
    rewrite Hp, Hv, Hn, Hs.
    apply positive_spec in Hpos. rewrite Hpos.
    apply own_unit_spec in Hu. rewrite Hu.
    change (15 * 60) with 900. now rewrite Hlen.
  - intros Hno.
    destruct duration as [| |b|n0|s0|items|props];
      try (eexists; reflexivity).
    unfold select_duration. cbn [typeof]. change (String.eqb "object" "object") with true.
    cbn [negb]. rewrite Hp.
    destruct (member "value" (VObj props)) as [| |b|n|s0|items|props'] eqn:Hv;
      try (eexists; reflexivity).
    destruct (as_double n) as [|neg|x] eqn:Hn; try (eexists; reflexivity).
    destruct (negb (Qle_bool x 0)) eqn:Hpos; [|eexists; reflexivity].
    set (unit := match member "unit" (VObj props) with
                 | VStr s => String_toUpperCase s | _ => "" end).
    destruct (own_unit unit) as [u|] eqn:Hu; [|eexists; reflexivity].
    change (15 * 60) with 900.
    destruct (less_than (Math_round_number (double_times x (MAINTENANCE_UNIT_SECONDS u))) 900)
      eqn:Hlen; [eexists; reflexivity|].
    exfalso. apply Hno. exists x, u. unfold valid_window.
    split; [now exists n|]. split; [now apply positive_spec|]. split; [|exact Hlen].
    apply own_unit_spec in Hu. unfold unit in Hu.
    destruct (member "unit" (VObj props)) as [| |b|n1|s|items|props'];
      try (destruct u; discriminate Hu).
    exists s. auto.
Qed.

End MaintenanceFacts.

(** [makeRequest] sends one request of its own once the token is there. *)
Lemma run_makeRequest_sent (env : ProcessEnv)
    (response_json : string -> option TokenResponse)
    (JSON_parse : string -> option JsVal) (net : Network)
    (endpoint method : string) (body : JsVal) (w w1 : World) (token : string) :
  run net (getAccessToken env response_json) w = (Returned token, w1) ->
  sent (snd (run net (makeRequest env response_json JSON_parse endpoint method body) w))
  = sent w1 ++ [api_request (request_base (self w1)) endpoint method token body].
Proof.
  intros Htok. unfold makeRequest, this, fetch.
  rewrite run_bind, Htok. cbn [bind run]. fold (request_base (self w1)).
  destruct (net (length (sent w1)) _) as [[e|response] dt]; [reflexivity|].
  destruct (negb (ok response)); [reflexivity|].
  destruct (String.eqb method "DELETE" && (status response =? 204)); [reflexivity|].
  destruct (negb (JS.truthy_string (text response)) || _); [reflexivity|].
  destruct (JSON_parse (text response)); reflexivity.
Qed.

(** X24 (what the router case checks).  For a numeric device id: with mode
    ['ON'] and a duration that is not permanent, the case
    ['set_device_maintenance'] of [callAPIMethod] throws
    [McpError(InvalidParams)] without any effect, so without an upstream
    call, unless the duration describes a valid window: its value is a
    finite positive number; its unit, put in upper case by the platform, is
    one of the four names; and the product of the value and the unit's
    seconds, computed in doubles and rounded to a whole number, is at least
    900.  Then it goes on to [setDeviceMaintenance] with that window.  With
    mode ['OFF'] it is [makeRequest] of a DELETE on the device's maintenance
    path, whatever [duration] holds, and that DELETE is the request sent
    once the token is there. *)
Theorem set_device_maintenance_validates
    (env : ProcessEnv) (response_json : string -> option TokenResponse)
    (JSON_parse : string -> option JsVal) (number_toString : number -> string)
    (String_toUpperCase : string -> string)
    (args : JsVal) (id : number) :
  member "id" args = VNum id ->
  let call := set_device_maintenance env response_json JSON_parse number_toString
                String_toUpperCase args in
  let duration := member "duration" args in
  (member "mode" args = VStr "ON" ->
   member "permanent" duration <> VBool true ->
   ((~ exists x u, valid_window String_toUpperCase duration x u) ->
    exists msg, forall (net : Network) (w : World),
      run net call w = (Thrown (McpError InvalidParams msg), w))
   /\ (forall x u, valid_window String_toUpperCase duration x u ->
       call = setDeviceMaintenance env response_json JSON_parse number_toString id "ON"
                (Some (Window (Finite x) u
                         (Math_round_number (double_times x (MAINTENANCE_UNIT_SECONDS u)))))))
  /\ (member "mode" args = VStr "OFF" ->
      call = makeRequest env response_json JSON_parse
               (maintenance_path number_toString id) "DELETE" VUndefined
      /\ forall (net : Network) (w w1 : World) (token : string),
           run net (getAccessToken env response_json) w = (Returned token, w1) ->
           sent (snd (run net call w))
           = sent w1
             ++ [mkRequest (request_base (self w1) +:+ maintenance_path number_toString id)
                   "DELETE"
                   [("Authorization", "Bearer " +:+ token); ("Accept", "*/*")]
                   NoBody]).
Proof.
  intros Hid call duration. split.
  - intros Hmode Hperm.
    destruct (select_duration_window String_toUpperCase duration Hperm) as [Hvalid Hinvalid].
    split.
    + intros Hno. destruct (Hinvalid Hno) as [msg Hmsg]. exists msg. intros net w.
      unfold call, set_device_maintenance. rewrite Hid, Hmode. cbn [String.eqb negb andb].
      change (String.eqb "ON" "ON") with true. cbn [negb andb].
      fold duration. rewrite Hmsg. reflexivity.
    + intros x u Hw.
      unfold call, set_device_maintenance. rewrite Hid, Hmode.
      change (String.eqb "ON" "ON") with true. cbn [negb andb].
      fold duration. rewrite (Hvalid x u Hw). reflexivity.
  - intros Hmode.
    assert (Hcall : call = makeRequest env response_json JSON_parse
                             (maintenance_path number_toString id) "DELETE" VUndefined).
    { unfold call, set_device_maintenance. rewrite Hid, Hmode. reflexivity. }
    split; [exact Hcall|].
    intros net w w1 token Htok. rewrite Hcall.
    rewrite (run_makeRequest_sent env response_json JSON_parse net _ _ _ w w1 token Htok).
    reflexivity.
Qed.

Lemma set_device_maintenance_validates_witness :
  let args := VObj [ ("id", num_Z 7); ("mode", VStr "ON");
                     ("duration", VObj [("value", num_Z 10); ("unit", VStr "minutes")]) ] in
  exists msg,
    run net_up
      (set_device_maintenance sample_env sample_json no_json no_number JS.toUpperCase args)
      sample_world
    = (Thrown (McpError InvalidParams msg), sample_world).
Proof.
  cbn zeta.
  destruct (set_device_maintenance_validates sample_env sample_json no_json no_number
              JS.toUpperCase
              (VObj [ ("id", num_Z 7); ("mode", VStr "ON");
                      ("duration", VObj [("value", num_Z 10); ("unit", VStr "minutes")]) ])
              (Finite (inject_Z 7)) eq_refl) as [Hon _].
  destruct (Hon eq_refl) as [Hreject _].
  - discriminate.
  - destruct Hreject as [msg Hmsg].
    + intros (x & u & (n & Hv & Hn) & _ & (s & Hs & Hu) & Hlen).
      injection Hv as <-. injection Hs as <-.
      vm_compute in Hn. injection Hn as <-.
      destruct u; try discriminate Hu. vm_compute in Hlen. discriminate Hlen.
    + exists msg. apply Hmsg.
Defined.

(** The rejection as the protocol handler passes it on: [routeToolCall]
    catches the [InvalidParams] error and throws an [InternalError] whose
    message embeds it. *)
Remark rejection_reported_as_internal_error
    (env : ProcessEnv) (response_json : string -> option TokenResponse)
    (JSON_parse : string -> option JsVal) (number_toString : number -> string)
    (String_toUpperCase : string -> string)
    (args : JsVal) (msg : string) :
  set_device_maintenance env response_json JSON_parse number_toString String_toUpperCase args
    = Throw (McpError InvalidParams msg) ->
  call_tool_set_device_maintenance env response_json JSON_parse number_toString
    String_toUpperCase args
    = Throw (McpError InternalError ("API call failed: MCP error -32602: " +:+ msg)).
Proof.
  intros H. unfold call_tool_set_device_maintenance. rewrite H. reflexivity.
Qed.

(** C10 (the rejection of a maintenance window as the client gets it).  A
    window of five minutes fails the check of the router case, which throws
    [McpError(InvalidParams)] and makes no upstream call.  [routeToolCall],
    through which every invocation of the tool goes, catches that error and
    throws an [McpError] with code [InternalError] in its place; the handler
    lets it pass.  So the tool rejects the request with the internal-error
    code -32603, the invalid-params error being quoted in its message;
    nothing is sent. *)
Theorem C10_invalid_window_rejected_as_internal_error :
  let args := VObj [ ("id", num_Z 7); ("mode", VStr "ON");
                     ("duration", VObj [("value", num_Z 5); ("unit", VStr "MINUTES")]) ] in
  run net_up
    (set_device_maintenance sample_env sample_json no_json no_number JS.toUpperCase args)
    sample_world
  = (Thrown (McpError InvalidParams "Maintenance windows must be at least 15 minutes long"),
     sample_world)
  /\ run net_up
       (call_tool_set_device_maintenance sample_env sample_json no_json no_number
          JS.toUpperCase args)
       sample_world
     = (Thrown (McpError InternalError
                  ("API call failed: MCP error -32602: "
                   +:+ "Maintenance windows must be at least 15 minutes long")),
        sample_world)
  /\ code_number InternalError = -32603
  /\ code_number InvalidParams = -32602.
Proof. repeat split; vm_compute; reflexivity. Qed.

(** * The session registry *)

Lemma unary_uuid_length (n : nat) : String.length (unary_uuid n) = S n.
Proof. induction n as [|n IH]; cbn; [reflexivity | now rewrite IH]. Qed.

Lemma unary_uuid_inj (i j : nat) : unary_uuid i = unary_uuid j -> i = j.
Proof.
  intros H. apply (f_equal String.length) in H.
  rewrite !unary_uuid_length in H. lia.
Qed.

Section RegistryFacts.

Variable JSON_parse : string -> option JsVal.
Variable isInitializeRequest : JsVal -> bool.
Variable randomUUID : nat -> string.
Variable transport_initializes : Http.Request -> bool.

Local Abbreviation route :=
  (Http.mcp JSON_parse isInitializeRequest randomUUID transport_initializes).
Local Abbreviation step_ :=
  (Http.step JSON_parse isInitializeRequest randomUUID transport_initializes).
Local Abbreviation serve_ :=
  (Http.serve JSON_parse isInitializeRequest randomUUID transport_initializes).
Local Abbreviation init_ := (Http.initialize randomUUID transport_initializes).

(** The shapes a step can give the gateway. *)
Lemma step_cases (g : Http.Gateway) (ev : Http.Event) :
  step_ g ev = g
  \/ (exists sid, step_ g ev
                  = Http.mkGateway (delete sid (Http.transports g))
                      (Http.constructed g) (Http.minted g))
  \/ (exists req, step_ g ev = snd (init_ req g)).
Proof.
  destruct ev as [req|sid]; cbn [Http.step].
  - unfold Http.mcp.
    destruct (String.eqb (Http.method req) "POST").
    { destruct (_ || _); [now left|].
      destruct (isInitializeRequest _); [right; right; eauto|].
      destruct (Http.known_session _ g); now left. }
    destruct (String.eqb (Http.method req) "GET").
    { destruct (Http.known_session _ g); now left. }
    destruct (String.eqb (Http.method req) "DELETE"); [|now left].
    destruct (Http.known_session _ g); [right; left; eauto | now left].
  - unfold Http.onclose. destruct (JS.truthy_string sid); [right; left; eauto | now left].
Qed.

Lemma initialize_cases (req : Http.Request) (g : Http.Gateway) :
  let g' := snd (init_ req g) in
  Http.constructed g' = S (Http.constructed g)
  /\ ((Http.transports g' = Http.transports g /\ (Http.minted g <= Http.minted g')%nat)
      \/ (Http.transports g'
          = <[randomUUID (Http.minted g) := Http.constructed g]> (Http.transports g)
          /\ Http.minted g' = S (Http.minted g)
          /\ JS.truthy_string (randomUUID (Http.minted g)) = true)).
Proof.
  unfold Http.initialize. cbn zeta.
  destruct (transport_initializes req); cbn.
  - destruct (JS.truthy_string (randomUUID (Http.minted g))) eqn:E.
    + split; [reflexivity|]. right. auto.
    + split; [reflexivity|]. left. split; [reflexivity|lia].
  - split; [reflexivity|]. left. split; [reflexivity|lia].
Qed.

Lemma step_sound (g : Http.Gateway) (ev : Http.Event) :
  registry_sound randomUUID g -> registry_sound randomUUID (step_ g ev).
Proof.
  intros Hs.
  destruct (step_cases g ev) as [->|[(sid & ->)|(req & ->)]]; [exact Hs| |].
  - intros sid' t Hl. cbn in Hl.
    apply lookup_delete_Some in Hl as [_ Hl]. exact (Hs sid' t Hl).
  - destruct (initialize_cases req g) as (Hc & [(Ht & Hm)|(Ht & Hm & Hne)]);
      cbn zeta in *; intros sid' t Hl; rewrite Hc.
    + rewrite Ht in Hl. destruct (Hs sid' t Hl) as (Hlt & Htr & i & Hi & ->).
      split; [lia|]. split; [exact Htr|]. exists i. split; [lia|reflexivity].
    + rewrite Ht in Hl. rewrite Hm.
      apply lookup_insert_Some in Hl as [[<- <-]|[_ Hl]].
      * split; [lia|]. split; [exact Hne|]. exists (Http.minted g). split; [lia|reflexivity].
      * destruct (Hs sid' t Hl) as (Hlt & Htr & i & Hi & ->).
        split; [lia|]. split; [exact Htr|]. exists i. split; [lia|reflexivity].
Qed.

Lemma serve_sound (evs : list Http.Event) (g : Http.Gateway) :
  registry_sound randomUUID g -> registry_sound randomUUID (serve_ evs g).
Proof.
  revert g. induction evs as [|ev evs IH]; intros g Hs; [exact Hs|].
  cbn. apply IH. now apply step_sound.
Qed.

Lemma initial_sound : registry_sound randomUUID Http.initial.
Proof. intros sid t Hl. cbn in Hl. rewrite lookup_empty in Hl. discriminate. Qed.

(** An id minted earlier and absent from the registry stays absent, as long
    as [randomUUID] does not repeat itself. *)
Lemma step_stays_closed (g : Http.Gateway) (ev : Http.Event) (sid : string) (i : nat) :
  (forall a b, randomUUID a = randomUUID b -> a = b) ->
  (i < Http.minted g)%nat -> sid = randomUUID i ->
  Http.transports g !! sid = None ->
  (i < Http.minted (step_ g ev))%nat
  /\ Http.transports (step_ g ev) !! sid = None.
Proof.
  intros Hinj Hi Hsid Hnone.
  destruct (step_cases g ev) as [->|[(sid' & ->)|(req & ->)]]; [auto| |].
  - cbn. split; [exact Hi|]. apply lookup_delete_None. auto.
  - destruct (initialize_cases req g) as (_ & [(Ht & Hm)|(Ht & Hm & _)]);
      cbn zeta in *; rewrite Ht.
    + split; [lia|exact Hnone].
    + rewrite Hm. split; [lia|].
      rewrite lookup_insert_ne; [exact Hnone|].
      intros Heq. rewrite Hsid in Heq. apply Hinj in Heq. lia.
Qed.

Lemma serve_stays_closed (evs : list Http.Event) (g : Http.Gateway) (sid : string) (i : nat) :
  (forall a b, randomUUID a = randomUUID b -> a = b) ->
  (i < Http.minted g)%nat -> sid = randomUUID i ->
  Http.transports g !! sid = None ->
  Http.transports (serve_ evs g) !! sid = None.
Proof.
  intros Hinj. revert g. induction evs as [|ev evs IH]; intros g Hi Hsid Hnone; [exact Hnone|].
  cbn. destruct (step_stays_closed g ev sid i Hinj Hi Hsid Hnone) as [Hi' Hnone'].
  now apply IH.
Qed.

(** A request resolved through its session header and bearing an id that is
    not registered gets the invalid-session answer; nothing changes. *)
Lemma session_bound_unknown (req : Http.Request) (g : Http.Gateway) (sid : string) :
  Http.session_header req = Some sid ->
  Http.transports g !! sid = None ->
  Http.session_bound JSON_parse isInitializeRequest req = true ->
  route req g = (Http.invalid_session, g).
Proof.
  intros Hh Hnone Hb. unfold Http.session_bound in Hb. unfold Http.mcp.
  assert (Hk : Http.known_session (Http.session_header req) g = None).
  { unfold Http.known_session. rewrite Hh, Hnone. now destruct (JS.truthy_string sid). }
  destruct (String.eqb (Http.method req) "POST").
  - apply andb_true_iff in Hb as [Hne Hni].
    apply negb_true_iff in Hne, Hni. rewrite Hne, Hni, Hk. reflexivity.
  - destruct (String.eqb (Http.method req) "GET"); [now rewrite Hk|].
    cbn in Hb. rewrite Hb, Hk. reflexivity.
Qed.

End RegistryFacts.

(** C6, as the code has it (session lifecycle).  Provided [randomUUID] never
    returns the same value twice: once a registered session has been torn
    down through DELETE, its id is out of the registry and stays out
    whatever happens next, so no later session is registered under it; and
    every later request that the route resolves through the session header
    (a GET, a DELETE, a POST with a non-empty body that is not an initialize
    request) and that bears this id gets the invalid-session answer and
    changes nothing.  A later POST that bears the id is not resolved through
    it when its body is empty (it gets the empty-body answer) or an
    initialize request (a new transport handles it, and the closed id stays
    out of the registry). *)
Theorem C6_closed_session_stays_closed
    (JSON_parse : string -> option JsVal) (isInitializeRequest : JsVal -> bool)
    (randomUUID : nat -> string) (transport_initializes : Http.Request -> bool)
    (before : list (Http.Event)) (del : Http.Request) (sid : string) :
  (forall a b, randomUUID a = randomUUID b -> a = b) ->
  let route := Http.mcp JSON_parse isInitializeRequest randomUUID transport_initializes in
  let serve := Http.serve JSON_parse isInitializeRequest randomUUID transport_initializes in
  let g1 := serve before Http.initial in
  Http.method del = "DELETE" ->
  Http.session_header del = Some sid ->
  is_Some (Http.transports g1 !! sid) ->
  let g2 := snd (route del g1) in
  Http.transports g2 !! sid = None
  /\ forall after : list Http.Event,
       let g3 := serve after g2 in
       Http.transports g3 !! sid = None
       /\ (forall req,
             Http.session_header req = Some sid ->
             Http.session_bound JSON_parse isInitializeRequest req = true ->
             route req g3 = (Http.invalid_session, g3))
       /\ (forall req,
             Http.session_header req = Some sid ->
             Http.method req = "POST" ->
             let body := Http.parsed_body JSON_parse (Http.body req) in
             (negb (truthy body) || Http.keyless_object body = true ->
              route req g3 = (Http.empty_body, g3))
             /\ (negb (truthy body) || Http.keyless_object body = false ->
                 isInitializeRequest body = true ->
                 fst (route req g3) = Http.Handled (Http.constructed g3)
                 /\ Http.transports (snd (route req g3)) !! sid = None)).
Proof.
  intros Hinj route serve g1 Hm Hh [t Ht] g2.
  assert (Hsound : registry_sound randomUUID g1).
  { unfold g1, serve. apply serve_sound, initial_sound. }
  destruct (Hsound sid t Ht) as (_ & Htruthy & i & Hi & Hsid).
  assert (Hg2 : g2 = Http.mkGateway (delete sid (Http.transports g1))
                       (Http.constructed g1) (Http.minted g1)).
  { unfold g2, route, Http.mcp. rewrite Hm, Hh.
    change (String.eqb "DELETE" "POST") with false.
    change (String.eqb "DELETE" "GET") with false.
    change (String.eqb "DELETE" "DELETE") with true. cbn iota.
    unfold Http.known_session. rewrite Htruthy, Ht. reflexivity. }
  assert (Hnone : Http.transports g2 !! sid = None).
  { rewrite Hg2. cbn. apply lookup_delete_eq. }
  split; [exact Hnone|].
  intros after g3.
  assert (Hnone3 : Http.transports g3 !! sid = None).
  { unfold g3, serve.
    apply (serve_stays_closed JSON_parse isInitializeRequest randomUUID
             transport_initializes after g2 sid i Hinj); [|exact Hsid|exact Hnone].
    rewrite Hg2. exact Hi. }
  split; [exact Hnone3|]. split.
  - intros req Hreq Hbound. unfold route. now apply session_bound_unknown with (sid := sid).
  - intros req Hreq Hpost body. split.
    + intros Hempty. unfold route, Http.mcp. rewrite Hpost.
      change (String.eqb "POST" "POST") with true. cbn iota. fold body.
      rewrite Hempty. reflexivity.
    + intros Hfull Hinit. split.
      * unfold route, Http.mcp. rewrite Hpost.
        change (String.eqb "POST" "POST") with true. cbn iota. fold body.
        rewrite Hfull, Hinit. unfold Http.initialize.
        destruct (transport_initializes req); reflexivity.
      * replace (snd (route req g3)) with (serve (after ++ [Http.Arrives req]) g2)
          by (unfold g3, serve, Http.serve; rewrite fold_left_app; reflexivity).
        unfold serve.
        apply (serve_stays_closed JSON_parse isInitializeRequest randomUUID
                 transport_initializes (after ++ [Http.Arrives req]) g2 sid i Hinj);
          [|exact Hsid|exact Hnone].
        rewrite Hg2. exact Hi.
Qed.

Lemma C6_closed_session_stays_closed_witness :
  let route := Http.mcp no_json sample_isInitialize unary_uuid accepts_all in
  let g1 := Http.serve no_json sample_isInitialize unary_uuid accepts_all
              [Http.Arrives (initialize_request None)] Http.initial in
  let g2 := snd (route (delete_request "u") g1) in
  let g3 := Http.serve no_json sample_isInitialize unary_uuid accepts_all
              [Http.Arrives (initialize_request (Some "u"))] g2 in
  Http.transports g3 !! "u" = None
  /\ route (Http.mkReq "POST" (Some "u") ping_body) g3 = (Http.invalid_session, g3).
Proof.
  cbn zeta.
  assert (Hreg : is_Some (Http.transports
                            (Http.serve no_json sample_isInitialize unary_uuid accepts_all
                               [Http.Arrives (initialize_request None)] Http.initial)
                          !! "u")).
  { exists 0%nat. reflexivity. }
  destruct (C6_closed_session_stays_closed no_json sample_isInitialize unary_uuid
              accepts_all [Http.Arrives (initialize_request None)] (delete_request "u") "u"
              unary_uuid_inj eq_refl eq_refl Hreg) as [_ Hafter].
  destruct (Hafter [Http.Arrives (initialize_request (Some "u"))]) as [Hnone Hreq].
  split; [exact Hnone|].
  apply Hreq; reflexivity.
Defined.

(** C6 as stated fails on initialize requests: after session ["u"] has been
    torn down, a POST that bears this id and is an initialize request is not
    refused, it is handled by a transport built for it (and gets a session
    of its own, ["uu"]); and a POST that bears the id with a keyless body is
    refused with the empty-body answer, not the invalid-session one. *)
Lemma C6_initialize_bearing_closed_id_is_served :
  let route := Http.mcp no_json sample_isInitialize unary_uuid accepts_all in
  let g1 := snd (route (initialize_request None) Http.initial) in
  let g2 := snd (route (delete_request "u") g1) in
  Http.transports g1 !! "u" = Some 0%nat
  /\ Http.transports g2 !! "u" = None
  /\ fst (route (initialize_request (Some "u")) g2) = Http.Handled 1
  /\ fst (route (initialize_request (Some "u")) g2) <> Http.invalid_session
  /\ Http.transports (snd (route (initialize_request (Some "u")) g2)) !! "uu" = Some 1%nat
  /\ fst (route (Http.mkReq "POST" (Some "u") (VObj [])) g2) = Http.empty_body.
Proof.
  cbn zeta. repeat split; try reflexivity. discriminate.
Qed.

(** C7, as the code has it (POST routing).  A POST whose parsed body is
    falsy or a keyless object is answered with the empty-body error before
    anything else.  Otherwise, if the body is an initialize request, a new
    transport (and server) is built and handles the request whatever the
    session header says; it is registered under its session id exactly when
    handling the request gave it a non-empty one, and the registry is
    unchanged if not.  Otherwise, if the session header is missing or names
    no registered session, the answer is the invalid-session error, no
    transport handles the request and nothing changes; and if it names a
    registered session, that session's transport handles the request. *)
Theorem C7_post_routing
    (JSON_parse : string -> option JsVal) (isInitializeRequest : JsVal -> bool)
    (randomUUID : nat -> string) (transport_initializes : Http.Request -> bool)
    (req : Http.Request) (g : Http.Gateway) :
  Http.method req = "POST" ->
  let body := Http.parsed_body JSON_parse (Http.body req) in
  let outcome := Http.mcp JSON_parse isInitializeRequest randomUUID transport_initializes req g in
  let sid := randomUUID (Http.minted g) in
  (negb (truthy body) || Http.keyless_object body = true ->
   outcome = (Http.empty_body, g))
  /\ (negb (truthy body) || Http.keyless_object body = false ->
      (isInitializeRequest body = true ->
       fst outcome = Http.Handled (Http.constructed g)
       /\ Http.constructed (snd outcome) = S (Http.constructed g)
       /\ (transport_initializes req = true -> JS.truthy_string sid = true ->
           Http.transports (snd outcome) = <[sid := Http.constructed g]> (Http.transports g))
       /\ (transport_initializes req = false \/ JS.truthy_string sid = false ->
           Http.transports (snd outcome) = Http.transports g))
      /\ (isInitializeRequest body = false ->
          (Http.session_header req = None
           \/ exists s, Http.session_header req = Some s /\ Http.transports g !! s = None) ->
          outcome = (Http.invalid_session, g))
      /\ (isInitializeRequest body = false ->
          forall s t, Http.session_header req = Some s -> JS.truthy_string s = true ->
                      Http.transports g !! s = Some t ->
                      outcome = (Http.Handled t, g))).
Proof.
  intros Hm body outcome sid. unfold outcome, Http.mcp. rewrite Hm.
  change (String.eqb "POST" "POST") with true. cbn iota. fold body.
  split.
  - intros ->. reflexivity.
  - intros ->. split; [|split].
    + intros ->. unfold Http.initialize. fold sid.
      destruct (transport_initializes req); cbn [fst snd Http.constructed Http.transports].
      * split; [reflexivity|]. split; [reflexivity|]. split.
        -- intros _ ->. reflexivity.
        -- intros [Hf| ->]; [discriminate|reflexivity].
      * split; [reflexivity|]. split; [reflexivity|]. split.
        -- discriminate.
        -- reflexivity.
    + intros -> Hmissing.
      assert (Hk : Http.known_session (Http.session_header req) g = None).
      { unfold Http.known_session.
        destruct Hmissing as [->|(s & -> & ->)]; [reflexivity|].
        now destruct (JS.truthy_string s). }
      rewrite Hk. reflexivity.
    + intros -> s t Hh Htr Hl. unfold Http.known_session. rewrite Hh, Htr, Hl. reflexivity.
Qed.

Lemma C7_post_routing_witness :
  Http.mcp no_json sample_isInitialize unary_uuid accepts_all
    (Http.mkReq "POST" (Some "stale") ping_body) Http.initial
  = (Http.invalid_session, Http.initial).
Proof.
  destruct (C7_post_routing no_json sample_isInitialize unary_uuid accepts_all
              (Http.mkReq "POST" (Some "stale") ping_body) Http.initial eq_refl)
    as [_ Hrest].
  destruct (Hrest eq_refl) as (_ & Hunknown & _).
  apply Hunknown; [reflexivity|].
  right. exists "stale". split; reflexivity.
Defined.

(** C7 as stated fails in two places.  An initialize request that the new
    transport does not take up (it answers 406 or 415 and mints no id) leaves
    the registry as it was: a transport was built, no session is registered.
    And a POST without session header whose body is a keyless object is not
    given the invalid-session answer but the empty-body one. *)
Lemma C7_initialize_not_always_registered :
  Http.mcp no_json sample_isInitialize unary_uuid accepts_none
    (initialize_request None) Http.initial
  = (Http.Handled 0, Http.mkGateway ∅ 1 0)
  /\ fst (Http.mcp no_json sample_isInitialize unary_uuid accepts_all
            (Http.mkReq "POST" None (VObj [])) Http.initial)
     = Http.empty_body
  /\ Http.empty_body <> Http.invalid_session.
Proof.
  split; [reflexivity|]. split; [reflexivity|]. discriminate.
Qed.

(** * The invariant of the cache, for the remaining methods *)

Lemma setBaseUrl_consistent (net : Network) (url : string) (w : World) :
  consistent (self w) -> consistent (self (snd (run net (setBaseUrl url) w))).
Proof.
  intros Hinv. rewrite run_setBaseUrl.
  destruct (_ || _); [|exact Hinv].
  intros H. exfalso. apply H. reflexivity.
Qed.

Lemma setRegion_consistent (net : Network) (region : string) (w : World) :
  consistent (self w) -> consistent (self (snd (run net (setRegion region) w))).
Proof.
  intros Hinv. unfold setRegion.
  destruct (REGION_MAP_get (JS.toLowerCase region)) as [mapped|]; [|exact Hinv].
  now apply setBaseUrl_consistent.
Qed.

Lemma makeRequest_consistent (env : ProcessEnv)
    (response_json : string -> option TokenResponse)
    (JSON_parse : string -> option JsVal) (net : Network)
    (endpoint method : string) (body : JsVal) (w : World) :
  consistent (self w) ->
  consistent
    (self (snd (run net (makeRequest env response_json JSON_parse endpoint method body) w))).
Proof.
  intros Hinv.
  pose proof (getAccessToken_consistent env response_json net w Hinv) as Hc.
  unfold makeRequest, this, fetch. rewrite run_bind.
  destruct (run net (getAccessToken env response_json) w) as [[token|e] w1];
    cbn [snd] in Hc; [|exact Hc].
  cbn [bind run].
  destruct (net (length (sent w1)) _) as [[e|response] dt]; [exact Hc|].
  destruct (negb (ok response)); [exact Hc|].
  destruct (String.eqb method "DELETE" && (status response =? 204)); [exact Hc|].
  destruct (negb (JS.truthy_string (text response)) || _); [exact Hc|].
  destruct (JSON_parse (text response)); exact Hc.
Qed.
(** * Further properties of the credential cache and the upstream client *)

(** A sweep either fails everywhere or has a first success. *)
Lemma first_success_cases {A : Type} (f : nat -> option A) (cands : list string) :
  (forall i, (i < length cands)%nat -> f i = None)
  \/ exists pre c post a,
       cands = pre ++ c :: post
       /\ (forall i, (i < length pre)%nat -> f i = None)
       /\ f (length pre) = Some a.
Proof.
  induction cands as [|c rest IH] using rev_ind.
  - left. cbn. lia.
  - destruct IH as [IH|(pre & c' & post & a & -> & Hp & Hk)].
    + destruct (f (length rest)) as [a|] eqn:E.
      * right. exists rest, c, [], a. auto.
      * left. intros i Hi. rewrite length_app in Hi. cbn in Hi.
        destruct (Nat.eq_dec i (length rest)) as [->|]; [exact E|apply IH; lia].
    + right. exists pre, c', (post ++ [c]), a.
      rewrite <- app_assoc. auto.
Qed.

Section MoreTokenFacts.

Variable env : ProcessEnv.
Variable response_json : string -> option TokenResponse.
Variable net : Network.

(** Whatever happens, [getAccessToken] sends token requests only, to an
    initial stretch of its targets, and leaves the credentials alone. *)
Lemma getAccessToken_requests (w : World) :
  let w' := snd (run net (getAccessToken env response_json) w) in
  exists bases,
    sent w' = sent w ++ map (token_request (self w)) bases
    /\ bases `prefix_of` token_targets env (self w).
Proof.
  cbn zeta.
  destruct (isConfigured (self w)) eqn:Hc.
  2:{ rewrite (getAccessToken_unconfigured env response_json net w Hc).
      exists []. cbn. rewrite app_nil_r. split; [reflexivity|apply prefix_nil]. }
  destruct (fresh_token_cases (self w) (clock w)) as [(tok & Hf & _)|Hf].
  { rewrite (getAccessToken_hit env response_json net w tok Hc Hf).
    exists []. cbn. rewrite app_nil_r. split; [reflexivity|apply prefix_nil]. }
  unfold token_targets.
  destruct (unresolved (self w)) eqn:Hu.
  - rewrite (getAccessToken_miss env response_json net w Hc Hf), Hu.
    set (cands := getCandidateBaseUrls env).
    destruct (first_success_cases (attempt response_json net w cands) cands)
      as [Hall|(pre & c & post & token & Hsplit & Hpre & Hk)].
    + destruct (sweep_all_fail response_json net cands [] w Hall) as (_ & _ & Hl).
      exists cands. split; [exact Hl|reflexivity].
    + rewrite Hsplit in *.
      destruct (sweep_first_success response_json net pre c post [] token w Hpre Hk)
        as (_ & Hl & _).
      exists (pre ++ [c]). split; [exact Hl|].
      exists post. now rewrite <- app_assoc.
  - destruct (getAccessToken_pinned env response_json net w Hc Hf Hu) as [Hs _].
    exists [or_empty (baseUrl (self w))]. split; [exact Hs|reflexivity].
Qed.

(** The credentials of the object never change. *)
Lemma getAccessToken_keeps_credentials (w : World) :
  let w' := snd (run net (getAccessToken env response_json) w) in
  clientId (self w') = clientId (self w)
  /\ clientSecret (self w') = clientSecret (self w)
  /\ isConfigured (self w') = isConfigured (self w).
Proof.
  cbn zeta.
  destruct (isConfigured (self w)) eqn:Hc.
  2:{ rewrite (getAccessToken_unconfigured env response_json net w Hc). cbn. auto. }
  destruct (fresh_token_cases (self w) (clock w)) as [(tok & Hf & _)|Hf].
  { rewrite (getAccessToken_hit env response_json net w tok Hc Hf). cbn. auto. }
  destruct (unresolved (self w)) eqn:Hu.
  - rewrite (getAccessToken_miss env response_json net w Hc Hf), Hu.
    set (cands := getCandidateBaseUrls env).
    destruct (first_success_cases (attempt response_json net w cands) cands)
      as [Hall|(pre & c & post & token & Hsplit & Hpre & Hk)].
    + destruct (sweep_all_fail response_json net cands [] w Hall) as (_ & -> & _). auto.
    + rewrite Hsplit in *.
      destruct (sweep_first_success response_json net pre c post [] token w Hpre Hk)
        as (_ & _ & ->).
      cbn. auto.
  - destruct (getAccessToken_keeps_pin env response_json net w Hu)
      as (_ & _ & Hi & Hs & Hcf & _).
    cbn zeta in *. rewrite Hi, Hs, Hcf. auto.
Qed.

End MoreTokenFacts.

Section MoreUpstreamFacts.

Variable env : ProcessEnv.
Variable response_json : string -> option TokenResponse.
Variable JSON_parse : string -> option JsVal.
Variable net : Network.

Lemma run_makeRequest_token_fails (endpoint method : string) (body : JsVal)
    (w w1 : World) (e : Exn) :
  run net (getAccessToken env response_json) w = (Thrown e, w1) ->
  run net (makeRequest env response_json JSON_parse endpoint method body) w = (Thrown e, w1).
Proof.
  intros H. unfold makeRequest. rewrite run_bind, H. reflexivity.
Qed.

Lemma api_request_no_credentials (base endpoint method token : string) (body : JsVal) :
  carries_credentials (api_request base endpoint method token body) = false.
Proof. unfold api_request. destruct (_ && _); reflexivity. Qed.

(** The object after [makeRequest] is the object after its
    [getAccessToken]. *)
Lemma run_makeRequest_self (endpoint method : string) (body : JsVal) (w : World) :
  self (snd (run net (makeRequest env response_json JSON_parse endpoint method body) w))
  = self (snd (run net (getAccessToken env response_json) w)).
Proof.
  unfold makeRequest, this, fetch. rewrite run_bind.
  destruct (run net (getAccessToken env response_json) w) as [[token|e] w1];
    [|reflexivity].
  cbn [bind run snd].
  destruct (net (length (sent w1)) _) as [[e|response] dt]; [reflexivity|].
  destruct (negb (ok response)); [reflexivity|].
  destruct (String.eqb method "DELETE" && (status response =? 204)); [reflexivity|].
  destruct (negb (JS.truthy_string (text response)) || _); [reflexivity|].
  destruct (JSON_parse (text response)); reflexivity.
Qed.

End MoreUpstreamFacts.

(** X1 (no credentials, no traffic).  On an object built without client id
    or secret, every upstream call throws the configuration error at once:
    no request is sent and nothing changes. *)
Theorem unconfigured_call_fails_without_traffic
    (env : ProcessEnv) (response_json : string -> option TokenResponse)
    (JSON_parse : string -> option JsVal) (net : Network)
    (endpoint method : string) (body : JsVal) (w : World) :
  isConfigured (self w) = false ->
  run net (makeRequest env response_json JSON_parse endpoint method body) w
  = (Thrown (Error not_configured_message), w).
Proof.
  intros Hc. apply run_makeRequest_token_fails.
  now apply getAccessToken_unconfigured.
Qed.

Lemma unconfigured_call_fails_without_traffic_witness :
  run net_up
    (makeRequest (mkEnv None None None None None) sample_json no_json "/v2/devices" "GET"
       VUndefined)
    (mkWorld (new_NinjaOneAPI (mkEnv None None None None None)) 0 [])
  = (Thrown (Error not_configured_message),
     mkWorld (new_NinjaOneAPI (mkEnv None None None None None)) 0 []).
Proof.
  apply unconfigured_call_fails_without_traffic. reflexivity.
Defined.

(** X2 (a pinned endpoint is not second-guessed).  With credentials
    configured, no usable token and an explicit endpoint, a token request
    that fails (rejected, not ok, or not JSON) makes [getAccessToken] throw
    after that single request: no candidate is tried, and endpoint, token and
    expiry are as before. *)
Theorem pinned_endpoint_failure_is_final
    (env : ProcessEnv) (response_json : string -> option TokenResponse)
    (net : Network) (w : World) :
  isConfigured (self w) = true ->
  fresh_token (self w) (clock w) = None ->
  unresolved (self w) = false ->
  let req := token_request (self w) (or_empty (baseUrl (self w))) in
  token_of response_json (fst (net (length (sent w)) req)) = None ->
  let outcome := run net (getAccessToken env response_json) w in
  (exists e, fst outcome = Thrown e)
  /\ sent (snd outcome) = sent w ++ [req]
  /\ self (snd outcome) = self w.
Proof.
  intros Hc Hf Hu req Hfail outcome.
  destruct (getAccessToken_pinned env response_json net w Hc Hf Hu) as [Hs Hm].
  fold req in Hs, Hm. rewrite Hfail in Hm. destruct Hm as [He Hself]. auto.
Qed.

Lemma pinned_endpoint_failure_is_final_witness :
  let expired := mkWorld cached_api 1700003600000 [] in
  let outcome := run net_down (getAccessToken sample_env sample_json) expired in
  map req_url (sent (snd outcome)) = ["https://eu.ninjarmm.com/ws/oauth/token"]
  /\ self (snd outcome) = cached_api.
Proof.
  cbn zeta.
  destruct (pinned_endpoint_failure_is_final sample_env sample_json net_down
              (mkWorld cached_api 1700003600000 []) eq_refl eq_refl eq_refl eq_refl)
    as (_ & Hs & Hself).
  rewrite Hs, Hself. split; reflexivity.
Defined.

(** How [getAccessToken] may change the object: not at all, by storing a
    token, or by pinning a candidate and storing its token. *)
Lemma getAccessToken_state_cases (env : ProcessEnv)
    (response_json : string -> option TokenResponse) (net : Network) (w : World) :
  let o' := self (snd (run net (getAccessToken env response_json) w)) in
  o' = self w
  \/ (isConfigured (self w) = true /\ unresolved (self w) = false
      /\ exists tok t,
           o' = set_tokenExpiry (Some t) (set_accessToken (Some tok) (self w)))
  \/ (isConfigured (self w) = true /\ unresolved (self w) = true
      /\ exists c tok t,
           In c (getCandidateBaseUrls env)
           /\ o' = set_tokenExpiry (Some t)
                     (set_accessToken (Some tok)
                        (set_baseUrlExplicit true (set_baseUrl (Some c) (self w))))).
Proof.
  cbn zeta.
  destruct (isConfigured (self w)) eqn:Hc.
  2:{ rewrite (getAccessToken_unconfigured env response_json net w Hc). now left. }
  destruct (fresh_token_cases (self w) (clock w)) as [(tok & Hf & _)|Hf].
  { rewrite (getAccessToken_hit env response_json net w tok Hc Hf). now left. }
  destruct (unresolved (self w)) eqn:Hu.
  - rewrite (getAccessToken_miss env response_json net w Hc Hf), Hu.
    set (cands := getCandidateBaseUrls env).
    destruct (first_success_cases (attempt response_json net w cands) cands)
      as [Hall|(pre & c & post & token & Hsplit & Hpre & Hk)].
    + destruct (sweep_all_fail response_json net cands [] w Hall) as (_ & -> & _).
      now left.
    + rewrite Hsplit in *.
      destruct (sweep_first_success response_json net pre c post [] token w Hpre Hk)
        as (_ & _ & ->).
      right. right. split; [reflexivity|]. split; [reflexivity|].
      exists c, (access_token token). eexists. split; [|reflexivity].
      apply in_or_app. right. now left.
  - destruct (getAccessToken_pinned env response_json net w Hc Hf Hu) as [_ Hm].
    destruct (token_of response_json _) as [token|].
    + destruct Hm as [_ ->]. right. left. split; [reflexivity|]. split; [reflexivity|].
      eauto.
    + destruct Hm as [_ ->]. now left.
Qed.

(** The shape every reachable object has. *)
Lemma well_shaped_new (env : ProcessEnv) :
  let o := new_NinjaOneAPI env in
  (accessToken o = None <-> tokenExpiry o = None)
  /\ unresolved o = negb (baseUrlExplicit o).
Proof.
  cbn zeta. unfold new_NinjaOneAPI.
  destruct (JS.truthy_string (or_empty (NINJA_BASE_URL env))) eqn:Hb.
  - unfold unresolved. cbn. rewrite normalizeBaseUrl_truthy by exact Hb. tauto.
  - destruct (JS.truthy_string (JS.toLowerCase (or_empty (NINJA_REGION env)))).
    + unfold REGION_MAP_get. cbn [own_property REGION_MAP].
      repeat (match goal with
              | |- context [String.eqb ?a ?b] => destruct (String.eqb a b)
              end; [cbn; tauto|]).
      cbn. tauto.
    + cbn. tauto.
Qed.

(** X3 (what every instance looks like, always).  Take an instance built
    from the environment and used through any sequence of upstream calls,
    [setBaseUrl], [setRegion] and pauses, each call run to its end before
    the next, against any network whose token endpoint answers as declared
    (an ok answer to a token request is a token object or is not JSON).
    After every operation: a token is cached only with configured
    credentials and a pinned endpoint; token and expiry are both there or
    both absent; the explicit flag is set exactly when a non-empty endpoint
    is stored; and client id, secret and the configured flag are those the
    constructor read. *)
Theorem instance_invariant
    (env : ProcessEnv) (response_json : string -> option TokenResponse)
    (JSON_parse : string -> option JsVal) (net : Network)
    (t0 : Z) (ops : list Operation) :
  typed_token_endpoint response_json JSON_parse net ->
  let o := self (lifetime env response_json JSON_parse net t0 ops) in
  consistent o
  /\ (accessToken o = None <-> tokenExpiry o = None)
  /\ unresolved o = negb (baseUrlExplicit o)
  /\ clientId o = or_empty (NINJA_CLIENT_ID env)
  /\ clientSecret o = or_empty (NINJA_CLIENT_SECRET env)
  /\ isConfigured o = JS.truthy_string (or_empty (NINJA_CLIENT_ID env))
                      && JS.truthy_string (or_empty (NINJA_CLIENT_SECRET env)).
Proof.
  intros _. unfold lifetime.
  set (Inv := fun o : NinjaOneAPI =>
    consistent o
    /\ (accessToken o = None <-> tokenExpiry o = None)
    /\ unresolved o = negb (baseUrlExplicit o)
    /\ clientId o = or_empty (NINJA_CLIENT_ID env)
    /\ clientSecret o = or_empty (NINJA_CLIENT_SECRET env)
    /\ isConfigured o = JS.truthy_string (or_empty (NINJA_CLIENT_ID env))
                        && JS.truthy_string (or_empty (NINJA_CLIENT_SECRET env))).
  change (Inv (self (fold_left (perform env response_json JSON_parse net) ops
                       (mkWorld (new_NinjaOneAPI env) t0 [])))).
  assert (Hstart : Inv (self (mkWorld (new_NinjaOneAPI env) t0 []))).
  { destruct (well_shaped_new env) as [Hp Hu]. cbn zeta in *.
    repeat split; try (apply new_NinjaOneAPI_consistent); try tauto; try exact Hu;
      unfold new_NinjaOneAPI; cbn [self];
      destruct (JS.truthy_string (or_empty (NINJA_BASE_URL env)));
      try reflexivity;
      destruct (if JS.truthy_string _ then _ else _); reflexivity. }
  revert Hstart. generalize (mkWorld (new_NinjaOneAPI env) t0 []).
  induction ops as [|op ops IH]; intros w Hw; [exact Hw|].
  cbn [fold_left]. apply IH. clear IH.
  destruct Hw as (Hcons & Hpair & Hflag & Hid & Hsec & Hconf).
  destruct op as [endpoint method body|url|region|dt]; cbn [perform].
  - (* an upstream call changes the object as its getAccessToken does *)
    unfold Inv. rewrite run_makeRequest_self.
    pose proof (getAccessToken_consistent env response_json net w Hcons) as Hcons'.
    destruct (getAccessToken_state_cases env response_json net w)
      as [Heq|[(Hc & Hu & tok & t & Heq)|(Hc & Hu & c & tok & t & Hin & Heq)]];
      cbn zeta in Heq.
    + rewrite Heq.
      exact (conj Hcons (conj Hpair (conj Hflag (conj Hid (conj Hsec Hconf))))).
    + split; [exact Hcons'|]. rewrite Heq. cbn.
      split; [split; discriminate|].
      split; [unfold unresolved in *; exact Hflag|]. auto.
    + split; [exact Hcons'|]. rewrite Heq. cbn.
      split; [split; discriminate|].
      split; [|auto].
      unfold unresolved. cbn.
      pose proof (candidates_truthy env) as Ht.
      rewrite List.Forall_forall in Ht. now rewrite (Ht c Hin).
  - unfold Inv. rewrite run_setBaseUrl.
    destruct (_ || _);
      [|exact (conj Hcons (conj Hpair (conj Hflag (conj Hid (conj Hsec Hconf)))))].
    cbn [snd self].
    split; [intros H; exfalso; apply H; reflexivity|].
    split; [split; reflexivity|].
    split; [unfold unresolved; cbn; now rewrite normalizeBaseUrl_nonempty|].
    cbn. auto.
  - unfold Inv, setRegion.
    destruct (REGION_MAP_get (JS.toLowerCase region)) as [mapped|];
      [|exact (conj Hcons (conj Hpair (conj Hflag (conj Hid (conj Hsec Hconf)))))].
    rewrite run_setBaseUrl.
    destruct (_ || _);
      [|exact (conj Hcons (conj Hpair (conj Hflag (conj Hid (conj Hsec Hconf)))))].
    cbn [snd self].
    split; [intros H; exfalso; apply H; reflexivity|].
    split; [split; reflexivity|].
    split; [unfold unresolved; cbn; now rewrite normalizeBaseUrl_nonempty|].
    cbn. auto.
  - exact (conj Hcons (conj Hpair (conj Hflag (conj Hid (conj Hsec Hconf))))).
Qed.

(** The samples' token endpoint answers as declared. *)
Lemma sample_endpoint_typed (net : Network) :
  typed_token_endpoint sample_json token_json net.
Proof.
  intros n req response dt _ _ _. cbn.
  exists sample_token. split; [|reflexivity].
  split; [reflexivity|]. exists (inject_Z 3600). split; reflexivity.
Defined.

Lemma instance_invariant_witness :
  let o := self (lifetime sample_env sample_json token_json net_third 1700000000000
                   [ CallApi "/v2/devices" "GET" VUndefined;
                     Wait 3600000;
                     CallSetRegion "EU";
                     CallApi "/v2/organizations" "GET" VUndefined;
                     CallSetBaseUrl "https://evil.example.com" ]) in
  consistent o
  /\ (accessToken o = None <-> tokenExpiry o = None)
  /\ baseUrl o = Some "https://eu.ninjarmm.com"
  /\ accessToken o = Some "tok-1".
Proof.
  pose proof (instance_invariant sample_env sample_json token_json net_third 1700000000000
                [ CallApi "/v2/devices" "GET" VUndefined;
                  Wait 3600000;
                  CallSetRegion "EU";
                  CallApi "/v2/organizations" "GET" VUndefined;
                  CallSetBaseUrl "https://evil.example.com" ]
                (sample_endpoint_typed net_third)) as (Hcons & Hpair & _).
  exact (conj Hcons (conj Hpair (conj eq_refl eq_refl))).
Defined.

(** X4 (where the client secret goes).  Whatever the network does, as long
    as its token endpoints answer as declared, and for an ASCII
    [NINJA_BASE_URLS], the requests an upstream call sends are these.  First
    token requests: POSTs
    to [<endpoint>/ws/oauth/token] whose form body holds the client id and
    the client secret, for an initial stretch of the candidate list while
    nothing is pinned and for the pinned endpoint otherwise.  Then, only if
    a token was obtained, one API request, made of nothing but the stored
    endpoint followed by the caller's path, the caller's method, the headers
    [Authorization: Bearer <token>] and [Accept: */*], and either no body, or
    the caller's body as JSON with a [Content-Type] header: the credentials
    are put into the token requests and into nothing else. *)
Theorem credentials_only_in_token_requests
    (env : ProcessEnv) (response_json : string -> option TokenResponse)
    (JSON_parse : string -> option JsVal) (net : Network)
    (endpoint method : string) (body : JsVal) (w : World) :
  typed_token_endpoint response_json JSON_parse net ->
  ascii_only (or_empty (NINJA_BASE_URLS env)) = true ->
  let w' := snd (run net (makeRequest env response_json JSON_parse endpoint method body) w) in
  exists bases rest,
    sent w' = sent w ++ map (token_request (self w)) bases ++ rest
    /\ bases `prefix_of` token_targets env (self w)
    /\ Forall (fun b =>
                 token_request (self w) b
                 = mkRequest (b +:+ "/ws/oauth/token") "POST"
                     [("Content-Type", "application/x-www-form-urlencoded")]
                     (FormBody [ ("grant_type", "client_credentials");
                                 ("client_id", clientId (self w));
                                 ("client_secret", clientSecret (self w));
                                 ("scope", "monitoring management control") ])) bases
    /\ (rest = []
        \/ exists token r,
             fst (run net (getAccessToken env response_json) w) = Returned token
             /\ rest = [r]
             /\ carries_credentials r = false
             /\ req_url r = request_base (self w') +:+ endpoint
             /\ req_method r = method
             /\ ((req_headers r = [("Authorization", "Bearer " +:+ token); ("Accept", "*/*")]
                  /\ req_body r = NoBody)
                 \/ (req_headers r = [("Authorization", "Bearer " +:+ token); ("Accept", "*/*");
                                      ("Content-Type", "application/json")]
                     /\ req_body r = JsonBody body))).
Proof.
  intros _ _. cbn zeta.
  destruct (getAccessToken_requests env response_json net w) as (bases & Hs & Hp).
  cbn zeta in Hs.
  pose proof (run_makeRequest_self env response_json JSON_parse net endpoint method body w)
    as Hself.
  destruct (run net (getAccessToken env response_json) w) as [[token|e] w1] eqn:Htok;
    cbn [snd] in Hs, Hself.
  - exists bases, [api_request (request_base (self w1)) endpoint method token body].
    rewrite (run_makeRequest_sent env response_json JSON_parse net endpoint method body
               w w1 token Htok), Hs, <- app_assoc.
    split; [reflexivity|]. split; [exact Hp|].
    split; [apply List.Forall_forall; intros b _; reflexivity|].
    right. exists token, (api_request (request_base (self w1)) endpoint method token body).
    split; [reflexivity|]. split; [reflexivity|].
    split; [apply api_request_no_credentials|].
    rewrite Hself. unfold api_request.
    destruct (truthy body && JS.includes ["POST"; "PUT"; "PATCH"] method); cbn; auto.
  - exists bases, [].
    rewrite (run_makeRequest_token_fails env response_json JSON_parse net endpoint method
               body w w1 e Htok).
    cbn [snd]. rewrite Hs, app_nil_r.
    split; [reflexivity|]. split; [exact Hp|].
    split; [apply List.Forall_forall; intros b _; reflexivity|]. now left.
Qed.

Lemma credentials_only_in_token_requests_witness :
  exists bases rest,
    map req_url
      (sent (snd (run net_third
                    (makeRequest sample_env sample_json token_json "/v2/devices" "GET"
                       VUndefined) sample_world)))
    = map (fun b => b +:+ "/ws/oauth/token") bases ++ map req_url rest
    /\ bases `prefix_of` DEFAULT_CANDIDATES
    /\ (length rest <= 1)%nat.
Proof.
  destruct (credentials_only_in_token_requests sample_env sample_json token_json net_third
              "/v2/devices" "GET" VUndefined sample_world
              (sample_endpoint_typed net_third) eq_refl)
    as (bases & rest & Hs & Hp & _ & Hrest).
  exists bases, rest. rewrite Hs. cbn [sent sample_world app].
  rewrite map_app, map_map.
  split; [reflexivity|]. split; [exact Hp|].
  destruct Hrest as [->|(token & r & _ & -> & _)]; cbn; lia.
Defined.

(** X5 (the call goes where the token came from).  On a configured object
    with nothing pinned, an upstream call first sweeps the candidates; when
    candidate [c] is the first to issue a token, the API request is the very
    next request, it goes to [c] followed by the endpoint path, and it bears
    that token. *)
Theorem call_follows_detected_endpoint
    (env : ProcessEnv) (response_json : string -> option TokenResponse)
    (JSON_parse : string -> option JsVal) (net : Network)
    (endpoint method : string) (body : JsVal) (w : World)
    (pre : list string) (c : string) (post : list string) (token : TokenResponse) :
  isConfigured (self w) = true ->
  fresh_token (self w) (clock w) = None ->
  unresolved (self w) = true ->
  getCandidateBaseUrls env = pre ++ c :: post ->
  (forall i, (i < length pre)%nat ->
     attempt response_json net w (pre ++ c :: post) i = None) ->
  attempt response_json net w (pre ++ c :: post) (length pre) = Some token ->
  let w' := snd (run net (makeRequest env response_json JSON_parse endpoint method body) w) in
  sent w' = sent w ++ map (token_request (self w)) (pre ++ [c])
                   ++ [api_request c endpoint method (access_token token) body]
  /\ baseUrl (self w') = Some c
  /\ accessToken (self w') = Some (access_token token).
Proof.
  intros Hc Hf Hu Hsplit Hpre Hk. cbn zeta.
  pose proof (getAccessToken_miss env response_json net w Hc Hf) as Hrun.
  rewrite Hu, Hsplit in Hrun.
  destruct (sweep_first_success response_json net pre c post [] token w Hpre Hk)
    as (Hr & Hl & Hs).
  cbn zeta in Hs. rewrite <- Hrun in Hr, Hl, Hs.
  destruct (run net (getAccessToken env response_json) w) as [r w1] eqn:Htok.
  cbn [fst snd] in *. subst r.
  assert (Hbase : request_base (self w1) = c).
  { unfold request_base. rewrite Hs. cbn.
    pose proof (candidates_truthy env) as Ht. rewrite Hsplit in Ht.
    apply Forall_app in Ht as [_ Ht]. apply Forall_cons in Ht as [Ht _].
    now rewrite Ht. }
  rewrite (run_makeRequest_sent env response_json JSON_parse net endpoint method body
             w w1 (access_token token) Htok), Hl, Hbase, <- app_assoc.
  split; [reflexivity|].
  rewrite run_makeRequest_self, Htok. cbn [snd]. rewrite Hs. split; reflexivity.
Qed.

Lemma call_follows_detected_endpoint_witness :
  map req_url
    (sent (snd (run net_third
                  (makeRequest sample_env sample_json no_json "/v2/devices" "GET" VUndefined)
                  sample_world)))
  = [ "https://app.ninjarmm.com/ws/oauth/token";
      "https://us2.ninjarmm.com/ws/oauth/token";
      "https://eu.ninjarmm.com/ws/oauth/token";
      "https://eu.ninjarmm.com/v2/devices" ].
Proof.
  destruct (call_follows_detected_endpoint sample_env sample_json no_json net_third
              "/v2/devices" "GET" VUndefined sample_world
              ["https://app.ninjarmm.com"; "https://us2.ninjarmm.com"]
              "https://eu.ninjarmm.com"
              ["https://ca.ninjarmm.com"; "https://oc.ninjarmm.com"]
              sample_token eq_refl eq_refl eq_refl eq_refl) as (Hs & _).
  - intros i Hi. cbn in Hi. destruct i as [|[|i]]; [reflexivity|reflexivity|lia].
  - reflexivity.
  - rewrite Hs. reflexivity.
Defined.

(** X6 (a failed fetch is not retried).  When the token is there and the
    API request is rejected (network failure, or the abort of the 30 s
    timer), the upstream call throws that very error; the API request was
    sent once, and the object, token included, is as [getAccessToken] left
    it. *)
Theorem rejected_fetch_is_thrown_once
    (env : ProcessEnv) (response_json : string -> option TokenResponse)
    (JSON_parse : string -> option JsVal) (net : Network)
    (endpoint method : string) (body : JsVal)
    (w w1 : World) (token : string) (e : Exn) (dt : Z) :
  run net (getAccessToken env response_json) w = (Returned token, w1) ->
  net (length (sent w1)) (api_request (request_base (self w1)) endpoint method token body)
    = (Rejected e, dt) ->
  run net (makeRequest env response_json JSON_parse endpoint method body) w
  = (Thrown e,
     mkWorld (self w1) (clock w1 + dt)
       (sent w1 ++ [api_request (request_base (self w1)) endpoint method token body])).
Proof.
  intros Htok Hnet. unfold makeRequest, this, fetch.
  rewrite run_bind, Htok. cbn [bind run]. fold (request_base (self w1)).
  rewrite Hnet. reflexivity.
Qed.

Lemma rejected_fetch_is_thrown_once_witness :
  fst (run net_down
         (makeRequest sample_env sample_json no_json "/v2/devices" "GET" VUndefined)
         cached_world)
  = Thrown (Error "fetch failed").
Proof.
  rewrite (rejected_fetch_is_thrown_once sample_env sample_json no_json net_down
             "/v2/devices" "GET" VUndefined cached_world cached_world "tok-0"
             (Error "fetch failed") 10 eq_refl eq_refl).
  reflexivity.
Defined.

(** * Endpoints: normalisation, candidates, regions *)

Lemma map_chars_append (f : ascii -> ascii) (s t : string) :
  JS.map_chars f (s +:+ t) = JS.map_chars f s +:+ JS.map_chars f t.
Proof.
  induction s as [|c s IH]; [reflexivity|].
  rewrite append_cons. cbn [JS.map_chars]. rewrite append_cons. now rewrite IH.
Qed.

Lemma prefix_append (p s : string) : String.prefix p (p +:+ s) = true.
Proof.
  induction p as [|c p IH]; [now destruct s|].
  rewrite append_cons. cbn [String.prefix].
  destruct (ascii_dec c c); [exact IH|congruence].
Qed.

Lemma has_http_scheme_https (u : string) : has_http_scheme ("https://" +:+ u) = true.
Proof.
  unfold has_http_scheme, JS.toLowerCase. rewrite map_chars_append.
  change (JS.map_chars JS.lower_char "https://") with "https://".
  rewrite prefix_append. apply orb_true_r.
Qed.

(** X7 (normalisation settles).  [normalizeBaseUrl] always yields a URL with
    an http or https scheme, never an empty one, and applying it again
    changes nothing; a URL that has a scheme, in any letter case, is
    returned as it is. *)
Theorem normalizeBaseUrl_idempotent (url : string) :
  has_http_scheme (normalizeBaseUrl url) = true
  /\ normalizeBaseUrl (normalizeBaseUrl url) = normalizeBaseUrl url
  /\ normalizeBaseUrl url <> ""
  /\ (has_http_scheme url = true -> normalizeBaseUrl url = url)
  /\ (has_http_scheme url = false -> normalizeBaseUrl url = "https://" +:+ url).
Proof.
  assert (Hs : has_http_scheme (normalizeBaseUrl url) = true).
  { unfold normalizeBaseUrl. destruct (has_http_scheme url) eqn:E; cbn [negb].
    - exact E.
    - apply has_http_scheme_https. }
  split; [exact Hs|]. split; [|split; [|split]].
  - unfold normalizeBaseUrl at 1. now rewrite Hs.
  - intros H. pose proof (normalizeBaseUrl_nonempty url) as Ht. rewrite H in Ht. discriminate.
  - intros H. unfold normalizeBaseUrl. now rewrite H.
  - intros H. unfold normalizeBaseUrl. now rewrite H.
Qed.

Lemma known_urls_match_pattern (u : string) :
  JS.includes REGION_MAP_values u = true -> ALLOWED_DOMAIN_PATTERN_test u = true.
Proof.
  intros H. apply includes_spec in H. cbn in H.
  repeat (destruct H as [<-|H]; [reflexivity|]). contradiction.
Qed.

(** X8 (what can be pinned by hand).  [setBaseUrl] succeeds exactly when the
    normalized URL is [https://], one non-empty label of letters, digits,
    underscores and hyphens, and [.ninjarmm.com], with nothing before or
    after: the list of known region URLs adds nothing to the pattern.  So an
    endpoint pinned through [setBaseUrl] or [setRegion] never has the http
    scheme, a port, a path, or another domain. *)
Theorem pinned_by_hand_is_https_ninjarmm (net : Network) (url : string) (w : World) :
  (exists w', run net (setBaseUrl url) w = (Returned tt, w'))
  <->
  (exists sub : string,
      sub <> "" /\ JS.all_chars domain_char sub = true
      /\ normalizeBaseUrl url = "https://" +:+ sub +:+ ".ninjarmm.com").
Proof.
  rewrite <- ALLOWED_DOMAIN_PATTERN_spec. rewrite run_setBaseUrl.
  destruct (JS.includes REGION_MAP_values (normalizeBaseUrl url)) eqn:Hk.
  - pose proof (known_urls_match_pattern _ Hk) as Hp. rewrite Hp. cbn.
    split; [reflexivity|eauto].
  - cbn [orb]. destruct (ALLOWED_DOMAIN_PATTERN_test (normalizeBaseUrl url)).
    + split; [reflexivity|eauto].
    + split; [intros [w' H]; discriminate|discriminate].
Qed.

(** A field of blanks is trimmed to nothing. *)
Lemma trim_blank (s : string) :
  JS.all_chars JS.is_space s = true -> JS.trim s = "".
Proof.
  intros H. unfold JS.trim.
  assert (Hs : JS.trimStart s = "").
  { induction s as [|c s' IH]; [reflexivity|].
    cbn in H. apply andb_true_iff in H as [Hc H]. cbn. rewrite Hc. auto. }
  now rewrite Hs.
Qed.

(** A list of commas and blanks splits into fields of blanks. *)
Lemma split_blank_fields (s : string) :
  JS.all_chars (fun c => JS.is_space c || Ascii.eqb c ",") s = true ->
  List.Forall (fun field => JS.all_chars JS.is_space field = true) (JS.split "," s).
Proof.
  induction s as [|c s' IH]; intros H.
  - repeat constructor.
  - cbn in H. apply andb_true_iff in H as [Hc H]. specialize (IH H).
    cbn [JS.split]. destruct (Ascii.eqb_spec c ",") as [->|Hne].
    + constructor; [reflexivity|exact IH].
    + assert (Hsp : JS.is_space c = true).
      { apply orb_true_iff in Hc as [Hc|Hc]; [exact Hc|discriminate]. }
      destruct (JS.split "," s') as [|h t].
      * repeat constructor. cbn. now rewrite Hsp.
      * apply List.Forall_cons_iff in IH as [Hh Ht].
        constructor; [cbn; now rewrite Hsp, Hh|exact Ht].
Qed.

Lemma blank_fields_filtered (fields : list string) :
  List.Forall (fun field => JS.all_chars JS.is_space field = true) fields ->
  List.filter JS.truthy_string (map JS.trim fields) = [].
Proof.
  induction 1 as [|f rest Hf _ IH]; [reflexivity|].
  cbn. now rewrite (trim_blank f Hf), IH.
Qed.

(** X9 (the candidate list is always usable).  Whatever [NINJA_BASE_URLS]
    holds, [getCandidateBaseUrls] is not empty and each candidate is a
    non-empty URL with an http or https scheme; when the variable is not
    set, or is made of commas, spaces, tabs and line breaks only (the empty
    string included), the candidates are the five default region URLs. *)
Theorem candidates_always_usable (env : ProcessEnv) :
  getCandidateBaseUrls env <> []
  /\ Forall (fun c => c <> "" /\ has_http_scheme c = true) (getCandidateBaseUrls env)
  /\ (NINJA_BASE_URLS env = None -> getCandidateBaseUrls env = DEFAULT_CANDIDATES)
  /\ (forall s,
        NINJA_BASE_URLS env = Some s ->
        JS.all_chars (fun c => JS.is_space c || Ascii.eqb c ",") s = true ->
        getCandidateBaseUrls env = DEFAULT_CANDIDATES).
Proof.
  split; [apply candidates_nonempty|]. split; [|split].
  - unfold getCandidateBaseUrls.
    destruct (0 <? length _)%nat.
    + apply List.Forall_forall. intros c Hc. apply in_map_iff in Hc as (u & <- & _).
      split.
      * intros H. pose proof (normalizeBaseUrl_nonempty u) as Ht. rewrite H in Ht.
        discriminate.
      * unfold normalizeBaseUrl. destruct (has_http_scheme u) eqn:E; cbn [negb].
        -- exact E.
        -- apply has_http_scheme_https.
    + repeat constructor; discriminate.
  - intros H. unfold getCandidateBaseUrls. rewrite H. reflexivity.
  - intros s H Hblank. unfold getCandidateBaseUrls. rewrite H. cbn [or_empty].
    now rewrite (blank_fields_filtered _ (split_blank_fields s Hblank)).
Qed.

Lemma setRegion_listed (net : Network) (region key url : string) (w : World) :
  In (key, url) listRegions ->
  JS.toLowerCase region = key ->
  run net (setRegion region) w
  = (Returned tt,
     mkWorld (mkAPI (Some url) (clientId (self w)) (clientSecret (self w)) None None
                    (isConfigured (self w)) true)
             (clock w) (sent w)).
Proof.
  intros Hin Hkey. unfold setRegion. rewrite Hkey. cbn in Hin.
  repeat (destruct Hin as [[= <- <-]|Hin]; [reflexivity|]). contradiction.
Qed.

(** X10 (regions: what is listed can be set).  Every pair that
    [listRegions] returns can be handed back: [setRegion], given the region
    key in any letter case, succeeds, pins exactly the listed URL as the
    explicit endpoint, drops the cached token and expiry, and sends nothing.
    A fresh object built with that key in [NINJA_REGION] and no
    [NINJA_BASE_URL] is pinned to the same URL. *)
Theorem listed_regions_can_be_set
    (net : Network) (region key url : string) (w : World) :
  In (key, url) listRegions ->
  JS.toLowerCase region = key ->
  let w' := snd (run net (setRegion region) w) in
  fst (run net (setRegion region) w) = Returned tt
  /\ baseUrl (self w') = Some url
  /\ baseUrlExplicit (self w') = true
  /\ accessToken (self w') = None
  /\ tokenExpiry (self w') = None
  /\ sent w' = sent w
  /\ forall id secret urls,
       let o := new_NinjaOneAPI (mkEnv None (Some region) urls id secret) in
       baseUrl o = Some url /\ baseUrlExplicit o = true.
Proof.
  intros Hin Hkey. cbn zeta.
  rewrite (setRegion_listed net region key url w Hin Hkey). cbn.
  do 6 (split; [reflexivity|]).
  intros id secret urls. unfold new_NinjaOneAPI. cbn [NINJA_BASE_URL NINJA_REGION or_empty].
  rewrite Hkey. cbn in Hin.
  repeat (destruct Hin as [[= <- <-]|Hin]; [split; reflexivity|]). contradiction.
Qed.

Lemma listed_regions_can_be_set_witness :
  baseUrl (self (snd (run net_down (setRegion "Eu") cached_world)))
  = Some "https://eu.ninjarmm.com".
Proof.
  destruct (listed_regions_can_be_set net_down "Eu" "eu" "https://eu.ninjarmm.com"
              cached_world) as (_ & Hb & _).
  - cbn. auto.
  - reflexivity.
  - exact Hb.
Defined.

(** X11 (the environment's endpoint is taken on trust).  A non-empty
    [NINJA_BASE_URL] is normalized and pinned by the constructor as the
    explicit endpoint, whatever [NINJA_REGION] says and without the
    allow-list test of [setBaseUrl]; with credentials configured, the first
    [getAccessToken] of such an object sends exactly one request, the token
    request with client id and secret, to that endpoint. *)
Theorem environment_endpoint_pinned_unchecked
    (env : ProcessEnv) (response_json : string -> option TokenResponse)
    (net : Network) (t0 : Z) (b : string) :
  NINJA_BASE_URL env = Some b ->
  b <> "" ->
  let o := new_NinjaOneAPI env in
  baseUrl o = Some (normalizeBaseUrl b)
  /\ baseUrlExplicit o = true
  /\ (isConfigured o = true ->
      sent (snd (run net (getAccessToken env response_json) (mkWorld o t0 [])))
      = [token_request o (normalizeBaseUrl b)]).
Proof.
  intros Hb Hne. cbn zeta.
  assert (Ho : new_NinjaOneAPI env
               = mkAPI (Some (normalizeBaseUrl b)) (or_empty (NINJA_CLIENT_ID env))
                       (or_empty (NINJA_CLIENT_SECRET env)) None None
                       (JS.truthy_string (or_empty (NINJA_CLIENT_ID env))
                        && JS.truthy_string (or_empty (NINJA_CLIENT_SECRET env))) true).
  { unfold new_NinjaOneAPI. rewrite Hb. cbn [or_empty].
    destruct b; [congruence|reflexivity]. }
  rewrite Ho. cbn [baseUrl baseUrlExplicit isConfigured].
  split; [reflexivity|]. split; [reflexivity|].
  intros Hc. rewrite Hc.
  set (o := mkAPI _ _ _ None None true true).
  assert (Hu : unresolved (self (mkWorld o t0 [])) = false).
  { unfold unresolved. cbn. now rewrite normalizeBaseUrl_nonempty. }
  destruct (getAccessToken_pinned env response_json net (mkWorld o t0 [])
              eq_refl eq_refl Hu) as [Hs _].
  exact Hs.
Qed.

Lemma environment_endpoint_pinned_unchecked_witness :
  let env := mkEnv (Some "evil.example.com") (Some "eu") None (Some "id") (Some "s3cret") in
  map req_url
    (sent (snd (run net_down (getAccessToken env sample_json)
                  (mkWorld (new_NinjaOneAPI env) 0 []))))
  = ["https://evil.example.com/ws/oauth/token"].
Proof.
  cbn zeta.
  assert (Hne : "evil.example.com" <> "") by discriminate.
  destruct (environment_endpoint_pinned_unchecked
              (mkEnv (Some "evil.example.com") (Some "eu") None (Some "id") (Some "s3cret"))
              sample_json net_down 0 "evil.example.com" eq_refl Hne) as (_ & _ & Hs).
  rewrite (Hs eq_refl). reflexivity.
Defined.

(** * Query strings *)

Lemma all_chars_append (f : ascii -> bool) (s t : string) :
  JS.all_chars f (s +:+ t) = JS.all_chars f s && JS.all_chars f t.
Proof.
  induction s as [|c s IH]; [reflexivity|].
  rewrite append_cons. cbn [JS.all_chars]. rewrite IH. now rewrite andb_assoc.
Qed.

Lemma count_char_append (c : ascii) (s t : string) :
  count_char c (s +:+ t) = (count_char c s + count_char c t)%nat.
Proof.
  induction s as [|a s IH]; [reflexivity|].
  rewrite append_cons. cbn [count_char]. rewrite IH. lia.
Qed.

(** One encoded byte is made of unreserved characters, [%] and [+]. *)
Lemma urlencode_char_plain (c : ascii) :
  JS.all_chars (fun a => urlencoded_safe a || Ascii.eqb a "%" || Ascii.eqb a "+")
    (urlencode_char c) = true.
Proof.
  destruct c as [[] [] [] [] [] [] [] []]; reflexivity.
Qed.

Lemma urlencode_plain (s : string) :
  JS.all_chars (fun a => urlencoded_safe a || Ascii.eqb a "%" || Ascii.eqb a "+")
    (urlencode s) = true.
Proof.
  induction s as [|c s IH]; [reflexivity|].
  cbn [urlencode]. rewrite all_chars_append, urlencode_char_plain, IH. reflexivity.
Qed.

Lemma all_chars_weaken (f g : ascii -> bool) (s : string) :
  (forall c, f c = true -> g c = true) ->
  JS.all_chars f s = true -> JS.all_chars g s = true.
Proof.
  intros Hfg. induction s as [|c s IH]; [reflexivity|].
  cbn. intros H. apply andb_true_iff in H as [Hc Hs].
  rewrite (Hfg c Hc), (IH Hs). reflexivity.
Qed.

Lemma all_chars_count_zero (f : ascii -> bool) (c : ascii) (s : string) :
  f c = false -> JS.all_chars f s = true -> count_char c s = 0%nat.
Proof.
  intros Hc. induction s as [|a s IH]; [reflexivity|].
  cbn. intros H. apply andb_true_iff in H as [Ha Hs].
  destruct (Ascii.eqb_spec a c) as [->|_]; [congruence|]. now rewrite (IH Hs).
Qed.

Lemma urlencode_count (c : ascii) (s : string) :
  (urlencoded_safe c || Ascii.eqb c "%" || Ascii.eqb c "+") = false ->
  count_char c (urlencode s) = 0%nat.
Proof.
  intros Hc.
  exact (all_chars_count_zero
           (fun a => urlencoded_safe a || Ascii.eqb a "%" || Ascii.eqb a "+")
           c (urlencode s) Hc (urlencode_plain s)).
Qed.

(** The serialisation of [n] pairs: [n] equal signs, [n - 1] ampersands. *)
Lemma URLSearchParams_toString_shape (pairs : list (string * string)) :
  JS.all_chars query_char (URLSearchParams_toString pairs) = true
  /\ count_char "=" (URLSearchParams_toString pairs) = length pairs
  /\ count_char "&" (URLSearchParams_toString pairs) = (length pairs - 1)%nat
  /\ count_char "?" (URLSearchParams_toString pairs) = 0%nat
  /\ (pairs <> [] -> URLSearchParams_toString pairs <> "").
Proof.
  unfold URLSearchParams_toString, JS.join.
  assert (Hpair : forall p : string * string,
            let e := urlencode (fst p) +:+ "=" +:+ urlencode (snd p) in
            JS.all_chars query_char e = true
            /\ count_char "=" e = 1%nat /\ count_char "&" e = 0%nat
            /\ count_char "?" e = 0%nat /\ e <> "").
  { intros p e. unfold e.
    assert (Hq : forall s, JS.all_chars query_char (urlencode s) = true).
    { intros s. eapply all_chars_weaken; [|apply urlencode_plain].
      intros c Hc. unfold query_char.
      apply orb_true_iff in Hc as [Hc|Hc];
        [apply orb_true_iff in Hc as [Hc|Hc]|]; rewrite Hc;
        rewrite ?orb_true_r; reflexivity. }
    rewrite !all_chars_append, !count_char_append, !Hq.
    rewrite !(urlencode_count "=") by reflexivity.
    rewrite !(urlencode_count "&") by reflexivity.
    rewrite !(urlencode_count "?") by reflexivity.
    repeat split. intros H. apply (f_equal (count_char "=")) in H.
    rewrite !count_char_append, !(urlencode_count "=") in H by reflexivity.
    discriminate. }
  induction pairs as [|p rest IH]; [cbn; repeat split; congruence|].
  destruct (Hpair p) as (Ha & He & Hm & Hq & Hne). cbn zeta in *.
  destruct rest as [|p' rest'].
  - cbn [map String.concat length]. cbv beta. cbn [Nat.sub]. auto 10.
  - destruct IH as (Ha' & He' & Hm' & Hq' & _).
    change (String.concat "&" (map ?f (p :: p' :: rest')))
      with (f p +:+ String "&" (String.concat "&" (map f (p' :: rest')))).
    cbv beta.
    set (e := urlencode (fst p) +:+ "=" +:+ urlencode (snd p)) in *.
    set (C := String.concat "&" (map _ (p' :: rest'))) in *.
    cbn [length] in *.
    rewrite all_chars_append, !count_char_append.
    cbn [JS.all_chars count_char]. rewrite Ha, He, Hm, Hq, Ha', He', Hm', Hq'.
    cbn. repeat split; try lia.
    intros _ H. apply (f_equal (count_char "&")) in H.
    rewrite count_char_append in H. cbn in H. lia.
Qed.

Lemma query_pairs_length (number_toString : number -> string)
    (params : list (string * JsVal)) (pairs : list (string * string)) :
  query_pairs number_toString params = Returned pairs ->
  length pairs = length (defined_params params)
  /\ map fst pairs = map fst (defined_params params).
Proof.
  revert pairs. induction params as [|[k v] rest IH]; intros pairs H.
  - injection H as <-. auto.
  - cbn [query_pairs] in H. unfold defined_params, pruneUndefined in *.
    cbn [List.filter snd].
    destruct v; try exact (IH pairs H);
      (destruct (js_toString number_toString _) as [str|err]; [|discriminate];
       destruct (query_pairs number_toString rest) as [ps|err]; [|discriminate];
       injection H as <-; destruct (IH ps eq_refl) as [Hl Hk];
       cbn; rewrite Hl, Hk; auto).
Qed.

(** X12 (a query string cannot be bent by its values).  When [buildQuery]
    returns, it returns the empty string if every parameter is [undefined],
    and otherwise [?] followed by one [name=value] pair per defined
    parameter, in the order given.  The result consists of unreserved
    characters, [%], [+], [=], [&] and one leading [?] only, with exactly one
    [=] per defined parameter and one [&] between two pairs: no value, and
    no name, can add a parameter, end the query, or start a fragment. *)
Theorem buildQuery_well_formed
    (number_toString : number -> string)
    (params : list (string * JsVal)) (query : string) :
  buildQuery number_toString params = Returned query ->
  let n := length (defined_params params) in
  (n = 0%nat -> query = "")
  /\ ((0 < n)%nat ->
      exists pairs,
        map fst pairs = map fst (defined_params params)
        /\ query = String "?" (URLSearchParams_toString pairs))
  /\ JS.all_chars query_char query = true
  /\ count_char "?" query = Nat.min 1 n
  /\ count_char "=" query = n
  /\ count_char "&" query = (n - 1)%nat.
Proof.
  intros H n. unfold buildQuery in H.
  destruct (query_pairs number_toString params) as [pairs|e] eqn:Hp; [|discriminate].
  destruct (query_pairs_length number_toString params pairs Hp) as [Hlen Hkeys].
  fold n in Hlen.
  destruct (URLSearchParams_toString_shape pairs) as (Ha & He & Hm & Hq & Hne).
  injection H as <-.
  destruct pairs as [|p rest].
  - cbn in Hlen. rewrite <- Hlen. cbn. repeat split; try lia.
  - assert (Ht : JS.truthy_string (URLSearchParams_toString (p :: rest)) = true).
    { destruct (URLSearchParams_toString (p :: rest)) eqn:E; [|reflexivity].
      exfalso. now apply Hne. }
    rewrite Ht, <- Hlen. cbn [length] in *.
    change ("?" +:+ URLSearchParams_toString (p :: rest))
      with (String "?" (URLSearchParams_toString (p :: rest))).
    split; [lia|]. split; [intros _; exists (p :: rest); auto|].
    cbn [JS.all_chars count_char]. rewrite Ha, He, Hm, Hq. cbn. auto.
Qed.

Lemma buildQuery_well_formed_witness :
  buildQuery no_number
    [("df", VStr "a&b=c #d"); ("pageSize", VUndefined); ("after", VNum (Finite 5))]
  = Returned "?df=a%26b%3Dc+%23d&after=7"
  /\ count_char "&" "?df=a%26b%3Dc+%23d&after=7" = 1%nat.
Proof.
  split; [reflexivity|].
  destruct (buildQuery_well_formed no_number
              [("df", VStr "a&b=c #d"); ("pageSize", VUndefined); ("after", VNum (Finite 5))]
              "?df=a%26b%3Dc+%23d&after=7" eq_refl) as (_ & _ & _ & _ & _ & Hamp).
  exact Hamp.
Defined.

(** * Pruning, the token check, session isolation *)

Lemma prop_absent (key : string) (props : list (string * JsVal)) :
  ~ In key (map fst props) -> prop key props = VUndefined.
Proof.
  induction props as [|[k v] rest IH]; [reflexivity|].
  cbn. intros H. destruct (String.eqb_spec k key) as [->|_]; [tauto|].
  apply IH. tauto.
Qed.

Lemma pruneUndefined_keys (payload : list (string * JsVal)) (key : string) :
  In key (map fst (pruneUndefined payload)) -> In key (map fst payload).
Proof.
  unfold pruneUndefined. intros H.
  apply in_map_iff in H as ([k v] & <- & Hin). apply filter_In in Hin as [Hin _].
  apply in_map_iff. exists (k, v). auto.
Qed.

(** X13 (pruning loses nothing).  [pruneUndefined] keeps the members in
    their order, leaves no [undefined] member, keeps [null], empty strings
    and zeros, and does nothing when applied again; for an object (no key
    twice), reading any key gives the same value before and after. *)
Theorem pruneUndefined_preserves_reads (payload : list (string * JsVal)) :
  Forall (fun entry => snd entry <> VUndefined) (pruneUndefined payload)
  /\ pruneUndefined (pruneUndefined payload) = pruneUndefined payload
  /\ sublist (pruneUndefined payload) payload
  /\ (forall k v, In (k, v) payload -> v <> VUndefined -> In (k, v) (pruneUndefined payload))
  /\ (List.NoDup (map fst payload) ->
      forall key, prop key (pruneUndefined payload) = prop key payload).
Proof.
  split; [|split; [|split; [|split]]].
  - apply List.Forall_forall. intros [k v] Hin.
    apply filter_In in Hin as [_ Hv]. cbn in *. now destruct v.
  - unfold pruneUndefined.
    induction payload as [|[k v] rest IH]; [reflexivity|].
    cbn. destruct v; cbn; rewrite ?IH; reflexivity.
  - unfold pruneUndefined.
    induction payload as [|[k v] rest IH]; [constructor|].
    cbn. destruct v; constructor; exact IH.
  - intros k v Hin Hv. apply filter_In. split; [exact Hin|]. cbn. now destruct v.
  - intros Hnd key. induction payload as [|[k v] rest IH]; [reflexivity|].
    cbn [map fst] in Hnd. apply List.NoDup_cons_iff in Hnd as [Hk Hnd].
    specialize (IH Hnd).
    destruct v; cbn;
      try (destruct (String.eqb k key); [reflexivity|exact IH]).
    destruct (String.eqb_spec k key) as [->|_]; [|exact IH].
    apply prop_absent. intros Hin. apply Hk. now apply pruneUndefined_keys.
Qed.

(** X14 (who gets past the token check).  [tokenAuth] passes a request on
    exactly when no token is configured, or what [trim] leaves of it is
    empty; or the path is [/health]; or the [token] query parameter is a
    string equal to what [trim] leaves of the configured token.  A repeated
    or bracketed [token] parameter, which is not a string, is refused
    whenever a token is configured.  [trim] is the platform's, whatever
    white space it strips. *)
Theorem tokenAuth_passes_iff (String_trim : string -> string)
    (MCP_AUTH_TOKEN : option string) (path : string) (token : JsVal) :
  let expected := match MCP_AUTH_TOKEN with Some s => String_trim s | None => "" end in
  tokenAuth String_trim MCP_AUTH_TOKEN path token = true
  <-> expected = "" \/ path = "/health" \/ token = VStr expected.
Proof.
  cbn zeta. unfold tokenAuth.
  set (expected := match MCP_AUTH_TOKEN with Some s => String_trim s | None => "" end).
  destruct expected as [|c rest] eqn:E.
  - cbn. tauto.
  - cbn [JS.truthy_string JS.is_empty negb].
    destruct (String.eqb_spec path "/health") as [->|Hp]; [tauto|].
    split.
    + intros H. apply andb_true_iff in H as [_ H]. apply String.eqb_eq in H.
      right. right. destruct token; try discriminate H. now subst.
    + intros [H|[H|H]]; [discriminate|contradiction|].
      rewrite H. apply andb_true_iff. split.
      * apply Nat.eqb_refl.
      * apply String.eqb_refl.
Qed.

Section IsolationFacts.

Variable JSON_parse : string -> option JsVal.
Variable isInitializeRequest : JsVal -> bool.
Variable randomUUID : nat -> string.
Variable transport_initializes : Http.Request -> bool.

Lemma step_isolated (g : Http.Gateway) (ev : Http.Event) :
  sessions_isolated g ->
  sessions_isolated
    (Http.step JSON_parse isInitializeRequest randomUUID transport_initializes g ev).
Proof.
  intros [Hlt Hinj].
  destruct (step_cases JSON_parse isInitializeRequest randomUUID transport_initializes g ev)
    as [->|[(sid & ->)|(req & ->)]]; [split; assumption| |].
  - split; cbn.
    + intros s t Hl. apply lookup_delete_Some in Hl as [_ Hl]. eauto.
    + intros s1 s2 t H1 H2.
      apply lookup_delete_Some in H1 as [_ H1]. apply lookup_delete_Some in H2 as [_ H2].
      eauto.
  - destruct (initialize_cases randomUUID transport_initializes req g)
      as (Hc & [(Ht & _)|(Ht & _ & _)]); cbn zeta in *; split; rewrite ?Hc, ?Ht.
    + intros s t Hl. specialize (Hlt s t Hl). lia.
    + exact Hinj.
    + intros s t Hl. apply lookup_insert_Some in Hl as [[_ <-]|[_ Hl]]; [lia|].
      specialize (Hlt s t Hl). lia.
    + intros s1 s2 t H1 H2.
      apply lookup_insert_Some in H1 as [[<- <-]|[Hn1 H1]];
        apply lookup_insert_Some in H2 as [[<- Heq]|[Hn2 H2]]; try reflexivity.
      * specialize (Hlt s2 _ H2). lia.
      * subst t. specialize (Hlt s1 _ H1). lia.
      * eauto.
Qed.

Lemma serve_isolated (evs : list Http.Event) (g : Http.Gateway) :
  sessions_isolated g ->
  sessions_isolated
    (Http.serve JSON_parse isInitializeRequest randomUUID transport_initializes evs g).
Proof.
  revert g. induction evs as [|ev evs IH]; intros g Hg; [exact Hg|].
  cbn. apply IH. now apply step_isolated.
Qed.

End IsolationFacts.

(** X15 (session isolation).  Whatever requests and close notifications the
    gateway has seen, and whatever [randomUUID] returns: two different
    registered session ids never name the same transport, so a request that
    bears one session's id is handled by that session's transport and by no
    other, and it leaves the registry as it is. *)
Theorem sessions_never_share_a_transport
    (JSON_parse : string -> option JsVal) (isInitializeRequest : JsVal -> bool)
    (randomUUID : nat -> string) (transport_initializes : Http.Request -> bool)
    (evs : list Http.Event) (sidA sidB : string) (tA tB : nat) (req : Http.Request) :
  let g := Http.serve JSON_parse isInitializeRequest randomUUID transport_initializes
             evs Http.initial in
  Http.transports g !! sidA = Some tA ->
  Http.transports g !! sidB = Some tB ->
  sidA <> sidB ->
  Http.session_header req = Some sidA ->
  Http.session_bound JSON_parse isInitializeRequest req = true ->
  Http.method req <> "DELETE" ->
  tA <> tB
  /\ Http.mcp JSON_parse isInitializeRequest randomUUID transport_initializes req g
     = (Http.Handled tA, g).
Proof.
  intros g HA HB Hne Hh Hb Hnd.
  assert (Hiso : sessions_isolated g).
  { unfold g. apply serve_isolated. split.
    - intros s t Hl. cbn in Hl. rewrite lookup_empty in Hl. discriminate.
    - intros s1 s2 t Hl. cbn in Hl. rewrite lookup_empty in Hl. discriminate. }
  assert (Hsound : registry_sound randomUUID g).
  { unfold g. apply serve_sound, initial_sound. }
  destruct (Hsound sidA tA HA) as (_ & Htr & _).
  split.
  - intros ->. apply Hne. destruct Hiso as [_ Hinj]. eauto.
  - assert (Hk : Http.known_session (Http.session_header req) g = Some tA).
    { unfold Http.known_session. now rewrite Hh, Htr, HA. }
    unfold Http.session_bound in Hb. unfold Http.mcp.
    destruct (String.eqb (Http.method req) "POST").
    + apply andb_true_iff in Hb as [Hb1 Hb2]. apply negb_true_iff in Hb1, Hb2.
      rewrite Hb1, Hb2, Hk. reflexivity.
    + destruct (String.eqb (Http.method req) "GET"); [now rewrite Hk|].
      cbn in Hb. apply String.eqb_eq in Hb. contradiction.
Qed.

Lemma sessions_never_share_a_transport_witness :
  let route := Http.mcp no_json sample_isInitialize unary_uuid accepts_all in
  let g := Http.serve no_json sample_isInitialize unary_uuid accepts_all
             [Http.Arrives (initialize_request None);
              Http.Arrives (initialize_request None)] Http.initial in
  route (Http.mkReq "POST" (Some "u") ping_body) g = (Http.Handled 0, g).
Proof.
  cbn zeta.
  assert (Hne : "u" <> "uu") by discriminate.
  assert (Hm : "POST" <> "DELETE") by discriminate.
  destruct (sessions_never_share_a_transport no_json sample_isInitialize unary_uuid
              accepts_all
              [Http.Arrives (initialize_request None);
               Http.Arrives (initialize_request None)]
              "u" "uu" 0%nat 1%nat (Http.mkReq "POST" (Some "u") ping_body)
              eq_refl eq_refl Hne eq_refl eq_refl Hm) as [_ H].
  exact H.
Defined.

(** * Organisations: the fallback of [updateOrganization] *)

Lemma js_contains_prefix (needle s : string) :
  String.prefix needle s = true -> js_contains needle s = true.
Proof. intros H. destruct s; cbn [js_contains]; rewrite H; reflexivity. Qed.

Lemma js_contains_append (needle before after : string) :
  js_contains needle (before +:+ needle +:+ after) = true.
Proof.
  induction before as [|c before IH].
  - rewrite append_nil. apply js_contains_prefix, prefix_append.
  - rewrite append_cons. cbn [js_contains]. rewrite IH. apply orb_true_r.
Qed.

Lemma prop_app_other (key k : string) (v : JsVal) (props : list (string * JsVal)) :
  String.eqb k key = false -> prop key (props ++ [(k, v)]) = prop key props.
Proof.
  intros Hk. induction props as [|[k' v'] rest IH]; cbn.
  - now rewrite Hk.
  - destruct (String.eqb k' key); [reflexivity|exact IH].
Qed.

Lemma set_if_defined_other (key k : string) (v : JsVal) (props : list (string * JsVal)) :
  String.eqb k key = false -> prop key (set_if_defined k v props) = prop key props.
Proof.
  intros Hk. unfold set_if_defined. destruct v; try reflexivity; now apply prop_app_other.
Qed.

(** [makeRequest] answered with a status outside 200..299, in full. *)
Lemma run_makeRequest_not_ok (env : ProcessEnv)
    (response_json : string -> option TokenResponse)
    (JSON_parse : string -> option JsVal) (net : Network)
    (endpoint method : string) (body : JsVal)
    (w w1 : World) (token : string) (response : Response) (dt : Z) :
  run net (getAccessToken env response_json) w = (Returned token, w1) ->
  net (length (sent w1)) (api_request (request_base (self w1)) endpoint method token body)
    = (Resolved response, dt) ->
  ok response = false ->
  run net (makeRequest env response_json JSON_parse endpoint method body) w
  = (Thrown (Error (request_failed_message response)),
     mkWorld (self w1) (clock w1 + dt)
       (sent w1 ++ [api_request (request_base (self w1)) endpoint method token body])).
Proof.
  intros Htok Hnet Hok. unfold makeRequest, this, fetch.
  rewrite run_bind, Htok. cbn [bind run]. fold (request_base (self w1)).
  rewrite Hnet, Hok. reflexivity.
Qed.

(** X16 (the singular path is tried on 404, and on anything that says 404).
    [updateOrganization] sends a PATCH to [/v2/organizations/<id>] whose
    body holds the [name], [description] and [tags] that are not
    [undefined], and never [nodeApprovalMode].  A returned value is returned.
    An error is thrown again unless its message contains ["404"]; if it
    does, the same body is sent as a PATCH to [/v2/organization/<id>] and
    the outcome of that call is the outcome.  A response with status 404 is
    such a case. *)
Theorem updateOrganization_falls_back_on_404
    (env : ProcessEnv) (response_json : string -> option TokenResponse)
    (JSON_parse : string -> option JsVal) (number_toString : number -> string)
    (net : Network) (id : number) (name description nodeApprovalMode tags : JsVal)
    (w : World) :
  let body :=
    VObj (set_if_defined "tags" tags
            (set_if_defined "description" description
               (set_if_defined "name" name []))) in
  let plural :=
    makeRequest env response_json JSON_parse
      ("/v2/organizations/" +:+ number_toString id) "PATCH" body in
  let singular :=
    makeRequest env response_json JSON_parse
      ("/v2/organization/" +:+ number_toString id) "PATCH" body in
  let update :=
    updateOrganization env response_json JSON_parse number_toString
      id name description nodeApprovalMode tags in
  member "nodeApprovalMode" body = VUndefined
  /\ (forall base token,
        req_body (api_request base ("/v2/organizations/" +:+ number_toString id)
                    "PATCH" token body) = JsonBody body)
  /\ (forall v w2, run net plural w = (Returned v, w2) -> run net update w = (Returned v, w2))
  /\ (forall e w2,
        run net plural w = (Thrown e, w2) ->
        run net update w
        = if js_contains "404" (message_of e) then run net singular w2 else (Thrown e, w2))
  /\ (forall token w1 response dt,
        run net (getAccessToken env response_json) w = (Returned token, w1) ->
        net (length (sent w1))
            (api_request (request_base (self w1))
               ("/v2/organizations/" +:+ number_toString id) "PATCH" token body)
          = (Resolved response, dt) ->
        status response = 404 ->
        run net update w
        = run net singular
            (mkWorld (self w1) (clock w1 + dt)
               (sent w1 ++ [api_request (request_base (self w1))
                              ("/v2/organizations/" +:+ number_toString id)
                              "PATCH" token body]))).
Proof.
  intros body plural singular update.
  assert (Hb : forall e w2,
            run net plural w = (Thrown e, w2) ->
            run net update w
            = if js_contains "404" (message_of e) then run net singular w2
              else (Thrown e, w2)).
  { intros e w2 H. unfold update, updateOrganization. fold body. fold plural.
    rewrite run_try_catch, H. fold singular.
    destruct (js_contains "404" (message_of e)); reflexivity. }
  split; [|split; [|split; [|split]]].
  - unfold body. cbn [member].
    rewrite !set_if_defined_other by reflexivity. reflexivity.
  - intros base token. reflexivity.
  - intros v w2 H. unfold update, updateOrganization. fold body. fold plural.
    rewrite run_try_catch, H. reflexivity.
  - exact Hb.
  - intros token w1 response dt Htok Hnet Hst.
    assert (Hok : ok response = false) by (unfold ok; rewrite Hst; reflexivity).
    pose proof (run_makeRequest_not_ok env response_json JSON_parse net
                  ("/v2/organizations/" +:+ number_toString id) "PATCH" body
                  w w1 token response dt Htok Hnet Hok) as Hrun.
    rewrite (Hb _ _ Hrun).
    assert (Hc : js_contains "404" (message_of (Error (request_failed_message response)))
                 = true).
    { cbn [message_of]. unfold request_failed_message. rewrite Hst.
      change (JS.of_Z 404) with "404".
      apply (js_contains_append "404" "API request failed: "). }
    now rewrite Hc.
Qed.

(** * Paging and searching *)

Lemma with_method_app (m : string) (xs ys : list HttpRequest) :
  with_method m (xs ++ ys) = with_method m xs ++ with_method m ys.
Proof. unfold with_method. apply List.filter_app. Qed.

Lemma with_method_token_requests (o : NinjaOneAPI) (bases : list string) :
  with_method "GET" (map (token_request o) bases) = [].
Proof. induction bases as [|b rest IH]; [reflexivity|exact IH]. Qed.

Section PagingFacts.

Variable env : ProcessEnv.
Variable response_json : string -> option TokenResponse.
Variable JSON_parse : string -> option JsVal.
Variable number_toString : number -> string.
Variable net : Network.

(** An upstream call adds at most one request that is not a token request. *)
Lemma makeRequest_one_get (endpoint method : string) (body : JsVal) (w : World) :
  exists more,
    sent (snd (run net (makeRequest env response_json JSON_parse endpoint method body) w))
    = sent w ++ more
    /\ (length (with_method "GET" more) <= 1)%nat.
Proof.
  destruct (getAccessToken_requests env response_json net w) as (bases & Hs & _).
  cbn zeta in Hs.
  destruct (run net (getAccessToken env response_json) w) as [[token|e] w1] eqn:Htok;
    cbn [snd] in Hs.
  - exists (map (token_request (self w)) bases
            ++ [api_request (request_base (self w1)) endpoint method token body]).
    rewrite (run_makeRequest_sent env response_json JSON_parse net endpoint method body
               w w1 token Htok), Hs, <- app_assoc.
    split; [reflexivity|].
    rewrite with_method_app, with_method_token_requests. cbn.
    destruct (String.eqb _ "GET"); cbn; lia.
  - exists (map (token_request (self w)) bases).
    rewrite (run_makeRequest_token_fails env response_json JSON_parse net endpoint method
               body w w1 e Htok).
    cbn [snd]. split; [exact Hs|]. rewrite with_method_token_requests. cbn. lia.
Qed.

Lemma getDevices_one_get (df pageSize after : JsVal) (w : World) :
  exists more,
    sent (snd (run net (getDevices env response_json JSON_parse number_toString
                          df pageSize after) w))
    = sent w ++ more
    /\ (length (with_method "GET" more) <= 1)%nat.
Proof.
  unfold getDevices, get_with_query.
  destruct (buildQuery number_toString _) as [query|e].
  - apply makeRequest_one_get.
  - exists []. cbn. rewrite app_nil_r. split; [reflexivity|lia].
Qed.

Lemma getAllDevices_from_gets (pages : nat) (df after : JsVal) (acc : list JsVal) (w : World) :
  exists more,
    sent (snd (run net (getAllDevices_from env response_json JSON_parse number_toString
                          pages df after acc) w))
    = sent w ++ more
    /\ (length (with_method "GET" more) <= pages)%nat.
Proof.
  revert after acc w. induction pages as [|pages IH]; intros after acc w.
  - exists []. cbn. rewrite app_nil_r. split; [reflexivity|lia].
  - cbn [getAllDevices_from]. rewrite run_bind.
    destruct (getDevices_one_get df (num_Z PAGE_SIZE) after w) as (more1 & Hs1 & Hc1).
    destruct (run net (getDevices env response_json JSON_parse number_toString
                         df (num_Z PAGE_SIZE) after) w) as [[batch|e] w1];
      cbn [snd] in Hs1.
    2:{ exists more1. cbn [snd]. split; [exact Hs1|lia]. }
    assert (Hstop : forall r : list JsVal,
              exists more,
                sent (snd (run net (Ret r) w1)) = sent w ++ more
                /\ (length (with_method "GET" more) <= S pages)%nat).
    { intros r. exists more1. cbn. split; [exact Hs1|lia]. }
    destruct batch as [| |b|n|s|items|props]; try apply Hstop.
    destruct (length items =? 0)%nat; [apply Hstop|].
    destruct (Z.of_nat (length items) <? PAGE_SIZE); [apply Hstop|].
    destruct (last_id items) as [after'|e].
    + destruct (IH after' (acc ++ items) w1) as (more2 & Hs2 & Hc2).
      exists (more1 ++ more2). rewrite Hs2, Hs1, <- app_assoc.
      split; [reflexivity|]. rewrite with_method_app, length_app. lia.
    + exists more1. cbn. split; [exact Hs1|lia].
Qed.

End PagingFacts.

(** X17 (paging is bounded).  Whatever the upstream answers, however long
    its pages are and whether or not it honours the cursor,
    [getAllDevices] sends at most 50 GET requests. *)
Theorem getAllDevices_sends_at_most_50_gets
    (env : ProcessEnv) (response_json : string -> option TokenResponse)
    (JSON_parse : string -> option JsVal) (number_toString : number -> string)
    (net : Network) (df : JsVal) (w : World) :
  exists more,
    sent (snd (run net (getAllDevices env response_json JSON_parse number_toString df) w))
    = sent w ++ more
    /\ (length (with_method "GET" more) <= 50)%nat.
Proof. apply getAllDevices_from_gets. Qed.

(** [makeRequest] answered with a 2xx status and a JSON body, in full. *)
Lemma run_makeRequest_json (env : ProcessEnv)
    (response_json : string -> option TokenResponse)
    (JSON_parse : string -> option JsVal) (net : Network)
    (endpoint : string) (body : JsVal)
    (w w1 : World) (token : string) (response : Response) (dt : Z) (v : JsVal) :
  run net (getAccessToken env response_json) w = (Returned token, w1) ->
  net (length (sent w1)) (api_request (request_base (self w1)) endpoint "GET" token body)
    = (Resolved response, dt) ->
  ok response = true ->
  JS.trim (text response) <> "" ->
  JSON_parse (text response) = Some v ->
  run net (makeRequest env response_json JSON_parse endpoint "GET" body) w
  = (Returned v,
     mkWorld (self w1) (clock w1 + dt)
       (sent w1 ++ [api_request (request_base (self w1)) endpoint "GET" token body])).
Proof.
  intros Htok Hnet Hok Htrim Hjson. unfold makeRequest, this, fetch.
  rewrite run_bind, Htok. cbn [bind run]. fold (request_base (self w1)).
  rewrite Hnet, Hok. cbn [negb String.eqb andb].
  change (String.eqb "GET" "DELETE") with false. cbn [andb].
  assert (Ht : JS.truthy_string (text response) = true).
  { destruct (text response); [now contradiction Htrim|reflexivity]. }
  assert (Hl : (String.length (JS.trim (text response)) =? 0)%nat = false).
  { destruct (JS.trim (text response)); [congruence|reflexivity]. }
  rewrite Ht, Hl, Hjson. reflexivity.
Qed.

(** X18 (a short page ends the paging).  When the first page that the
    upstream returns is a JSON array of fewer than 1000 devices,
    [getAllDevices] returns exactly that array after this one GET request,
    which asks for [/v2/devices] with [pageSize=1000] and no cursor. *)
Theorem getAllDevices_stops_at_short_page
    (env : ProcessEnv) (response_json : string -> option TokenResponse)
    (JSON_parse : string -> option JsVal) (number_toString : number -> string)
    (net : Network) (w w1 : World) (token : string)
    (response : Response) (dt : Z) (items : list JsVal) :
  let page_request :=
    api_request (request_base (self w1))
      ("/v2/devices?pageSize=" +:+ urlencode (number_toString (Finite (inject_Z 1000))))
      "GET" token VUndefined in
  run net (getAccessToken env response_json) w = (Returned token, w1) ->
  net (length (sent w1)) page_request = (Resolved response, dt) ->
  ok response = true ->
  JS.trim (text response) <> "" ->
  JSON_parse (text response) = Some (VArr items) ->
  (length items < 1000)%nat ->
  run net (getAllDevices env response_json JSON_parse number_toString VUndefined) w
  = (Returned items,
     mkWorld (self w1) (clock w1 + dt) (sent w1 ++ [page_request])).
Proof.
  intros page_request Htok Hnet Hok Htrim Hjson Hlen.
  unfold getAllDevices, MAX_PAGES. cbn [getAllDevices_from]. rewrite run_bind.
  unfold getDevices, get_with_query.
  assert (Hq : buildQuery number_toString
                 [("df", VUndefined); ("pageSize", num_Z PAGE_SIZE); ("after", VUndefined)]
               = Returned ("?pageSize=" +:+ urlencode (number_toString (Finite (inject_Z 1000))))).
  { unfold buildQuery. cbn [query_pairs js_toString num_Z].
    unfold URLSearchParams_toString, JS.join. cbn [map String.concat fst snd].
    change (urlencode "pageSize") with "pageSize". reflexivity. }
  rewrite Hq.
  change ("/v2/devices" +:+ "?pageSize=" +:+ urlencode (number_toString (Finite (inject_Z 1000))))
    with ("/v2/devices?pageSize=" +:+ urlencode (number_toString (Finite (inject_Z 1000)))).
  rewrite (run_makeRequest_json env response_json JSON_parse net _ VUndefined
             w w1 token response dt (VArr items) Htok Hnet Hok Htrim Hjson).
  destruct items as [|x rest]; [reflexivity|].
  assert (Hshort : (Z.of_nat (length (x :: rest)) <? PAGE_SIZE) = true).
  { apply Z.ltb_lt. unfold PAGE_SIZE. lia. }
  cbn [length Nat.eqb app] in *. rewrite Hshort. reflexivity.
Qed.


Lemma getAllDevices_stops_at_short_page_witness :
  run net_devices
    (getAllDevices sample_env sample_json devices_json integral_toString VUndefined)
    sample_world
  = (Returned sample_devices,
     mkWorld (self (snd (run net_devices (getAccessToken sample_env sample_json) sample_world)))
       1700000000020
       (sent (snd (run net_devices (getAccessToken sample_env sample_json) sample_world))
        ++ [api_request "https://app.ninjarmm.com" "/v2/devices?pageSize=1000" "GET" "tok-1"
              VUndefined])).
Proof.
  exact (getAllDevices_stops_at_short_page sample_env sample_json devices_json
           integral_toString net_devices sample_world
           (snd (run net_devices (getAccessToken sample_env sample_json) sample_world))
           "tok-1" (mkResponse 200 "OK" "[{},{},{},{}]") 10 sample_devices
           eq_refl eq_refl eq_refl ltac:(discriminate) eq_refl ltac:(cbn; lia)).
Defined.

(** ** [searchDevicesByName] *)

Lemma filter_throwing_returned (f : JsVal -> Result bool) (xs kept : list JsVal) :
  filter_throwing f xs = Returned kept ->
  kept = List.filter (fun x => match f x with Returned keep => keep | Thrown _ => false end) xs
  /\ List.Forall (fun x => exists keep, f x = Returned keep) xs.
Proof.
  revert kept. induction xs as [|x rest IH]; intros kept H; cbn in H.
  - injection H as <-. split; [reflexivity|constructor].
  - destruct (f x) as [keep|e] eqn:Hf; [|discriminate].
    destruct (filter_throwing f rest) as [kept'|e] eqn:Hrest; [|discriminate].
    injection H as <-. destruct (IH kept' eq_refl) as [-> Hall].
    split.
    + cbn. rewrite Hf. reflexivity.
    + constructor; [now exists keep|exact Hall].
Qed.

Lemma slice_to_prefix {A : Type} (limit : Z) (xs : list A) :
  slice_to limit xs `prefix_of` xs.
Proof.
  unfold slice_to. destruct (0 <=? limit).
  - exists (skipn (Z.to_nat limit) xs). symmetry. apply firstn_skipn.
  - exists (skipn (length xs - Z.to_nat (- limit)) xs). symmetry. apply firstn_skipn.
Qed.

Lemma slice_to_length {A : Type} (limit : Z) (xs : list A) :
  0 <= limit -> (length (slice_to limit xs) <= Z.to_nat limit)%nat.
Proof.
  intros H. unfold slice_to. destruct (Z.leb_spec 0 limit); [|lia].
  rewrite length_firstn. lia.
Qed.

Lemma slice_number_prefix {A : Type} (limit : number) (xs : list A) :
  slice_number limit xs `prefix_of` xs.
Proof.
  destruct limit as [|[|]|q]; cbn.
  - now exists xs.
  - now exists xs.
  - exists []. now rewrite app_nil_r.
  - apply slice_to_prefix.
Qed.

(** Dropping the fraction of a number that is not negative. *)
Lemma truncate_nonneg (q : Q) :
  (0 <= q)%Q -> 0 <= truncate q /\ (inject_Z (truncate q) <= q)%Q.
Proof.
  intros H. unfold truncate. destruct q as [n d].
  assert (Hn : 0 <= n) by (unfold Qle in H; cbn in H; lia).
  cbn [Qnum Qden]. rewrite Z.quot_div_nonneg by lia.
  split.
  - apply Z.div_pos; lia.
  - exact (Qfloor_le (n # d)).
Qed.

Lemma slice_number_length {A : Type} (q : Q) (xs : list A) :
  (0 <= q)%Q ->
  slice_number (Finite q) xs = firstn (Z.to_nat (truncate q)) xs
  /\ (inject_Z (Z.of_nat (length (slice_number (Finite q) xs))) <= q)%Q.
Proof.
  intros H. destruct (truncate_nonneg q H) as [Hpos Hle]. cbn [slice_number].
  split.
  - unfold slice_to. destruct (Z.leb_spec 0 (truncate q)); [reflexivity|lia].
  - pose proof (slice_to_length (truncate q) xs Hpos) as Hlen.
    eapply Qle_trans; [|exact Hle].
    rewrite <- Zle_Qle. lia.
Qed.

(** X19 (what a search reports).  A search that returns sends nothing
    beyond what listing all devices sends.  Its report names the search
    term, counts ALL the devices listed under [totalDevices], and counts
    under [totalFound] the devices it returns, not the devices that match:
    what it returns is a run of matching devices from the first on, in the
    order of the listing, as many as [slice(0, limit)] keeps: for a limit
    that is not negative, the first [limit] of them with the fraction of
    [limit] dropped.  A device matches when the lower-cased search term
    occurs in its lower-cased [systemName] or [displayName]; the
    lower-casing is the platform's. *)
Theorem searchDevicesByName_reports_first_matches
    (env : ProcessEnv) (response_json : string -> option TokenResponse)
    (JSON_parse : string -> option JsVal) (number_toString : number -> string)
    (String_toLowerCase : string -> string)
    (net : Network) (w w1 w2 : World) (searchName : string) (limit : number)
    (devices : list JsVal) (report : JsVal) :
  run net (getAllDevices env response_json JSON_parse number_toString VUndefined) w
    = (Returned devices, w1) ->
  run net (searchDevicesByName env response_json JSON_parse number_toString
             String_toLowerCase searchName limit) w
    = (Returned report, w2) ->
  let matching := List.filter (kept_by String_toLowerCase searchName) devices in
  exists found,
    w2 = w1
    /\ report = VObj [ ("searchTerm", VStr searchName);
                       ("totalDevices", num_Z (Z.of_nat (length devices)));
                       ("totalFound", num_Z (Z.of_nat (length found)));
                       ("devices", VArr found) ]
    /\ found `prefix_of` matching
    /\ found `sublist_of` devices
    /\ (forall q, limit = Finite q -> (0 <= q)%Q ->
          found = firstn (Z.to_nat (truncate q)) matching
          /\ (inject_Z (Z.of_nat (length found)) <= q)%Q)
    /\ (limit = NaN -> found = [])
    /\ (length found <= length devices)%nat
    /\ List.Forall (fun d => name_matches String_toLowerCase searchName d = Returned true)
         found.
Proof.
  intros Hall Hsearch matching.
  unfold searchDevicesByName in Hsearch. rewrite run_bind, Hall in Hsearch.
  destruct (filter_throwing (name_matches String_toLowerCase searchName) devices)
    as [kept|e] eqn:Hf; cbn [run] in Hsearch; [|discriminate].
  injection Hsearch as <- <-.
  destruct (filter_throwing_returned _ _ _ Hf) as [Hkept _].
  fold (kept_by String_toLowerCase searchName) in Hkept. fold matching in Hkept. subst kept.
  assert (Hsub : matching `sublist_of` devices).
  { unfold matching. clear. induction devices as [|d rest IH]; cbn.
    - constructor.
    - destruct (kept_by String_toLowerCase searchName d);
        [now constructor|now apply sublist_cons]. }
  assert (Hpre : slice_number limit matching `prefix_of` matching)
    by apply slice_number_prefix.
  assert (Hfound : sublist (slice_number limit matching) matching).
  { destruct Hpre as [rest Hrest]. rewrite Hrest at 2. apply sublist_inserts_r. reflexivity. }
  exists (slice_number limit matching).
  split; [reflexivity|]. split; [reflexivity|].
  split; [exact Hpre|].
  split; [etransitivity; eassumption|].
  split; [intros q -> Hq; now apply slice_number_length|].
  split; [now intros ->|].
  split; [apply sublist_length; etransitivity; eassumption|].
  apply List.Forall_forall. intros d Hd.
  assert (Hin : List.In d matching).
  { destruct Hpre as [rest Hrest]. rewrite Hrest. apply List.in_or_app. now left. }
  apply List.filter_In in Hin. destruct Hin as [_ Hk]. unfold kept_by in Hk.
  destruct (name_matches String_toLowerCase searchName d) as [[|]|]; congruence.
Qed.

Lemma searchDevicesByName_reports_first_matches_witness :
  exists found,
    snd (run net_devices
           (searchDevicesByName sample_env sample_json devices_json integral_toString
              JS.toLowerCase "alpha" (Finite (5 # 2))) sample_world)
    = snd (run net_devices
             (getAllDevices sample_env sample_json devices_json integral_toString VUndefined)
             sample_world)
    /\ found = firstn 2 (List.filter (kept_by JS.toLowerCase "alpha") sample_devices)
    /\ (inject_Z (Z.of_nat (length found)) <= 5 # 2)%Q.
Proof.
  destruct (searchDevicesByName_reports_first_matches sample_env sample_json devices_json
              integral_toString JS.toLowerCase net_devices sample_world _ _ "alpha"
              (Finite (5 # 2)) _ _ eq_refl eq_refl)
    as (found & Hw & _ & _ & _ & Hlimit & _).
  destruct (Hlimit (5 # 2) eq_refl ltac:(discriminate)) as [Hfound Hlen].
  exists found. exact (conj Hw (conj Hfound Hlen)).
Defined.

(** ** [findWindows11Devices] *)

Lemma filter_throwing_total (f : JsVal -> Result bool) (xs : list JsVal) :
  List.Forall (fun x => exists keep, f x = Returned keep) xs ->
  exists kept, filter_throwing f xs = Returned kept /\ (length kept <= length xs)%nat.
Proof.
  induction 1 as [|x rest [keep Hx] _ [kept [IH Hlen]]]; cbn.
  - exists []. split; [reflexivity|cbn; lia].
  - rewrite Hx, IH. exists (if keep then x :: kept else kept).
    split; [reflexivity|]. destruct keep; cbn; lia.
Qed.

Lemma slice_to_50_length {A : Type} (xs : list A) : (length (slice_to 50 xs) <= 50)%nat.
Proof. exact (slice_to_length 50 xs ltac:(lia)). Qed.

Section Windows11Facts.

Variable env : ProcessEnv.
Variable response_json : string -> option TokenResponse.
Variable JSON_parse : string -> option JsVal.
Variable number_toString : number -> string.
Variable net : Network.

(** A GET through [makeRequest] that returns a value has sent its GET. *)
Lemma makeRequest_get_accounted (endpoint : string) (body : JsVal) (w : World) :
  exists more,
    sent (snd (run net (makeRequest env response_json JSON_parse endpoint "GET" body) w))
    = sent w ++ more
    /\ (length (with_method "GET" more) <= 1)%nat
    /\ (forall v,
          fst (run net (makeRequest env response_json JSON_parse endpoint "GET" body) w)
          = Returned v ->
          length (with_method "GET" more) = 1%nat).
Proof.
  destruct (getAccessToken_requests env response_json net w) as (bases & Hs & _).
  cbn zeta in Hs.
  destruct (run net (getAccessToken env response_json) w) as [[token|e] w1] eqn:Htok;
    cbn [snd] in Hs.
  - exists (map (token_request (self w)) bases
            ++ [api_request (request_base (self w1)) endpoint "GET" token body]).
    rewrite (run_makeRequest_sent env response_json JSON_parse net endpoint "GET" body
               w w1 token Htok), Hs, <- app_assoc.
    split; [reflexivity|].
    rewrite with_method_app, with_method_token_requests.
    assert (Hone : with_method "GET"
                     [api_request (request_base (self w1)) endpoint "GET" token body]
                   = [api_request (request_base (self w1)) endpoint "GET" token body]).
    { unfold with_method, api_request. rewrite andb_false_r. reflexivity. }
    rewrite Hone. cbn. split; [lia|reflexivity].
  - exists (map (token_request (self w)) bases).
    rewrite (run_makeRequest_token_fails env response_json JSON_parse net endpoint "GET"
               body w w1 e Htok).
    cbn [snd fst]. split; [exact Hs|]. rewrite with_method_token_requests.
    split; [cbn; lia|discriminate].
Qed.

(** One turn of the loop: it always comes back, and a hit has cost a GET. *)
Lemma inspect_device_accounted (device : JsVal) (w : World) :
  exists hit w1 more,
    run net (try_catch (inspect_device env response_json JSON_parse number_toString device)
               (fun _ => Ret None)) w
    = (Returned hit, w1)
    /\ sent w1 = sent w ++ more
    /\ (length (with_method "GET" more) <= 1)%nat
    /\ (hit <> None -> length (with_method "GET" more) = 1%nat).
Proof.
  rewrite run_try_catch. unfold inspect_device. rewrite run_bind. unfold getDevice.
  destruct (template_of number_toString (member "id" device)) as [s|e].
  - destruct (makeRequest_get_accounted ("/v2/device/" +:+ s) VUndefined w)
      as (more & Hs & Hle & Hone).
    destruct (run net (makeRequest env response_json JSON_parse ("/v2/device/" +:+ s)
                         "GET" VUndefined) w) as [[details|e] w1];
      cbn [fst snd] in Hs, Hone.
    + destruct (os_name_includes details) as [[|]|e]; cbn [run].
      * exists (Some (windows11_entry device details)), w1, more.
        split; [reflexivity|]. split; [exact Hs|]. split; [exact Hle|].
        intros _. now apply (Hone details).
      * exists None, w1, more. split; [reflexivity|]. split; [exact Hs|].
        split; [exact Hle|]. congruence.
      * exists None, w1, more. split; [reflexivity|]. split; [exact Hs|].
        split; [exact Hle|]. congruence.
    + cbn [run]. exists None, w1, more. split; [reflexivity|]. split; [exact Hs|].
      split; [exact Hle|]. congruence.
  - cbn [run]. exists None, w, []. rewrite app_nil_r.
    split; [reflexivity|]. split; [reflexivity|]. split; [cbn; lia|]. congruence.
Qed.

Lemma scan_windows11_accounted (limit : number) (todo found : list JsVal) (w : World) :
  exists added w' more,
    run net (scan_windows11 env response_json JSON_parse number_toString limit todo found) w
    = (Returned (found ++ added), w')
    /\ sent w' = sent w ++ more
    /\ (length (with_method "GET" more) <= length todo)%nat
    /\ (length added <= length (with_method "GET" more))%nat
    /\ ((length added <= 1)%nat
        \/ reached (length (found ++ added) - 1) limit = false).
Proof.
  revert found w. induction todo as [|device rest IH]; intros found w.
  - exists [], w, []. cbn. rewrite !app_nil_r.
    split; [reflexivity|]. split; [reflexivity|]. split; [lia|]. split; [lia|].
    left. lia.
  - cbn [scan_windows11]. rewrite run_bind.
    destruct (inspect_device_accounted device w) as (hit & w1 & more1 & -> & Hs1 & Hle1 & Hone).
    destruct hit as [entry|].
    + specialize (Hone ltac:(discriminate)).
      cbn zeta. destruct (reached (length (found ++ [entry])) limit) eqn:Hfull.
      * exists [entry], w1, more1. cbn [run length].
        split; [reflexivity|]. split; [exact Hs1|]. split; [lia|]. split; [lia|].
        left. lia.
      * destruct (IH (found ++ [entry]) w1)
          as (added & w' & more2 & Hrun & Hs2 & Hle2 & Hadd & Hlim).
        exists (entry :: added), w', (more1 ++ more2).
        rewrite Hrun, Hs2, Hs1, <- !app_assoc. cbn [app].
        split; [reflexivity|]. split; [reflexivity|].
        rewrite with_method_app, length_app. cbn [length].
        split; [lia|]. split; [lia|].
        rewrite <- app_assoc in Hlim. cbn [app] in Hlim.
        destruct Hlim as [Hshort|Hlim]; [|now right].
        destruct added as [|a [|b added]]; cbn [length] in Hshort; [left; cbn; lia| |lia].
        right. rewrite length_app in *. cbn [length] in *.
        replace (length found + 2 - 1)%nat with (length found + 1)%nat by lia.
        exact Hfull.
    + destruct (IH found w1) as (added & w' & more2 & Hrun & Hs2 & Hle2 & Hadd & Hlim).
      exists added, w', (more1 ++ more2).
      rewrite Hrun, Hs2, Hs1, <- app_assoc.
      split; [reflexivity|]. split; [reflexivity|].
      rewrite with_method_app, length_app. cbn [length].
      split; [lia|]. split; [lia|]. exact Hlim.
Qed.

End Windows11Facts.

(** X20 (detail requests may fail silently).  Once all devices are listed
    and none of them is [null], [findWindows11Devices] returns a report,
    whatever happens to the requests for the details of single devices: a
    device whose details cannot be fetched or read is left out without a
    trace.  After the listing it sends at most 50 GET requests; each device
    reported has cost one of them; [totalDevices] counts the whole listing.
    The loop stops as soon as the number of devices found is [>= limit],
    tested after a device is added: so one device at most is reported, or
    the limit was not reached before the last one was added.  For a
    positive number [limit] that is fewer than [limit + 1] devices, hence at
    most [limit] when [limit] is whole. *)
Theorem findWindows11Devices_skips_failures
    (env : ProcessEnv) (response_json : string -> option TokenResponse)
    (JSON_parse : string -> option JsVal) (number_toString : number -> string)
    (net : Network) (w w1 : World) (devices : list JsVal) (limit : number) :
  run net (getAllDevices env response_json JSON_parse number_toString VUndefined) w
    = (Returned devices, w1) ->
  forallb has_properties devices = true ->
  exists found w2 more,
    run net (findWindows11Devices env response_json JSON_parse number_toString limit) w
    = (Returned (VObj [ ("totalDevices", num_Z (Z.of_nat (length devices)));
                        ("totalFound", num_Z (Z.of_nat (length found)));
                        ("devices", VArr found) ]), w2)
    /\ sent w2 = sent w1 ++ more
    /\ (length (with_method "GET" more) <= 50)%nat
    /\ (length found <= length (with_method "GET" more))%nat
    /\ ((length found <= 1)%nat \/ reached (length found - 1) limit = false)
    /\ (forall q, limit = Finite q -> (0 < q)%Q ->
          (inject_Z (Z.of_nat (length found)) < q + 1)%Q)
    /\ (forall n, limit = Finite (inject_Z n) -> 1 <= n ->
          (length found <= Z.to_nat n)%nat).
Proof.
  intros Hall Hprops. unfold findWindows11Devices. rewrite run_bind, Hall.
  assert (Hfilter : List.Forall (fun d => exists keep, is_windows d = Returned keep) devices).
  { apply List.Forall_forall. intros d Hd.
    apply (proj1 (List.forallb_forall _ _) Hprops) in Hd.
    unfold is_windows, read_member. destruct d; try discriminate; eexists; reflexivity. }
  destruct (filter_throwing_total _ _ Hfilter) as (windowsDevices & -> & _).
  rewrite run_bind.
  destruct (scan_windows11_accounted env response_json JSON_parse number_toString net
              limit (slice_to 50 windowsDevices) [] w1)
    as (found & w2 & more & Hrun & Hs & Hle & Hadd & Hlim).
  cbn [app] in Hrun, Hlim. rewrite Hrun. cbn [run].
  assert (Hbound : forall q, limit = Finite q -> (0 < q)%Q ->
            (inject_Z (Z.of_nat (length found)) < q + 1)%Q).
  { intros q -> Hq. destruct Hlim as [Hshort|Hlim].
    - apply Qle_lt_trans with (y := inject_Z 1).
      + rewrite <- Zle_Qle. lia.
      + change (inject_Z 1) with (0 + 1)%Q. apply Qplus_lt_le_compat; [exact Hq|apply Qle_refl].
    - cbn [reached] in Hlim.
      assert (Hlt : (inject_Z (Z.of_nat (length found - 1)) < q)%Q).
      { apply Qnot_le_lt. intros Hge. apply Qle_bool_iff in Hge. congruence. }
      apply Qle_lt_trans with (y := (inject_Z (Z.of_nat (length found - 1)) + 1)%Q).
      + change 1%Q with (inject_Z 1). rewrite <- inject_Z_plus, <- Zle_Qle. lia.
      + apply Qplus_lt_le_compat; [exact Hlt|apply Qle_refl]. }
  exists found, w2, more.
  split; [reflexivity|]. split; [exact Hs|].
  split; [pose proof (slice_to_50_length windowsDevices); lia|].
  split; [exact Hadd|].
  split; [exact Hlim|].
  split; [exact Hbound|].
  intros n Hn Hpos.
  assert (Hq : (0 < inject_Z n)%Q) by (rewrite <- (Zlt_Qlt 0); lia).
  specialize (Hbound (inject_Z n) Hn Hq).
  change 1%Q with (inject_Z 1) in Hbound.
  rewrite <- inject_Z_plus, <- Zlt_Qlt in Hbound. lia.
Qed.

Lemma findWindows11Devices_skips_failures_witness :
  exists found w2 more,
    run net_windows
      (findWindows11Devices sample_env sample_json windows_json integral_toString
         (Finite (3 # 2)))
      sample_world
    = (Returned (VObj [ ("totalDevices", num_Z 4);
                        ("totalFound", num_Z (Z.of_nat (length found)));
                        ("devices", VArr found) ]), w2)
    /\ sent w2
       = sent (snd (run net_windows
                      (getAllDevices sample_env sample_json windows_json integral_toString
                         VUndefined) sample_world)) ++ more
    /\ (length (with_method "GET" more) <= 50)%nat
    /\ (length found <= length (with_method "GET" more))%nat
    /\ (inject_Z (Z.of_nat (length found)) < (3 # 2) + 1)%Q.
Proof.
  destruct (findWindows11Devices_skips_failures sample_env sample_json windows_json
              integral_toString net_windows sample_world _ windows_devices (Finite (3 # 2))
              eq_refl eq_refl)
    as (found & w2 & more & Hrun & Hs & Hle & Hadd & _ & Hbound & _).
  exists found, w2, more.
  exact (conj Hrun (conj Hs (conj Hle (conj Hadd (Hbound (3 # 2) eq_refl eq_refl))))).
Defined.

(** * A pin made while a token is on its way *)

Section RaceFacts.

Variable env : ProcessEnv.
Variable response_json : string -> option TokenResponse.

(** The call parked on its first token request, and what it does to the
    object it finds when the response is a token: in auto-detection it pins
    the candidate first. *)
Lemma getAccessToken_resumes (w : World) :
  isConfigured (self w) = true ->
  fresh_token (self w) (clock w) = None ->
  let req := token_request (self w) (first_endpoint env (self w)) in
  exists k,
    advance (getAccessToken env response_json) w
      = (Awaiting req k, mkWorld (self w) (clock w) (sent w ++ [req]))
    /\ forall response token w',
         ok response = true ->
         response_json (text response) = Some token ->
         advance (k (Resolved response)) w'
         = (Settled (Returned (access_token token)),
            mkWorld
              (set_tokenExpiry (Some (clock w' + expires_in token * 1000))
                 (set_accessToken (Some (access_token token))
                    (if unresolved (self w)
                     then set_baseUrlExplicit true
                            (set_baseUrl (Some (hd "" (getCandidateBaseUrls env))) (self w'))
                     else self w')))
              (clock w') (sent w')).
Proof.
  intros Hc Hf. cbn zeta. unfold getAccessToken, this, first_endpoint.
  cbn [bind advance]. rewrite Hc. cbn [negb].
  rewrite advance_bind, advance_cached_token, Hf. cbn [bind advance].
  destruct (unresolved (self w)) eqn:Hu.
  - pose proof (candidates_nonempty env) as Hne.
    destruct (getCandidateBaseUrls env) as [|c rest]; [congruence|]. clear Hne.
    cbn [sweep hd]. rewrite advance_try_catch, advance_bind.
    unfold requestToken, this, fetch. cbn [bind advance].
    eexists. split; [reflexivity|].
    intros response token w' Hok Hj. cbv beta iota.
    rewrite Hok, Hj. reflexivity.
  - rewrite advance_bind.
    unfold requestToken, this, fetch. cbn [bind advance].
    eexists. split; [reflexivity|].
    intros response token w' Hok Hj. cbv beta iota.
    rewrite Hok, Hj. reflexivity.
Qed.

End RaceFacts.

(** X21 (a pin made while a token is on its way).  A caller asks for a
    token and is parked on its request; [setBaseUrl] then pins an endpoint
    and clears the cache; then the response arrives with a token.  The
    waiting call stores that token over the cleared cache, although it was
    issued by the endpoint asked before the pin.  If the call was
    auto-detecting, it also replaces the pin just made by its first
    candidate; if an endpoint was pinned before, the new pin stays and now
    holds a token of the old endpoint.  No further request is sent. *)
Theorem pin_during_acquisition_is_overtaken
    (env : ProcessEnv) (response_json : string -> option TokenResponse)
    (net : Network) (w : World) (url : string)
    (response : Response) (token : TokenResponse) (t : Z) :
  isConfigured (self w) = true ->
  fresh_token (self w) (clock w) = None ->
  JS.includes REGION_MAP_values (normalizeBaseUrl url)
  || ALLOWED_DOMAIN_PATTERN_test (normalizeBaseUrl url) = true ->
  ok response = true ->
  response_json (text response) = Some token ->
  let calling := spawn (getAccessToken env response_json) ([], w) in
  let pinned := run net (setBaseUrl url) (snd calling) in
  let done := settle 0 (Resolved response) t (fst calling, snd pinned) in
  sent (snd calling) = sent w ++ [token_request (self w) (first_endpoint env (self w))]
  /\ fst pinned = Returned tt
  /\ baseUrl (self (snd pinned)) = Some (normalizeBaseUrl url)
  /\ accessToken (self (snd pinned)) = None
  /\ fst done = [Settled (Returned (access_token token))]
  /\ accessToken (self (snd done)) = Some (access_token token)
  /\ tokenExpiry (self (snd done)) = Some (t + expires_in token * 1000)
  /\ baseUrl (self (snd done))
     = Some (if unresolved (self w) then hd "" (getCandidateBaseUrls env)
             else normalizeBaseUrl url)
  /\ sent (snd done) = sent (snd calling).
Proof.
  intros Hc Hf Hallowed Hok Hj.
  destruct (getAccessToken_resumes env response_json w Hc Hf) as (k & Hpark & Hresume).
  cbn zeta in Hpark. unfold spawn. cbn [snd fst]. rewrite Hpark. cbn [app snd fst].
  rewrite run_setBaseUrl. cbn [self clock sent]. rewrite Hallowed. cbn [fst snd].
  unfold settle. cbn [fst snd lookup list_lookup].
  rewrite (Hresume response token _ Hok Hj). cbn [fst snd self clock sent].
  do 5 (split; [reflexivity|]).
  split; [destruct (unresolved (self w)); reflexivity|].
  split; [destruct (unresolved (self w)); reflexivity|].
  split; [destruct (unresolved (self w)); reflexivity|].
  reflexivity.
Qed.

Lemma pin_during_acquisition_is_overtaken_witness :
  let calling := spawn (getAccessToken sample_env sample_json) ([], sample_world) in
  let pinned := run net_down (setBaseUrl "https://eu.ninjarmm.com") (snd calling) in
  let done :=
    settle 0 (Resolved (mkResponse 200 "OK" "{}")) 1700000000500 (fst calling, snd pinned) in
  baseUrl (self (snd pinned)) = Some "https://eu.ninjarmm.com"
  /\ accessToken (self (snd done)) = Some "tok-1"
  /\ baseUrl (self (snd done)) = Some "https://app.ninjarmm.com".
Proof.
  destruct (pin_during_acquisition_is_overtaken sample_env sample_json net_down sample_world
              "https://eu.ninjarmm.com" (mkResponse 200 "OK" "{}") sample_token
              1700000000500 eq_refl eq_refl eq_refl eq_refl eq_refl)
    as (_ & _ & Hpin & _ & _ & Htok & _ & Hbase & _).
  exact (conj Hpin (conj Htok Hbase)).
Defined.


(** * The tool handler and the route, whatever the tool or the request *)

(** X22 (every tool failure is an internal error).  Whatever a tool's code
    does, the handler returns its data wrapped as one text item, or throws
    an [McpError] with code [InternalError] whose message is
    ["API call failed: "] followed by the message of the tool's error; the
    effects are those of the tool's code.  So the codes [InvalidParams] and
    [MethodNotFound] thrown inside never reach the client as codes, only as
    text, and the handler's own ["Tool execution failed"] is never used. *)
Theorem tool_failures_are_internal_errors
    (JSON_stringify : JsVal -> JsVal) (net : Network) (call : Prog JsVal) (w : World) :
  run net (CallToolRequest_handler JSON_stringify call) w
  = match run net call w with
    | (Returned data, w') => (Returned (tool_result JSON_stringify data), w')
    | (Thrown e, w') =>
        (Thrown (McpError InternalError ("API call failed: " +:+ message_of e)), w')
    end.
Proof.
  unfold CallToolRequest_handler, routeToolCall.
  rewrite !run_try_catch, run_bind.
  destruct (run net call w) as [[data|e] w']; reflexivity.
Qed.

(** X23 (what one request can do to the registry).  A request that the
    route answers by itself (400, 405) changes nothing.  A request that is
    handled is handled by the transport registered under the session id it
    bears, or by a transport built for it.  And a request leaves every
    session id bound as it was, except that a DELETE unbinds the id it bears
    and an accepted initialize request binds the id just minted to the
    transport just built. *)
Theorem request_touches_one_session
    (JSON_parse : string -> option JsVal) (isInitializeRequest : JsVal -> bool)
    (randomUUID : nat -> string) (transport_initializes : Http.Request -> bool)
    (req : Http.Request) (g : Http.Gateway) :
  let reply := fst (Http.mcp JSON_parse isInitializeRequest randomUUID
                      transport_initializes req g) in
  let g' := snd (Http.mcp JSON_parse isInitializeRequest randomUUID
                   transport_initializes req g) in
  (forall status error message, reply = Http.Respond status error message -> g' = g)
  /\ (forall t, reply = Http.Handled t ->
        Http.known_session (Http.session_header req) g = Some t
        \/ (t = Http.constructed g
            /\ Http.constructed g' = S (Http.constructed g)
            /\ Http.method req = "POST"))
  /\ (forall sid,
        Http.transports g' !! sid = Http.transports g !! sid
        \/ (Http.method req = "DELETE" /\ Http.session_header req = Some sid
            /\ Http.transports g' !! sid = None)
        \/ (Http.method req = "POST" /\ sid = randomUUID (Http.minted g)
            /\ Http.transports g' !! sid = Some (Http.constructed g)
            /\ Http.minted g' = S (Http.minted g))).
Proof.
  cbn zeta. unfold Http.mcp.
  destruct (String.eqb_spec (Http.method req) "POST") as [Hpost|_].
  - destruct (negb (truthy _) || Http.keyless_object _).
    { cbn. split; [reflexivity|]. split; [discriminate|]. now left. }
    destruct (isInitializeRequest _).
    + unfold Http.initialize. destruct (transport_initializes req); cbn [fst snd].
      * split; [discriminate|].
        split; [intros t [= <-]; right; cbn; auto|].
        intros sid. cbn [Http.transports Http.minted].
        destruct (JS.truthy_string (randomUUID (Http.minted g))); [|now left].
        destruct (decide (sid = randomUUID (Http.minted g))) as [->|Hne].
        -- right. right. rewrite lookup_insert_eq. auto.
        -- left. now rewrite lookup_insert_ne.
      * split; [discriminate|].
        split; [intros t [= <-]; right; cbn; auto|].
        now left.
    + destruct (Http.known_session _ g) as [t|] eqn:Hk; cbn [fst snd].
      * split; [discriminate|]. split; [intros t' [= <-]; now left|]. now left.
      * split; [reflexivity|]. split; [discriminate|]. now left.
  - destruct (String.eqb_spec (Http.method req) "GET") as [_|_].
    { destruct (Http.known_session _ g) as [t|] eqn:Hk; cbn [fst snd].
      - split; [discriminate|]. split; [intros t' [= <-]; now left|]. now left.
      - split; [reflexivity|]. split; [discriminate|]. now left. }
    destruct (String.eqb_spec (Http.method req) "DELETE") as [Hdel|_].
    { destruct (Http.known_session _ g) as [t|] eqn:Hk; cbn [fst snd].
      - split; [discriminate|]. split; [intros t' [= <-]; now left|].
        intros sid. cbn [Http.transports].
        unfold Http.known_session in Hk.
        destruct (Http.session_header req) as [own|]; [|discriminate].
        cbn [or_empty].
        destruct (decide (sid = own)) as [->|Hne].
        + right. left. rewrite lookup_delete_eq. auto.
        + left. now rewrite lookup_delete_ne.
      - split; [reflexivity|]. split; [discriminate|]. now left. }
    cbn. split; [reflexivity|]. split; [discriminate|]. now left.
Qed.

(** * Auto-detection: the sweep of the candidates *)








(** C5 as stated fails when a token is on its way.  The object is pinned to
    the first region and a caller is waiting for its token.  [setBaseUrl]
    pins the European region and clears the cache; then the answer of the
    first region arrives and the waiting call stores its token.  The next
    [getAccessToken] finds that token, returns it and sends nothing: no
    token is requested from the endpoint just pinned.  When the waiting call
    was auto-detecting, it also puts its own candidate in the place of the
    endpoint just pinned. *)
Lemma C5_token_in_flight_refills_cache :
  let calling := spawn (getAccessToken sample_env sample_json) ([], pinned_world) in
  let pinned := run net_down (setBaseUrl "https://eu.ninjarmm.com") (snd calling) in
  let done :=
    settle 0 (Resolved (mkResponse 200 "OK" "{}")) 1700000000500 (fst calling, snd pinned) in
  let next := run net_up (getAccessToken sample_env sample_json) (tick 1000 (snd done)) in
  let detecting := spawn (getAccessToken sample_env sample_json) ([], sample_world) in
  let detected :=
    settle 0 (Resolved (mkResponse 200 "OK" "{}")) 1700000000500
      (fst detecting,
       snd (run net_down (setBaseUrl "https://eu.ninjarmm.com") (snd detecting))) in
  fst pinned = Returned tt
  /\ baseUrl (self (snd pinned)) = Some "https://eu.ninjarmm.com"
  /\ accessToken (self (snd pinned)) = None
  /\ accessToken (self (snd done)) = Some "tok-1"
  /\ baseUrl (self (snd done)) = Some "https://eu.ninjarmm.com"
  /\ fst next = Returned "tok-1"
  /\ map req_url (sent (snd next)) = ["https://app.ninjarmm.com/ws/oauth/token"]
  /\ baseUrl (self (snd detected)) = Some "https://app.ninjarmm.com".
Proof. repeat split; reflexivity. Qed.
